(** * gridsome transformer-asciidoc: the memoized derivation pipeline

    A shallow embedding of [src/lib/utils.js] (the fingerprint function
    [cacheKey]), of the four memoized stages of [src/index.js]
    ([_nodeToAST], [_nodeToHTML] and the [headings] and [timeToRead]
    resolvers) and of its [parse] method, together with the JavaScript
    run-time notions they rely on: the shared LRU store, promises and the
    microtask queue, objects as lists of properties.
    [src/unnamed/part_000] is an earlier revision of index.js; its four
    stages are the same, line for line. *)

From Stdlib Require Import List String Ascii ZArith Bool Arith Lia.
From Stdlib Require Import Permutation.
Import ListNotations.
Local Open Scope string_scope.

(** ** The bounded memo store *)

Definition Fingerprint := string.

(** Modelled from the spec: the implementation of the [lru-cache] package
    ([const cache = new LRU({ max: 1000 })], index.js line 8) is not part of
    the sources.  The store follows spec section 4.2: a mapping of fixed
    capacity, [get] and [set] both count as a use, and a [set] beyond the
    capacity evicts the least recently used entry.  Entries are kept most
    recently used first. *)
Module LRU.
Section Store.
Context {V : Type}.

Record t := mk { max : nat; entries : list (Fingerprint * V) }.

Definition create (m : nat) : t := {| max := m; entries := [] |}.

Fixpoint find (k : Fingerprint) (l : list (Fingerprint * V)) : option V :=
  match l with
  | [] => None
  | (k', v) :: l' => if String.eqb k k' then Some v else find k l'
  end.

Fixpoint remove (k : Fingerprint) (l : list (Fingerprint * V))
  : list (Fingerprint * V) :=
  match l with
  | [] => []
  | (k', v) :: l' =>
      if String.eqb k k' then remove k l' else (k', v) :: remove k l'
  end.

(** Lookup without touching the recency order. *)
Definition peek (c : t) (k : Fingerprint) : option V := find k (entries c).

Definition has (c : t) (k : Fingerprint) : bool :=
  match peek c k with Some _ => true | None => false end.

(** A hit moves the entry to the front. *)
Definition touch (c : t) (k : Fingerprint) (v : V) : t :=
  {| max := max c; entries := (k, v) :: remove k (entries c) |}.

(** [cache.get(key)]. *)
Definition get (c : t) (k : Fingerprint) : t * option V :=
  match find k (entries c) with
  | Some v => (touch c k v, Some v)
  | None => (c, None)
  end.

(** [cache.set(key, value)]: the entry becomes the most recent one; what
    exceeds the capacity is dropped from the least recently used end. *)
Definition set (c : t) (k : Fingerprint) (v : V) : t :=
  {| max := max c;
     entries := firstn (max c) ((k, v) :: remove k (entries c)) |}.

Definition keys (c : t) : list Fingerprint := map fst (entries c).

Definition size (c : t) : nat := List.length (entries c).

Fixpoint distinct (l : list Fingerprint) : bool :=
  match l with
  | [] => true
  | k :: l' => negb (existsb (String.eqb k) l') && distinct l'
  end.

(** The representation invariant: no key twice, never more than [max]
    entries. *)
Definition wf (c : t) : bool := distinct (keys c) && Nat.leb (size c) (max c).

(** The key that the next eviction removes. *)
Definition lru_key (c : t) : option Fingerprint :=
  match rev (keys c) with
  | [] => None
  | k :: _ => Some k
  end.

(** A use of the store, for statements over arbitrary histories. *)
Inductive op := OpGet (k : Fingerprint) | OpSet (k : Fingerprint) (v : V).

Definition apply (c : t) (o : op) : t :=
  match o with
  | OpGet k => fst (get c k)
  | OpSet k v => set c k v
  end.

Definition run (c : t) (os : list op) : t := fold_left apply os c.
End Store.
Arguments t V : clear implicits.
Arguments op V : clear implicits.
End LRU.

(** ** Fingerprints ([src/lib/utils.js]) *)

Record NodeInternal := { origin : string; timestamp : Z }.
Record FileInfo := { path : string }.

(** A document node, as the stages read it. *)
Record Node := {
  content : string;
  source : string;
  internal : NodeInternal;
  fileInfo : FileInfo
}.

(** The object literal handed to [hash]. *)
Record HashInput := {
  h_content : string;
  h_path : string;
  h_timestamp : Z;
  h_key : string
}.

(** ** JavaScript values, promises and the externals *)

(** The transformer's options after [defaultsDeep] (constructor, index.js
    lines 43-54): the fields of [defaultOptions]. *)
Record Options := {
  backend : string;
  parse : bool;
  safe : string;
  prism : bool;
  attributes : list (string * string)
}.

(** An [AsciidocTransformer] instance; the stages read [this.options]. *)
Record Transformer := { options : Options }.

Inductive JsError :=
| TypeError
| Thrown (message : string).

(** The result of a synchronous call that may throw. *)
Inductive Completion (A : Type) :=
| Normal (a : A)
| Throw (e : JsError).
Arguments Normal {A} a.
Arguments Throw {A} e.

(** An entry of [ast.getRefs()]. *)
Record Ref := { level : Z; title : string; id : string }.

(** What the [headings] resolver pushes. *)
Record Heading := { depth : Z; value : string; anchor : string }.

(** The external collaborators: [hash-sum], Asciidoctor ([load],
    [convert], [getRefs] in the order of [Object.values]), [sanitize-html]
    called with no allowed tags or attributes, lodash [words] and
    [path.dirname]. *)
Class Externals := {
  Document : Type;
  hash : HashInput -> Fingerprint;
  load : string -> Options -> string -> Completion Document;
  convert : Document -> Options -> string -> Completion string;
  getRefs : Document -> list Ref;
  sanitizeHTML : string -> string;
  words : string -> list string;
  dirname : string -> string
}.

(** The numbers [Math.round(count / speed) || 1] can produce from a word
    count and an integer speed; [-0] is identified with [0]. *)
Inductive JsNumber :=
| NInt (z : Z)
| NInfinity
| NNaN.

Definition PromiseId := nat.

Section Pipeline.
Context `{Externals}.

(** [src/lib/utils.js], lines 3-10. *)
Definition cacheKey (node : Node) (key : string) : Fingerprint :=
  hash {| h_content := content node;
          h_path := origin (internal node);
          h_timestamp := timestamp (internal node);
          h_key := key |}.

(** Modelled from the spec: the [hash-sum] package is not part of the
    sources.  Spec sections 2 and 3 describe its result as "a short
    identifier", "a fixed-form opaque string": no fingerprint is longer
    than some [n].  The spec asks for distinct results "with overwhelming
    probability" only; nothing more is assumed of [hash]. *)
Definition fixed_form (n : nat) : Prop :=
  forall i, String.length (hash i) <= n.

Inductive Value :=
| VUndefined
| VNumber (n : JsNumber)
| VString (s : string)
| VDocument (a : Document)
| VArray (hs : list Heading)
| VPromise (p : PromiseId).

(** [!!v]. *)
Definition truthy (v : Value) : bool :=
  match v with
  | VUndefined => false
  | VNumber (NInt z) => negb (Z.eqb z 0)
  | VNumber NInfinity => true
  | VNumber NNaN => false
  | VString s => negb (String.eqb s "")
  | VDocument _ => true
  | VArray _ => true
  | VPromise _ => true
  end.

Inductive Outcome :=
| Fulfilled (v : Value)
| Rejected (e : JsError).

(** The rest of an async function after its [await]. *)
Inductive Cont :=
| KConvert (this : Transformer) (node : Node) (p : PromiseId)
| KHeadings (node : Node) (r : PromiseId)
| KTimeToRead (node : Node) (speed : Z) (r : PromiseId)
| KAdopt (r : PromiseId).

Inductive PromiseState :=
| Pending (waiters : list Cont)
| Settled (o : Outcome).

(** Calls into the external collaborators, in the order they are made. *)
Inductive Event :=
| ELoad (src : string) (o : Options) (base_dir : string)
| EConvert (a : Document) (o : Options) (base_dir : string)
| EGetRefs (a : Document)
| ESanitize (html : string)
| EWords (text : string).

(** The module-level state of index.js ([cache], line 8) with the promise
    heap, the microtask queue and the log of external calls. *)
Record State := {
  cache : LRU.t Value;
  heap : list (PromiseId * PromiseState);
  next : PromiseId;
  jobs : list (Cont * Outcome);
  trace : list Event
}.

Definition cache_max : nat := 1000.

Definition initial : State :=
  {| cache := LRU.create cache_max; heap := []; next := 0;
     jobs := []; trace := [] |}.

(** *** A state monad for the synchronous code *)

Definition M (A : Type) : Type := State -> A * State.

Definition ret {A} (a : A) : M A := fun st => (a, st).

Definition bind {A B} (m : M A) (f : A -> M B) : M B :=
  fun st => let (a, st') := m st in f a st'.

Notation "x <- m ;; k" := (bind m (fun x => k))
  (at level 61, m at next level, right associativity).
Notation "m ;;; k" := (bind m (fun _ => k))
  (at level 61, right associativity).

Definition cache_get (k : Fingerprint) : M Value := fun st =>
  let (c, r) := LRU.get (cache st) k in
  (match r with Some v => v | None => VUndefined end,
   {| cache := c; heap := heap st; next := next st;
      jobs := jobs st; trace := trace st |}).

Definition cache_set (k : Fingerprint) (v : Value) : M unit := fun st =>
  (tt, {| cache := LRU.set (cache st) k v; heap := heap st; next := next st;
          jobs := jobs st; trace := trace st |}).

Definition emit (e : Event) : M unit := fun st =>
  (tt, {| cache := cache st; heap := heap st; next := next st;
          jobs := jobs st; trace := trace st ++ [e] |}).

Fixpoint lookup (p : PromiseId) (h : list (PromiseId * PromiseState))
  : option PromiseState :=
  match h with
  | [] => None
  | (q, s) :: h' => if Nat.eqb p q then Some s else lookup p h'
  end.

Definition promise_state (st : State) (p : PromiseId) : PromiseState :=
  match lookup p (heap st) with
  | Some s => s
  | None => Pending []
  end.

Definition outcome (st : State) (p : PromiseId) : option Outcome :=
  match promise_state st p with
  | Settled o => Some o
  | Pending _ => None
  end.

Definition new_promise (s : PromiseState) : M PromiseId := fun st =>
  (next st,
   {| cache := cache st; heap := (next st, s) :: heap st;
      next := S (next st); jobs := jobs st; trace := trace st |}).

Definition update (p : PromiseId) (s : PromiseState) : M unit := fun st =>
  (tt, {| cache := cache st; heap := (p, s) :: heap st; next := next st;
          jobs := jobs st; trace := trace st |}).

Definition enqueue (js : list (Cont * Outcome)) : M unit := fun st =>
  (tt, {| cache := cache st; heap := heap st; next := next st;
          jobs := jobs st ++ js; trace := trace st |}).

(** Settling wakes the waiters in the order they subscribed; a settled
    promise stays as it is. *)
Definition settle (p : PromiseId) (o : Outcome) : M unit := fun st =>
  match promise_state st p with
  | Pending ws =>
      (update p (Settled o) ;;; enqueue (map (fun k => (k, o)) ws)) st
  | Settled _ => (tt, st)
  end.

(** [await p] / [p.then(k)]: the continuation runs in a later microtask. *)
Definition subscribe (p : PromiseId) (k : Cont) : M unit := fun st =>
  match promise_state st p with
  | Pending ws => update p (Pending (ws ++ [k])) st
  | Settled o => enqueue [(k, o)] st
  end.

(** Resolving with a promise adopts its state. *)
Definition resolve (p : PromiseId) (v : Value) : M unit :=
  match v with
  | VPromise q => subscribe q (KAdopt p)
  | _ => settle p (Fulfilled v)
  end.

(** [Promise.resolve(v)]: a promise is returned as it is. *)
Definition Promise_resolve (v : Value) : M PromiseId :=
  match v with
  | VPromise q => ret q
  | _ => new_promise (Settled (Fulfilled v))
  end.

(** *** The stages ([src/index.js]) *)

(** [path.dirname(node.fileInfo.path)], the [base_dir] option given to
    [load] and [convert] on top of [this.options]. *)
Definition base_dir (node : Node) : string := dirname (path (fileInfo node)).

(** Lines 204-215.  [asciidoctor.load] is synchronous: when it throws,
    [cache.set] is not reached. *)
Definition _nodeToAST (this : Transformer) (node : Node)
  : M (Completion PromiseId) :=
  let key := cacheKey node "ast" in
  cached <- cache_get key ;;
  if truthy cached then
    p <- Promise_resolve cached ;;
    ret (Normal p)
  else
    emit (ELoad (source node) (options this) (base_dir node)) ;;;
    match load (source node) (options this) (base_dir node) with
    | Throw e => ret (Throw e)
    | Normal a =>
        cache_set key (VDocument a) ;;;
        p <- Promise_resolve (VDocument a) ;;
        ret (Normal p)
    end.

(** Lines 217-232.  The async arrow function runs up to its [await] before
    [cache.set(key, cached)] stores its promise. *)
Definition _nodeToHTML (this : Transformer) (node : Node) : M PromiseId :=
  let key := cacheKey node "html" in
  cached <- cache_get key ;;
  if truthy cached then Promise_resolve cached
  else
    p <- new_promise (Pending []) ;;
    ast <- _nodeToAST this node ;;
    match ast with
    | Throw e => settle p (Rejected e)
    | Normal q => subscribe q (KConvert this node p)
    end ;;;
    cache_set key (VPromise p) ;;;
    Promise_resolve (VPromise p).

(** Line 143. *)
Definition content_resolve (this : Transformer) (node : Node) : M PromiseId :=
  _nodeToHTML this node.

(** Lines 155-171, up to the [await]; [depth] and [stripTags] are the
    destructured arguments. *)
Definition headings_resolve (this : Transformer) (node : Node)
  (depth : option Z) (stripTags : bool) : M PromiseId :=
  r <- new_promise (Pending []) ;;
  let key := cacheKey node "headings" in
  headings <- cache_get key ;;
  if truthy headings then
    resolve r headings ;;;
    ret r
  else
    ast <- _nodeToAST this node ;;
    match ast with
    | Throw e => settle r (Rejected e)
    | Normal q => subscribe q (KHeadings node r)
    end ;;;
    ret r.

(** Lines 182-199, up to the [await]. *)
Definition timeToRead_resolve (this : Transformer) (node : Node) (speed : Z)
  : M PromiseId :=
  r <- new_promise (Pending []) ;;
  let key := cacheKey node "timeToRead" in
  cached <- cache_get key ;;
  if truthy cached then
    resolve r cached ;;;
    ret r
  else
    html <- _nodeToHTML this node ;;
    subscribe html (KTimeToRead node speed r) ;;;
    ret r.

(** [Math.round(count / speed)] for a word count and an integer speed:
    [Math.round] is [floor (x + 1/2)]; a zero speed gives [Infinity], or
    [NaN] for an empty text. *)
Definition Math_round_div (count : nat) (speed : Z) : JsNumber :=
  if Z.eqb speed 0 then
    if Nat.eqb count 0 then NNaN else NInfinity
  else NInt ((2 * Z.of_nat count + speed) / (2 * speed)).

(** [n || 1]. *)
Definition or_one (n : JsNumber) : JsNumber :=
  if truthy (VNumber n) then n else NInt 1.

(** [Object.values(ast.getRefs()).forEach(h => headings.push(...))],
    lines 161-166. *)
Definition collect_headings (a : Document) : list Heading :=
  map (fun h => {| depth := level h; value := title h; anchor := id h |})
      (getRefs a).

(** What runs after each [await].  A method call on a value that does not
    have the method is a [TypeError]; so is, in this model, sanitizing
    something that is not a string. *)
Definition resume (k : Cont) (o : Outcome) : M unit :=
  match k, o with
  | KAdopt r, _ => settle r o
  | KConvert this node p, Fulfilled (VDocument a) =>
      emit (EConvert a (options this) (base_dir node)) ;;;
      match convert a (options this) (base_dir node) with
      | Normal html => resolve p (VString html)
      | Throw e => settle p (Rejected e)
      end
  | KConvert _ _ p, Fulfilled _ => settle p (Rejected TypeError)
  | KConvert _ _ p, Rejected e => settle p (Rejected e)
  | KHeadings node r, Fulfilled (VDocument a) =>
      emit (EGetRefs a) ;;;
      let headings := collect_headings a in
      cache_set (cacheKey node "headings") (VArray headings) ;;;
      resolve r (VArray headings)
  | KHeadings _ r, Fulfilled _ => settle r (Rejected TypeError)
  | KHeadings _ r, Rejected e => settle r (Rejected e)
  | KTimeToRead node speed r, Fulfilled (VString html) =>
      emit (ESanitize html) ;;;
      let text := sanitizeHTML html in
      emit (EWords text) ;;;
      let count := List.length (words text) in
      let cached := or_one (Math_round_div count speed) in
      cache_set (cacheKey node "timeToRead") (VNumber cached) ;;;
      resolve r (VNumber cached)
  | KTimeToRead _ _ r, Fulfilled _ => settle r (Rejected TypeError)
  | KTimeToRead _ _ r, Rejected e => settle r (Rejected e)
  end.

(** One microtask. *)
Definition tick (st : State) : option State :=
  match jobs st with
  | [] => None
  | (k, o) :: js =>
      Some (snd (resume k o {| cache := cache st; heap := heap st;
                               next := next st; jobs := js;
                               trace := trace st |}))
  end.

(** Drain the microtask queue. *)
Fixpoint run (fuel : nat) (st : State) : State :=
  match fuel with
  | O => st
  | S fuel' =>
      match tick st with
      | None => st
      | Some st' => run fuel' st'
      end
  end.

(** *** The declared arguments (lines 151-154 and 175-181) *)

Definition stripTags_defaultValue : bool := true.
Definition speed_defaultValue : Z := 230.

(** The query layer supplies [defaultValue] for an argument left out. *)
Definition headings_query (this : Transformer) (node : Node)
  (depth : option Z) (stripTags : option bool) : M PromiseId :=
  headings_resolve this node depth
    (match stripTags with Some b => b | None => stripTags_defaultValue end).

Definition timeToRead_query (this : Transformer) (node : Node)
  (speed : option Z) : M PromiseId :=
  timeToRead_resolve this node
    (match speed with Some s => s | None => speed_defaultValue end).

(** *** Observations on the log and the heap *)

Definition is_load (e : Event) : bool :=
  match e with ELoad _ _ _ => true | _ => false end.
Definition is_convert (e : Event) : bool :=
  match e with EConvert _ _ _ => true | _ => false end.
Definition is_getRefs (e : Event) : bool :=
  match e with EGetRefs _ => true | _ => false end.
Definition is_sanitize (e : Event) : bool :=
  match e with ESanitize _ => true | _ => false end.

Definition calls (f : Event -> bool) (st : State) : nat :=
  List.length (filter f (trace st)).

(** The derivation keys of the four stages. *)
Definition stage_keys : list string :=
  ["ast"; "html"; "headings"; "timeToRead"].

(** A state between requests: the store of line 8, no microtask left. *)
Definition idle (st : State) : Prop :=
  LRU.max (cache st) = cache_max /\ jobs st = [].

(** What the four stages store: a parsed document, the promise of a
    rendering, an array of headings, or [Math.round(count / speed) || 1]. *)
Definition stage_value (v : Value) : Prop :=
  match v with
  | VDocument _ | VPromise _ | VArray _ => True
  | VNumber x => exists count speed, x = or_one (Math_round_div count speed)
  | VUndefined | VString _ => False
  end.

Definition all_entries (P : Value -> Prop) (st : State) : Prop :=
  forall k v, In (k, v) (LRU.entries (cache st)) -> P v.

(** A computation that keeps an invariant of the stored values. *)
Definition keeps {A} (P : Value -> Prop) (m : M A) : Prop :=
  forall st, all_entries P st -> all_entries P (snd (m st)).

(** A computation that stores nothing under the fingerprint [k]. *)
Definition leaves_absent {A} (k : Fingerprint) (m : M A) : Prop :=
  forall st, LRU.peek (cache st) k = None ->
             LRU.peek (cache (snd (m st))) k = None.

(** The store keeps the capacity of line 8 and holds no key twice. *)
Definition store_ok (c : LRU.t Value) : Prop :=
  LRU.wf c = true /\ LRU.max c = cache_max.

Definition keeps_store {A} (m : M A) : Prop :=
  forall st, store_ok (cache st) -> store_ok (cache (snd (m st))).

(** The states the module can be in: requests of the query layer on any
    transformer and node, interleaved with microtasks. *)
Inductive reachable : State -> Prop :=
| reach_initial : reachable initial
| reach_content this node st :
    reachable st -> reachable (snd (content_resolve this node st))
| reach_headings this node depth stripTags st :
    reachable st ->
    reachable (snd (headings_resolve this node depth stripTags st))
| reach_timeToRead this node speed st :
    reachable st -> reachable (snd (timeToRead_resolve this node speed st))
| reach_tick st st' :
    reachable st -> tick st = Some st' -> reachable st'.

End Pipeline.

(** ** Counting fingerprints

    All characters, all strings up to a given length, and a derivation key
    of every length: what it takes to count the fingerprints of a fixed
    form. *)
Definition all_ascii : list ascii := map ascii_of_nat (seq 0 256).

Fixpoint strings_of_length (n : nat) : list string :=
  match n with
  | O => [""]
  | S n' =>
      flat_map (fun c => map (String c) (strings_of_length n')) all_ascii
  end.

Definition strings_up_to (n : nat) : list string :=
  flat_map strings_of_length (seq 0 (S n)).

Fixpoint key_of_length (i : nat) : string :=
  match i with
  | O => ""
  | S i' => String "k" (key_of_length i')
  end.

(** ** A concrete set of collaborators

    Used to run the pipeline on explicit inputs: a fingerprint that keeps
    all inputs apart (a framed serialisation of the four fields), a parser
    that rejects the empty source, a converter that rejects a document
    without body, a tag stripper and a splitter on spaces. *)
Module Sample.

Fixpoint frame (s : string) (rest : string) : string :=
  match s with
  | EmptyString => String "0" rest
  | String c s' => String "1" (String c (frame s' rest))
  end.

Fixpoint unary (n : nat) (rest : string) : string :=
  match n with
  | O => String "0" rest
  | S n' => String "1" (unary n' rest)
  end.

Definition frameZ (z : Z) (rest : string) : string :=
  String (if Z.ltb z 0 then "-" else "+")%char (unary (Z.abs_nat z) rest).

Definition serialize (i : HashInput) : Fingerprint :=
  frame (h_content i)
    (frame (h_path i) (frameZ (h_timestamp i) (frame (h_key i) ""))).

Record Doc := { doc_refs : list Ref; doc_body : string }.

Definition outline : list Ref :=
  [ {| level := 1; title := "Intro"; id := "_intro" |};
    {| level := 2; title := "<em>Setup</em>"; id := "_setup" |} ].

Definition parse_source (src : string) : Completion Doc :=
  if String.eqb src "" then Throw (Thrown "cannot load")
  else if String.eqb src "!" then
    Normal {| doc_refs := []; doc_body := "" |}
  else if String.prefix "== " src then
    Normal {| doc_refs := outline; doc_body := src |}
  else Normal {| doc_refs := []; doc_body := src |}.

Definition render (d : Doc) : Completion string :=
  if String.eqb (doc_body d) "" then Throw (Thrown "cannot convert")
  else Normal ("<p>" ++ doc_body d ++ "</p>").

Fixpoint strip (inside : bool) (s : string) : string :=
  match s with
  | EmptyString => EmptyString
  | String c s' =>
      if Ascii.eqb c "<" then strip true s'
      else if Ascii.eqb c ">" then strip false s'
      else if inside then strip inside s'
      else String c (strip inside s')
  end.

Fixpoint split (cur : string) (s : string) : list string :=
  match s with
  | EmptyString => if String.eqb cur "" then [] else [cur]
  | String c s' =>
      if Ascii.eqb c " " then
        if String.eqb cur "" then split "" s' else cur :: split "" s'
      else split (cur ++ String c "") s'
  end.

#[export] Instance externals : Externals := {|
  Document := Doc;
  hash := serialize;
  load := fun src _ _ => parse_source src;
  convert := fun d _ _ => render d;
  getRefs := doc_refs;
  sanitizeHTML := strip false;
  words := split "";
  dirname := fun p => p
|}.

Definition defaults : Options :=
  {| backend := "html5"; parse := true; safe := "safe"; prism := true;
     attributes := [("source-highlighter", "prism")] |}.

Definition transformer : Transformer := {| options := defaults |}.

Definition node_of (text : string) : Node :=
  {| content := text; source := text;
     internal := {| origin := "/docs/a.adoc"; timestamp := 7 |};
     fileInfo := {| path := "/docs/a.adoc" |} |}.

(** A document with two sections, one that cannot be loaded, one that
    cannot be converted, and one without any section. *)
Definition article : Node := node_of "== hello world".
Definition broken : Node := node_of "".
Definition unrenderable : Node := node_of "!".
Definition plain : Node := node_of "hello world".

(** Same content, origin and timestamp as [article]; another source text
    and another place on disk. *)
Definition article_twin : Node :=
  {| content := "== hello world"; source := "rewritten";
     internal := {| origin := "/docs/a.adoc"; timestamp := 7 |};
     fileInfo := {| path := "/elsewhere/b.adoc" |} |}.

Definition docbook : Transformer :=
  {| options :=
       {| backend := "docbook5"; parse := true; safe := "unsafe";
          prism := false; attributes := [] |} |}.

(** A store filled to its capacity: [key_of 0] is the least recently used
    entry, [key_of 999] the most recent one. *)
Definition key_of (n : nat) : Fingerprint :=
  String (ascii_of_nat (48 + n / 32))
    (String (ascii_of_nat (48 + n mod 32)) "").

Definition full_store : LRU.t nat :=
  LRU.run (LRU.create cache_max)
    (map (fun n => LRU.OpSet (key_of n) n) (seq 0 1000)).

Definition full_store_rest : list (Fingerprint * nat) :=
  removelast (LRU.entries full_store).

End Sample.

(** The sample collaborators with a fingerprint of fixed form: the eight
    hexadecimal digits of a 32-bit rolling sum over the serialisation. *)
Module Short.

Definition roll (h : Z) (c : ascii) : Z :=
  (31 * h + Z.of_nat (nat_of_ascii c)) mod 2 ^ 32.

Fixpoint fold (h : Z) (s : string) : Z :=
  match s with
  | EmptyString => h
  | String c s' => fold (roll h c) s'
  end.

Definition hex_digit (z : Z) : ascii :=
  match String.get (Z.to_nat (z mod 16)) "0123456789abcdef" with
  | Some c => c
  | None => "0"%char
  end.

Fixpoint hex (digits : nat) (z : Z) (rest : string) : string :=
  match digits with
  | O => rest
  | S digits' => hex digits' (z / 16) (String (hex_digit z) rest)
  end.

Definition digest (i : HashInput) : Fingerprint :=
  hex 8 (fold 0 (Sample.serialize i)) "".

Definition externals : Externals := {|
  Document := Sample.Doc;
  hash := digest;
  load := fun src _ _ => Sample.parse_source src;
  convert := fun d _ _ => Sample.render d;
  getRefs := Sample.doc_refs;
  sanitizeHTML := Sample.strip false;
  words := Sample.split "";
  dirname := fun p => p
|}.

End Short.

(** ** The [parse] method ([src/index.js], lines 70-137) *)

Module Parser.

(** JavaScript objects with string keys, as the list of their properties.
    Only lookups are stated of the result, and the order matters nowhere
    but in the sort of the attributes. *)
Module Obj.
Section Objects.
Context {A : Type}.

Definition t := list (string * A).

(** [o[k]]: [None] is [undefined]. *)
Fixpoint get (o : t) (k : string) : option A :=
  match o with
  | [] => None
  | (k', v) :: o' => if String.eqb k k' then Some v else get o' k
  end.

(** [delete o[k]]. *)
Fixpoint delete (o : t) (k : string) : t :=
  match o with
  | [] => []
  | (k', v) :: o' =>
      if String.eqb k k' then delete o' k else (k', v) :: delete o' k
  end.

(** [o[k] = v]: an existing property keeps its place. *)
Fixpoint set (o : t) (k : string) (v : A) : t :=
  match o with
  | [] => [(k, v)]
  | (k', v') :: o' =>
      if String.eqb k k' then (k, v) :: o' else (k', v') :: set o' k v
  end.

Definition keys (o : t) : list string := map fst o.

End Objects.
Arguments t A : clear implicits.

(** [{...target, ...src}] with the values of [src] wrapped by [f]. *)
Definition spread {A B} (f : A -> B) (target : t B) (src : t A) : t B :=
  fold_left (fun o kv => set o (fst kv) (f (snd kv))) src target.
End Obj.

(** A block of the parsed document: [getSource()] and [blocks]. *)
#[warnings="-register-all"]
Inductive Block := mkBlock (getSource : string) (blocks : list Block).

Definition block_source (b : Block) : string :=
  match b with mkBlock s _ => s end.
Definition block_blocks (b : Block) : list Block :=
  match b with mkBlock _ bs => bs end.

(** What [parse] asks of Asciidoctor and of the JavaScript run time:
    [asciidoctor.load] with the options object as given, the document
    title partitioned into main and subtitle, the revision info, the
    attributes in [Object.entries] order and the top-level blocks; values
    of attributes with their truthiness; [String.prototype.localeCompare]
    (its sign), [Number(...)] and [new Date(...)]. *)
Class DocumentAPI {X : Externals} := {
  AttrValue : Type;
  attr_truthy : AttrValue -> bool;
  NumberValue : Type;
  DateValue : Type;
  load_with : string -> Options -> Completion Document;
  getMain : Document -> option string;
  getSubtitle : Document -> option string;
  getCombined : Document -> option string;
  getDate : Document -> option string;
  getNumber : Document -> option string;
  getAttributes : Document -> Obj.t AttrValue;
  doc_blocks : Document -> list Block;
  localeCompare : string -> string -> Z;
  Number_of : option string -> NumberValue;
  new_Date : string -> DateValue
}.

Section Parse.
Context {X : Externals} {D : DocumentAPI}.

(** [attributes[...] || '']. *)
Inductive AuthorField :=
| Given (a : AttrValue)
| Blank.

Record Author := {
  author : AuthorField;
  email : AuthorField;
  firstname : AuthorField;
  lastname : AuthorField;
  middlename : AuthorField;
  authorinitials : AuthorField
}.

(** The values of the object [parse] returns. *)
Inductive Field :=
| FUndefined
| FNull
| FString (s : string)
| FAttr (a : AttrValue)
| FNumber (x : NumberValue)
| FDate (d : DateValue)
| FAuthors (l : list Author).

Definition field_of (o : option string) : Field :=
  match o with Some s => FString s | None => FUndefined end.

(** [{...this.options, safe: 'secure'}], line 73. *)
Definition with_safe (o : Options) (level : string) : Options :=
  {| backend := backend o; parse := parse o; safe := level;
     prism := prism o; attributes := attributes o |}.

(** [/[-+]\d{2,4}/] matches somewhere in the string, line 80. *)
Definition is_digit (c : ascii) : bool :=
  Nat.leb 48 (nat_of_ascii c) && Nat.leb (nat_of_ascii c) 57.

Definition is_sign (c : ascii) : bool :=
  Ascii.eqb c "-" || Ascii.eqb c "+".

Definition two_digits (s : string) : bool :=
  match s with
  | String d1 (String d2 _) => is_digit d1 && is_digit d2
  | _ => false
  end.

Fixpoint has_offset (s : string) : bool :=
  match s with
  | EmptyString => false
  | String c s' => (is_sign c && two_digits s') || has_offset s'
  end.

(** Lines 79-82. *)
Definition dateString (doc : Document) : option string :=
  match getDate doc with
  | Some s =>
      if negb (String.eqb s "") && negb (has_offset s)
      then Some (s ++ " GMT")
      else Some s
  | None => None
  end.

(** [dateString ? new Date(dateString) : null], line 132. *)
Definition revdate (doc : Document) : Field :=
  match dateString doc with
  | Some s => if String.eqb s "" then FNull else FDate (new_Date s)
  | None => FNull
  end.

(** Line 84: the source of the first block of the first block. *)
Definition preamble (doc : Document) : option string :=
  match doc_blocks doc with
  | [] => None
  | b :: _ =>
      match block_blocks b with
      | [] => None
      | b' :: _ => Some (block_source b')
      end
  end.

(** [preamble || attributes.description || ""], line 85. *)
Definition excerpt (doc : Document) : Field :=
  match preamble doc with
  | Some (String c s) => FString (String c s)
  | _ =>
      match Obj.get (getAttributes doc) "description" with
      | Some a => if attr_truthy a then FAttr a else FString ""
      | None => FString ""
      end
  end.

(** [s.split('_')]. *)
Fixpoint split_on (sep : ascii) (cur : string) (s : string) : list string :=
  match s with
  | EmptyString => [cur]
  | String c s' =>
      if Ascii.eqb c sep then cur :: split_on sep "" s'
      else split_on sep (cur ++ String c "") s'
  end.

(** [item[0].split('_')[1]] inside a template literal, line 90. *)
Definition index_of (key : string) : string :=
  match split_on "_" "" key with
  | _ :: i :: _ => i
  | _ => "undefined"
  end.

Definition or_blank (o : option AttrValue) : AuthorField :=
  match o with
  | Some a => if attr_truthy a then Given a else Blank
  | None => Blank
  end.

(** The object literal of lines 91-98 ([suffix] is ["_" ++ index]) and of
    lines 109-116 (no suffix). *)
Definition author_at (attrs : Obj.t AttrValue) (suffix : string) : Author :=
  {| author := or_blank (Obj.get attrs ("author" ++ suffix));
     email := or_blank (Obj.get attrs ("email" ++ suffix));
     firstname := or_blank (Obj.get attrs ("firstname" ++ suffix));
     lastname := or_blank (Obj.get attrs ("lastname" ++ suffix));
     middlename := or_blank (Obj.get attrs ("middlename" ++ suffix));
     authorinitials := or_blank (Obj.get attrs ("authorinitials" ++ suffix)) |}.

Definition author_fields : list string :=
  ["author"; "email"; "firstname"; "lastname"; "middlename";
   "authorinitials"].

(** The six [delete]s of lines 99-104 and of lines 119-124. *)
Definition delete_author (attrs : Obj.t AttrValue) (suffix : string)
  : Obj.t AttrValue :=
  fold_left (fun o name => Obj.delete o (name ++ suffix)) author_fields attrs.

(** [.sort((a, b) => b[0].localeCompare(a[0]))], line 88: a stable sort,
    here by insertion; with a comparison that is a total preorder all
    stable sorts return the same list. *)
Definition before (a b : string * AttrValue) : bool :=
  Z.leb (localeCompare (fst b) (fst a)) 0.

Fixpoint insert (x : string * AttrValue) (l : list (string * AttrValue))
  : list (string * AttrValue) :=
  match l with
  | [] => [x]
  | y :: l' => if before x y then x :: y :: l' else y :: insert x l'
  end.

Fixpoint sort (l : list (string * AttrValue)) : list (string * AttrValue) :=
  match l with
  | [] => []
  | x :: l' => insert x (sort l')
  end.

(** The callback of [forEach], lines 88-106: the attributes object and the
    author list are updated in place. *)
Definition visit (st : Obj.t AttrValue * list Author)
  (item : string * AttrValue) : Obj.t AttrValue * list Author :=
  if String.prefix "author_" (fst item) then
    let suffix := "_" ++ index_of (fst item) in
    (delete_author (fst st) suffix,
     (snd st ++ [author_at (fst st) suffix])%list)
  else st.

Definition collect_authors (attrs : Obj.t AttrValue)
  : Obj.t AttrValue * list Author :=
  fold_left visit (sort attrs) (attrs, []).

(** Lines 108-124. *)
Definition authors_of (attrs : Obj.t AttrValue)
  : Obj.t AttrValue * list Author :=
  let (attrs', authorlist) := collect_authors attrs in
  let authorlist' :=
    match authorlist with
    | [] => [author_at attrs' ""]
    | _ => authorlist
    end in
  (delete_author attrs' "", authorlist').

(** Lines 126-136, for a loaded document. *)
Definition parse_document (source : string) (doc : Document) : Obj.t Field :=
  let (attrs, authorlist) := authors_of (getAttributes doc) in
  let data :=
    Obj.set
      (Obj.set
         (Obj.set
            (Obj.set
               (Obj.set
                  (Obj.set (Obj.spread FAttr [] attrs)
                     "title" (field_of (getMain doc)))
                  "subtitle" (field_of (getSubtitle doc)))
               "preamble" (field_of (preamble doc)))
            "revnumber" (FNumber (Number_of (getNumber doc))))
         "revdate" (revdate doc))
      "authorlist" (FAuthors authorlist) in
  Obj.spread (fun v => v)
    [("source", FString source); ("excerpt", excerpt doc)] data.

(** [parse (source)], lines 70-137. *)
Definition parse (this : Transformer) (source : string)
  : Completion (Obj.t Field) :=
  match load_with source (with_safe (options this) "secure") with
  | Throw e => Throw e
  | Normal doc => Normal (parse_document source doc)
  end.

(** [parse (source)] of the earlier revision ([src/unnamed/part_000],
    lines 53-63). *)
Definition parse_document_v0 (source : string) (doc : Document)
  : Obj.t Field :=
  Obj.spread FAttr
    [("source", FString source); ("excerpt", field_of (getCombined doc))]
    (getAttributes doc).

Definition parse_v0 (this : Transformer) (source : string)
  : Completion (Obj.t Field) :=
  match load_with source (with_safe (options this) "secure") with
  | Throw e => Throw e
  | Normal doc => Normal (parse_document_v0 source doc)
  end.

(** The properties [parse] itself writes into its result. *)
Definition reserved_keys : list string :=
  ["title"; "subtitle"; "preamble"; "revnumber"; "revdate"; "authorlist";
   "source"; "excerpt"].

End Parse.

End Parser.

(** ** A sample document for [parse] *)

Module Book.
Import Parser.

Record Manual := {
  main : option string;
  subtitle : option string;
  date : option string;
  number : option string;
  entries : Obj.t string;
  body : list Block
}.

(** Two numbered authors, an attribute that shares its name with a
    property of the result, and a preamble. *)
Definition guide : Manual :=
  {| main := Some "Guide";
     subtitle := Some "Second edition";
     date := Some "2020-01-02";
     number := Some "1.2";
     entries :=
       [("author", "Ann Lee"); ("author_1", "Ann Lee");
        ("email_1", "ann@example.org"); ("author_2", "Bob Roe");
        ("authorcount", "2"); ("description", "About the guide");
        ("source", "overridden")];
     body := [mkBlock "" [mkBlock "First words." []]] |}.

(** No author, no revision date, no preamble. *)
Definition note : Manual :=
  {| main := Some "Note"; subtitle := None; date := None; number := None;
     entries := [("description", "A short note"); ("lang", "en")];
     body := [mkBlock "Text" []] |}.

Definition read (src : string) : Completion Manual :=
  if String.eqb src "" then Throw (Thrown "cannot load")
  else if String.prefix "= Guide" src then Normal guide
  else Normal note.

Definition text_of (m : Manual) : string :=
  concat " " (map block_source (body m)).

#[export] Instance externals : Externals := {|
  Document := Manual;
  hash := Sample.serialize;
  load := fun src _ _ => read src;
  convert := fun m _ _ => Normal ("<p>" ++ text_of m ++ "</p>");
  getRefs := fun _ => [];
  sanitizeHTML := Sample.strip false;
  words := Sample.split "";
  dirname := fun p => p
|}.

Definition sign (c : comparison) : Z :=
  match c with Lt => (-1)%Z | Eq => 0%Z | Gt => 1%Z end.

#[export] Instance api : DocumentAPI := {|
  AttrValue := string;
  attr_truthy := fun s => negb (String.eqb s "");
  NumberValue := option string;
  DateValue := string;
  load_with := fun src _ => read src;
  getMain := main;
  getSubtitle := subtitle;
  getCombined := fun m =>
    match main m, subtitle m with
    | Some t, Some s => Some (t ++ ": " ++ s)
    | t, _ => t
    end;
  getDate := date;
  getNumber := number;
  getAttributes := entries;
  doc_blocks := body;
  localeCompare := fun a b => sign (String.compare a b);
  Number_of := fun o => o;
  new_Date := fun s => s
|}.

End Book.

(** * Properties *)

Local Open Scope list_scope.

(** ** The store *)

Section LRUFacts.
Context {V : Type}.
Implicit Types (c : LRU.t V) (k : Fingerprint) (v : V).
Implicit Types (l : list (Fingerprint * V)).

Lemma lru_find_remove_same k l : LRU.find k (LRU.remove k l) = None.
Proof.
  induction l as [|[k' v'] l IH]; simpl; auto.
  destruct (String.eqb k k') eqn:E; simpl; auto. now rewrite E.
Qed.

Lemma lru_find_remove_other k k' l :
  k <> k' -> LRU.find k' (LRU.remove k l) = LRU.find k' l.
Proof.
  intros Hne. induction l as [|[k0 v0] l IH]; simpl; auto.
  destruct (String.eqb k k0) eqn:E.
  - apply String.eqb_eq in E. subst k0.
    destruct (String.eqb k' k) eqn:E'; auto.
    apply String.eqb_eq in E'. congruence.
  - simpl. now rewrite IH.
Qed.

Lemma lru_remove_absent k l : LRU.find k l = None -> LRU.remove k l = l.
Proof.
  induction l as [|[k' v'] l IH]; simpl; auto.
  destruct (String.eqb k k'); [discriminate|]. intros E. now rewrite IH.
Qed.

Lemma lru_find_firstn_none k l n :
  LRU.find k l = None -> LRU.find k (firstn n l) = None.
Proof.
  revert n. induction l as [|[k' v'] l IH]; intros [|n]; simpl; auto.
  destruct (String.eqb k k'); [discriminate|]. auto.
Qed.

Lemma lru_get_miss c k : LRU.peek c k = None -> LRU.get c k = (c, None).
Proof. unfold LRU.peek, LRU.get. now intros ->. Qed.

Lemma lru_get_hit c k v :
  LRU.peek c k = Some v ->
  LRU.get c k =
  (LRU.touch c k v,
   Some v).
Proof. unfold LRU.peek, LRU.get. now intros ->. Qed.

Lemma lru_set_entries c k v :
  1 <= LRU.max c ->
  LRU.entries (LRU.set c k v) =
  (k, v) :: firstn (LRU.max c - 1) (LRU.remove k (LRU.entries c)).
Proof.
  intros Hm. unfold LRU.set; simpl.
  destruct (LRU.max c) as [|m]; [lia|]. simpl. now rewrite Nat.sub_0_r.
Qed.

Lemma lru_peek_set_same c k v :
  1 <= LRU.max c -> LRU.peek (LRU.set c k v) k = Some v.
Proof.
  intros Hm. unfold LRU.peek. rewrite lru_set_entries by assumption.
  simpl. now rewrite String.eqb_refl.
Qed.

Lemma lru_get_set_same c k v :
  1 <= LRU.max c -> LRU.get (LRU.set c k v) k = (LRU.set c k v, Some v).
Proof.
  intros Hm. rewrite (lru_get_hit _ _ v) by now apply lru_peek_set_same.
  f_equal. unfold LRU.touch, LRU.set; simpl. f_equal.
  destruct (LRU.max c) as [|m]; [lia|]. simpl. rewrite String.eqb_refl.
  f_equal. apply lru_remove_absent.
  apply lru_find_firstn_none, lru_find_remove_same.
Qed.

Lemma lru_max_set c k v : LRU.max (LRU.set c k v) = LRU.max c.
Proof. reflexivity. Qed.

Lemma lru_max_get c k : LRU.max (fst (LRU.get c k)) = LRU.max c.
Proof. unfold LRU.get. now destruct (LRU.find k (LRU.entries c)). Qed.

Lemma lru_distinct_NoDup (ks : list Fingerprint) :
  LRU.distinct ks = true <-> NoDup ks.
Proof.
  induction ks as [|a ks IH]; simpl.
  - split; [constructor | reflexivity].
  - rewrite andb_true_iff, negb_true_iff, IH. split.
    + intros [Hn Hd]. constructor; [|assumption]. intros Hin.
      assert (existsb (String.eqb a) ks = true) as E; [|congruence].
      apply existsb_exists. exists a. split; [assumption|apply String.eqb_refl].
    + intros Hnd. inversion Hnd as [|? ? Hn Hd]; subst. split; [|assumption].
      destruct (existsb (String.eqb a) ks) eqn:E; [|reflexivity].
      apply existsb_exists in E. destruct E as [x [Hx Ex]].
      apply String.eqb_eq in Ex. subst x. contradiction.
Qed.

Lemma lru_find_none_keys k l : LRU.find k l = None <-> ~ In k (map fst l).
Proof.
  induction l as [|[k' v'] l IH]; simpl.
  - tauto.
  - destruct (String.eqb k k') eqn:E.
    + apply String.eqb_eq in E. subst. split; [discriminate|tauto].
    + apply String.eqb_neq in E. rewrite IH. split; [|tauto].
      intros Hn [Heq|Hin]; [congruence|tauto].
Qed.

Lemma lru_keys_remove_incl k l x :
  In x (map fst (LRU.remove k l)) -> In x (map fst l).
Proof.
  induction l as [|[k' v'] l IH]; simpl; auto.
  destruct (String.eqb k k'); simpl; tauto.
Qed.

Lemma lru_NoDup_remove k l :
  NoDup (map fst l) -> NoDup (map fst (LRU.remove k l)).
Proof.
  induction l as [|[k' v'] l IH]; simpl; auto.
  intros Hnd. inversion Hnd as [|? ? Hn Hd]; subst.
  destruct (String.eqb k k'); simpl; auto.
  constructor; auto. intros Hin. apply Hn. eapply lru_keys_remove_incl; eauto.
Qed.

Lemma lru_In_firstn {A} (x : A) n (l : list A) : In x (firstn n l) -> In x l.
Proof.
  revert n. induction l as [|a l IH]; intros [|n]; simpl; try tauto.
  intros [->|Hin]; eauto.
Qed.

Lemma lru_NoDup_firstn (ks : list Fingerprint) n :
  NoDup ks -> NoDup (firstn n ks).
Proof.
  revert n. induction ks as [|a ks IH]; intros [|n] Hnd; simpl;
    try constructor.
  - inversion Hnd; subst. intros Hin. apply lru_In_firstn in Hin.
    contradiction.
  - inversion Hnd; subst. auto.
Qed.

Lemma lru_remove_length l k : List.length (LRU.remove k l) <= List.length l.
Proof.
  induction l as [|[k' v'] l IH]; simpl; auto.
  destruct (String.eqb k k'); simpl; lia.
Qed.

Lemma lru_remove_length_hit l k v :
  LRU.find k l = Some v -> S (List.length (LRU.remove k l)) <= List.length l.
Proof.
  induction l as [|[k' v'] l IH]; simpl; [discriminate|].
  destruct (String.eqb k k'); simpl.
  - intros _. pose proof (lru_remove_length l k). lia.
  - intros E. apply IH in E. lia.
Qed.

Lemma lru_size_set c k v : LRU.size (LRU.set c k v) <= LRU.max c.
Proof. unfold LRU.size, LRU.set; simpl LRU.entries. apply firstn_le_length. Qed.

Lemma lru_size_get c k : LRU.size (fst (LRU.get c k)) <= LRU.size c.
Proof.
  unfold LRU.size, LRU.get.
  destruct (LRU.find k (LRU.entries c)) eqn:E; simpl; [|lia].
  now apply lru_remove_length_hit in E.
Qed.

Lemma lru_size_apply c o :
  LRU.size c <= LRU.max c ->
  LRU.size (LRU.apply c o) <= LRU.max (LRU.apply c o).
Proof.
  intros Hc. destruct o as [k|k v]; simpl.
  - rewrite lru_max_get. pose proof (lru_size_get c k). lia.
  - exact (lru_size_set c k v).
Qed.

Lemma lru_size_run os c :
  LRU.size c <= LRU.max c ->
  LRU.size (LRU.run c os) <= LRU.max (LRU.run c os).
Proof.
  unfold LRU.run. revert c.
  induction os as [|o os IH]; intros c Hc; simpl; auto using lru_size_apply.
Qed.

Lemma lru_max_run os c : LRU.max (LRU.run c os) = LRU.max c.
Proof.
  unfold LRU.run. revert c. induction os as [|o os IH]; intros c; simpl; auto.
  rewrite IH. destruct o; simpl; auto using lru_max_get.
Qed.

Lemma lru_wf_iff c :
  LRU.wf c = true <-> NoDup (LRU.keys c) /\ LRU.size c <= LRU.max c.
Proof.
  unfold LRU.wf. rewrite andb_true_iff, lru_distinct_NoDup, Nat.leb_le. tauto.
Qed.

Lemma lru_wf_set c k v : LRU.wf c = true -> LRU.wf (LRU.set c k v) = true.
Proof.
  rewrite !lru_wf_iff. intros [Hnd Hs]. split; [|exact (lru_size_set c k v)].
  unfold LRU.keys, LRU.set; simpl LRU.entries. rewrite <- firstn_map.
  apply lru_NoDup_firstn. simpl. constructor.
  - apply lru_find_none_keys, lru_find_remove_same.
  - now apply lru_NoDup_remove.
Qed.

Lemma lru_wf_get c k : LRU.wf c = true -> LRU.wf (fst (LRU.get c k)) = true.
Proof.
  rewrite !lru_wf_iff. intros [Hnd Hs]. split.
  - unfold LRU.get. destruct (LRU.find k (LRU.entries c)) eqn:E; simpl; auto.
    unfold LRU.keys; simpl. constructor.
    + apply lru_find_none_keys, lru_find_remove_same.
    + now apply lru_NoDup_remove.
  - rewrite lru_max_get. pose proof (lru_size_get c k). lia.
Qed.

Lemma lru_keys_remove_last (old : Fingerprint) (kept : list Fingerprint) l :
  map fst l = (kept ++ [old])%list -> NoDup (map fst l) ->
  map fst (LRU.remove old l) = kept.
Proof.
  revert l. induction kept as [|a kept IH]; intros l Hk Hnd.
  - destruct l as [|[k0 v0] [|? ?]]; simpl in Hk; try discriminate.
    injection Hk as ->. simpl. now rewrite String.eqb_refl.
  - destruct l as [|[k0 v0] l]; simpl in Hk; [discriminate|].
    injection Hk as -> Hk. simpl in Hnd. inversion Hnd as [|? ? Hn Hd]; subst.
    simpl. destruct (String.eqb old a) eqn:E.
    + apply String.eqb_eq in E. subst a. exfalso. apply Hn. rewrite Hk.
      apply in_or_app. right. now left.
    + simpl. f_equal. now apply IH.
Qed.

Lemma lru_has_false c k : LRU.has c k = false <-> LRU.peek c k = None.
Proof. unfold LRU.has. destruct (LRU.peek c k); split; congruence. Qed.

Lemma lru_keys_set_fresh c k v :
  LRU.has c k = false ->
  LRU.keys (LRU.set c k v) = firstn (LRU.max c) (k :: LRU.keys c).
Proof.
  intros Hk. apply lru_has_false in Hk. unfold LRU.peek in Hk.
  unfold LRU.keys, LRU.set; simpl LRU.entries.
  rewrite lru_remove_absent by assumption. now rewrite <- firstn_map.
Qed.

Lemma lru_firstn_snoc {A} (l : list A) (x : A) :
  firstn (List.length l) (l ++ [x])%list = l.
Proof.
  rewrite firstn_app, Nat.sub_diag, firstn_all. simpl. apply app_nil_r.
Qed.

Lemma lru_snoc_find (old : Fingerprint) (w : V) rest :
  NoDup (map fst (rest ++ [(old, w)])%list) ->
  LRU.find old rest = None /\
  LRU.find old (rest ++ [(old, w)])%list = Some w /\
  LRU.remove old (rest ++ [(old, w)])%list = rest.
Proof.
  induction rest as [|[a va] rest IH]; simpl; intros Hnd.
  - now rewrite String.eqb_refl.
  - inversion Hnd as [|? ? Hn Hd]; subst.
    destruct (String.eqb old a) eqn:E.
    + apply String.eqb_eq in E. subst a. exfalso. apply Hn.
      rewrite map_app. apply in_or_app. right. now left.
    + destruct (IH Hd) as (H1 & H2 & H3). now rewrite H1, H2, H3.
Qed.

Lemma lru_find_app_none k l1 l2 :
  LRU.find k (l1 ++ l2)%list = None ->
  LRU.find k l1 = None /\ LRU.find k l2 = None.
Proof.
  induction l1 as [|[a va] l1 IH]; simpl; auto.
  destruct (String.eqb k a); [discriminate|auto].
Qed.

Lemma lru_find_app_left k l1 l2 v :
  LRU.find k l1 = Some v -> LRU.find k (l1 ++ l2)%list = Some v.
Proof.
  induction l1 as [|[a va] l1 IH]; simpl; [discriminate|].
  destruct (String.eqb k a); auto.
Qed.

Lemma lru_peek_touch_same c k v : LRU.peek (LRU.touch c k v) k = Some v.
Proof. unfold LRU.peek, LRU.touch. simpl. now rewrite String.eqb_refl. Qed.

Lemma lru_peek_touch_other c k k' v :
  k' <> k -> LRU.peek (LRU.touch c k v) k' = LRU.peek c k'.
Proof.
  intros Hne. unfold LRU.peek, LRU.touch. simpl.
  destruct (String.eqb k' k) eqn:E.
  - apply String.eqb_eq in E. contradiction.
  - apply lru_find_remove_other. congruence.
Qed.

End LRUFacts.


(** ** The stages, case by case *)

Ltac eqb_solve :=
  repeat match goal with
  | |- context [Nat.eqb ?a ?b] =>
      first [ replace (Nat.eqb a b) with true
                by (symmetry; apply Nat.eqb_eq; lia)
            | replace (Nat.eqb a b) with false
                by (symmetry; apply Nat.eqb_neq; lia) ]
  end.

Ltac heap_lookup := repeat (cbn [lookup]; eqb_solve); reflexivity.

Ltac count_calls :=
  unfold calls; simpl trace; rewrite ?filter_app, ?length_app; simpl; lia.

Section Machine.
Context `{Externals}.
Implicit Types (c : LRU.t Value) (h : list (PromiseId * PromiseState))
  (n : PromiseId) (js : list (Cont * Outcome)) (tr : list Event)
  (this : Transformer) (node : Node).

Lemma cache_get_miss c h n js tr k :
  LRU.peek c k = None ->
  cache_get k (Build_State c h n js tr) = (VUndefined, Build_State c h n js tr).
Proof.
  intros Hp. unfold cache_get. simpl. now rewrite (lru_get_miss c k Hp).
Qed.

Lemma cache_get_hit c h n js tr k v :
  LRU.peek c k = Some v ->
  cache_get k (Build_State c h n js tr)
  = (v, Build_State (LRU.touch c k v) h n js tr).
Proof.
  intros Hp. unfold cache_get. simpl. now rewrite (lru_get_hit c k v Hp).
Qed.

Lemma nodeToAST_cold this node c h n js tr a :
  LRU.peek c (cacheKey node "ast") = None ->
  load (source node) (options this) (base_dir node) = Normal a ->
  _nodeToAST this node (Build_State c h n js tr)
  = (Normal n,
     Build_State (LRU.set c (cacheKey node "ast") (VDocument a))
       ((n, Settled (Fulfilled (VDocument a))) :: h) (S n) js
       (tr ++ [ELoad (source node) (options this) (base_dir node)])).
Proof.
  intros Hp Hl. unfold _nodeToAST, bind. rewrite cache_get_miss by assumption.
  simpl. now rewrite Hl.
Qed.

Lemma nodeToAST_throw this node c h n js tr e :
  LRU.peek c (cacheKey node "ast") = None ->
  load (source node) (options this) (base_dir node) = Throw e ->
  _nodeToAST this node (Build_State c h n js tr)
  = (Throw e,
     Build_State c h n js
       (tr ++ [ELoad (source node) (options this) (base_dir node)])).
Proof.
  intros Hp Hl. unfold _nodeToAST, bind. rewrite cache_get_miss by assumption.
  simpl. now rewrite Hl.
Qed.

Lemma nodeToAST_hit this node c h n js tr a :
  LRU.peek c (cacheKey node "ast") = Some (VDocument a) ->
  _nodeToAST this node (Build_State c h n js tr)
  = (Normal n,
     Build_State (LRU.touch c (cacheKey node "ast") (VDocument a))
       ((n, Settled (Fulfilled (VDocument a))) :: h) (S n) js tr).
Proof.
  intros Hp. unfold _nodeToAST, bind.
  rewrite (cache_get_hit _ _ _ _ _ _ _ Hp). reflexivity.
Qed.

Lemma nodeToHTML_cold this node c h n js tr a :
  LRU.peek c (cacheKey node "html") = None ->
  LRU.peek c (cacheKey node "ast") = None ->
  load (source node) (options this) (base_dir node) = Normal a ->
  _nodeToHTML this node (Build_State c h n js tr)
  = (n,
     Build_State
       (LRU.set (LRU.set c (cacheKey node "ast") (VDocument a))
          (cacheKey node "html") (VPromise n))
       ((S n, Settled (Fulfilled (VDocument a))) :: (n, Pending []) :: h)
       (S (S n))
       (js ++ [(KConvert this node n, Fulfilled (VDocument a))])
       (tr ++ [ELoad (source node) (options this) (base_dir node)])).
Proof.
  intros Hh Ha Hl. unfold _nodeToHTML, bind.
  rewrite cache_get_miss by assumption. simpl.
  rewrite (nodeToAST_cold this node c _ _ _ _ a Ha Hl).
  unfold subscribe, promise_state. simpl. rewrite Nat.eqb_refl. reflexivity.
Qed.

Lemma nodeToHTML_hit this node c h n js tr p :
  LRU.peek c (cacheKey node "html") = Some (VPromise p) ->
  _nodeToHTML this node (Build_State c h n js tr)
  = (p,
     Build_State (LRU.touch c (cacheKey node "html") (VPromise p)) h n js tr).
Proof.
  intros Hp. unfold _nodeToHTML, bind.
  rewrite (cache_get_hit _ _ _ _ _ _ _ Hp). reflexivity.
Qed.

Lemma lru_peek_set_other_none c (k k' : Fingerprint) (v : Value) :
  k' <> k -> LRU.peek c k' = None -> LRU.peek (LRU.set c k v) k' = None.
Proof.
  intros Hne Hp. unfold LRU.peek, LRU.set in *. simpl LRU.entries.
  apply lru_find_firstn_none. simpl.
  destruct (String.eqb k' k) eqn:E.
  - apply String.eqb_eq in E. contradiction.
  - rewrite lru_find_remove_other; [assumption|congruence].
Qed.

Lemma cache_get_after_set c h n js tr k v :
  1 <= LRU.max c ->
  cache_get k (Build_State (LRU.set c k v) h n js tr)
  = (v, Build_State (LRU.set c k v) h n js tr).
Proof.
  intros Hm. unfold cache_get. simpl. now rewrite lru_get_set_same.
Qed.

Lemma run_done fuel st : jobs st = [] -> run fuel st = st.
Proof. intros Hj. destruct fuel; simpl; auto. unfold tick. now rewrite Hj. Qed.

Lemma calls_emit (f : Event -> bool) c h n js tr e :
  calls f (Build_State c h n js (tr ++ [e]))
  = calls f (Build_State c h n js tr) + (if f e then 1 else 0).
Proof.
  unfold calls. simpl. rewrite filter_app, length_app. simpl.
  now destruct (f e).
Qed.

Lemma cache_max_pos c : LRU.max c = cache_max -> 1 <= LRU.max c.
Proof. intros ->. unfold cache_max. lia. Qed.

Lemma nodeToHTML_after_set this node c h n js tr p :
  1 <= LRU.max c ->
  _nodeToHTML this node
    (Build_State (LRU.set c (cacheKey node "html") (VPromise p)) h n js tr)
  = (p, Build_State (LRU.set c (cacheKey node "html") (VPromise p)) h n js tr).
Proof.
  intros Hm. unfold _nodeToHTML, bind.
  now rewrite cache_get_after_set by assumption.
Qed.

Lemma run_step fuel c h n k o js tr :
  run (S fuel) (Build_State c h n ((k, o) :: js) tr)
  = run fuel (snd (resume k o (Build_State c h n js tr))).
Proof. reflexivity. Qed.

Lemma resume_convert_ok this node p a html c h n js tr :
  convert a (options this) (base_dir node) = Normal html ->
  resume (KConvert this node p) (Fulfilled (VDocument a))
    (Build_State c h n js tr)
  = settle p (Fulfilled (VString html))
      (Build_State c h n js
         (tr ++ [EConvert a (options this) (base_dir node)])).
Proof. intros Hc. simpl. unfold bind. simpl. now rewrite Hc. Qed.

Lemma resume_convert_throw this node p a e c h n js tr :
  convert a (options this) (base_dir node) = Throw e ->
  resume (KConvert this node p) (Fulfilled (VDocument a))
    (Build_State c h n js tr)
  = settle p (Rejected e)
      (Build_State c h n js
         (tr ++ [EConvert a (options this) (base_dir node)])).
Proof. intros Hc. simpl. unfold bind. simpl. now rewrite Hc. Qed.

Lemma settle_pending p o ws c h n js tr :
  lookup p h = Some (Pending ws) ->
  settle p o (Build_State c h n js tr)
  = (tt, Build_State c ((p, Settled o) :: h) n
           (js ++ map (fun k => (k, o)) ws) tr).
Proof. intros Hl. unfold settle, promise_state. simpl. now rewrite Hl. Qed.

Lemma subscribe_pending p k ws c h n js tr :
  lookup p h = Some (Pending ws) ->
  subscribe p k (Build_State c h n js tr)
  = (tt, Build_State c ((p, Pending (ws ++ [k])) :: h) n js tr).
Proof. intros Hl. unfold subscribe, promise_state. simpl. now rewrite Hl. Qed.

Lemma subscribe_settled p k o c h n js tr :
  lookup p h = Some (Settled o) ->
  subscribe p k (Build_State c h n js tr)
  = (tt, Build_State c h n (js ++ [(k, o)]) tr).
Proof. intros Hl. unfold subscribe, promise_state. simpl. now rewrite Hl. Qed.



Lemma nodeToAST_after_set this node c h n js tr a :
  1 <= LRU.max c ->
  _nodeToAST this node
    (Build_State (LRU.set c (cacheKey node "ast") (VDocument a)) h n js tr)
  = (Normal n,
     Build_State (LRU.set c (cacheKey node "ast") (VDocument a))
       ((n, Settled (Fulfilled (VDocument a))) :: h) (S n) js tr).
Proof.
  intros Hm. unfold _nodeToAST, bind.
  now rewrite cache_get_after_set by assumption.
Qed.

Lemma nodeToAST_cached this node c h n js tr k a :
  cacheKey node "ast" = k -> 1 <= LRU.max c ->
  _nodeToAST this node (Build_State (LRU.set c k (VDocument a)) h n js tr)
  = (Normal n,
     Build_State (LRU.set c k (VDocument a))
       ((n, Settled (Fulfilled (VDocument a))) :: h) (S n) js tr).
Proof. intros <-. apply nodeToAST_after_set. Qed.

Lemma nodeToHTML_cached this node c h n js tr k p :
  cacheKey node "html" = k -> 1 <= LRU.max c ->
  _nodeToHTML this node (Build_State (LRU.set c k (VPromise p)) h n js tr)
  = (p, Build_State (LRU.set c k (VPromise p)) h n js tr).
Proof. intros <-. apply nodeToHTML_after_set. Qed.

Lemma or_one_truthy x : truthy (VNumber (or_one x)) = true.
Proof.
  unfold or_one. destruct (truthy (VNumber x)) eqn:E; [assumption|reflexivity].
Qed.

Lemma headings_resolve_cold this node d s c h n js tr a :
  LRU.peek c (cacheKey node "headings") = None ->
  LRU.peek c (cacheKey node "ast") = None ->
  load (source node) (options this) (base_dir node) = Normal a ->
  headings_resolve this node d s (Build_State c h n js tr)
  = (n,
     Build_State (LRU.set c (cacheKey node "ast") (VDocument a))
       ((S n, Settled (Fulfilled (VDocument a))) :: (n, Pending []) :: h)
       (S (S n))
       (js ++ [(KHeadings node n, Fulfilled (VDocument a))])
       (tr ++ [ELoad (source node) (options this) (base_dir node)])).
Proof.
  intros Hh Ha Hl. unfold headings_resolve, bind, new_promise.
  cbn [cache heap next jobs trace].
  rewrite cache_get_miss by assumption. cbn [truthy].
  rewrite (nodeToAST_cold this node c _ _ _ _ a Ha Hl).
  rewrite (subscribe_settled _ _ (Fulfilled (VDocument a))) by heap_lookup.
  reflexivity.
Qed.

Lemma headings_resolve_parsed this node d s c h n js tr a :
  1 <= LRU.max c ->
  LRU.peek (LRU.set c (cacheKey node "ast") (VDocument a))
    (cacheKey node "headings") = None ->
  headings_resolve this node d s
    (Build_State (LRU.set c (cacheKey node "ast") (VDocument a)) h n js tr)
  = (n,
     Build_State (LRU.set c (cacheKey node "ast") (VDocument a))
       ((S n, Settled (Fulfilled (VDocument a))) :: (n, Pending []) :: h)
       (S (S n))
       (js ++ [(KHeadings node n, Fulfilled (VDocument a))]) tr).
Proof.
  intros Hm Hh. unfold headings_resolve, bind, new_promise.
  cbn [cache heap next jobs trace].
  rewrite cache_get_miss by assumption. cbn [truthy].
  rewrite nodeToAST_after_set by assumption.
  rewrite (subscribe_settled _ _ (Fulfilled (VDocument a))) by heap_lookup.
  reflexivity.
Qed.

Lemma headings_resolve_cached this node d s c h n js tr hs :
  1 <= LRU.max c ->
  headings_resolve this node d s
    (Build_State (LRU.set c (cacheKey node "headings") (VArray hs)) h n js tr)
  = (n,
     Build_State (LRU.set c (cacheKey node "headings") (VArray hs))
       ((n, Settled (Fulfilled (VArray hs))) :: (n, Pending []) :: h)
       (S n) js tr).
Proof.
  intros Hm. unfold headings_resolve, bind, new_promise.
  cbn [cache heap next jobs trace].
  rewrite cache_get_after_set by assumption. cbn [truthy resolve].
  rewrite (settle_pending _ _ []) by heap_lookup.
  cbn [map]. now rewrite app_nil_r.
Qed.

Lemma resume_headings node r a c h n js tr :
  resume (KHeadings node r) (Fulfilled (VDocument a)) (Build_State c h n js tr)
  = settle r (Fulfilled (VArray (collect_headings a)))
      (Build_State
         (LRU.set c (cacheKey node "headings") (VArray (collect_headings a)))
         h n js (tr ++ [EGetRefs a])).
Proof. reflexivity. Qed.

Lemma timeToRead_resolve_cold this node speed c h n js tr a :
  LRU.peek c (cacheKey node "timeToRead") = None ->
  LRU.peek c (cacheKey node "html") = None ->
  LRU.peek c (cacheKey node "ast") = None ->
  load (source node) (options this) (base_dir node) = Normal a ->
  timeToRead_resolve this node speed (Build_State c h n js tr)
  = (n,
     Build_State
       (LRU.set (LRU.set c (cacheKey node "ast") (VDocument a))
          (cacheKey node "html") (VPromise (S n)))
       ((S n, Pending [KTimeToRead node speed n])
        :: (S (S n), Settled (Fulfilled (VDocument a)))
        :: (S n, Pending []) :: (n, Pending []) :: h)
       (S (S (S n)))
       (js ++ [(KConvert this node (S n), Fulfilled (VDocument a))])
       (tr ++ [ELoad (source node) (options this) (base_dir node)])).
Proof.
  intros Ht Hh Ha Hl. unfold timeToRead_resolve, bind, new_promise.
  cbn [cache heap next jobs trace].
  rewrite cache_get_miss by assumption. cbn [truthy].
  rewrite (nodeToHTML_cold this node c _ _ _ _ a Hh Ha Hl).
  rewrite (subscribe_pending _ _ []) by heap_lookup.
  reflexivity.
Qed.

Lemma timeToRead_resolve_rendering this node speed c h n js tr p ws :
  1 <= LRU.max c ->
  LRU.peek (LRU.set c (cacheKey node "html") (VPromise p))
    (cacheKey node "timeToRead") = None ->
  lookup p h = Some (Pending ws) -> p < n ->
  timeToRead_resolve this node speed
    (Build_State (LRU.set c (cacheKey node "html") (VPromise p)) h n js tr)
  = (n,
     Build_State (LRU.set c (cacheKey node "html") (VPromise p))
       ((p, Pending (ws ++ [KTimeToRead node speed n]))
        :: (n, Pending []) :: h)
       (S n) js tr).
Proof.
  intros Hm Ht Hl Hlt. unfold timeToRead_resolve, bind, new_promise.
  cbn [cache heap next jobs trace].
  rewrite cache_get_miss by assumption. cbn [truthy].
  rewrite nodeToHTML_after_set by assumption.
  rewrite (subscribe_pending _ _ ws); [reflexivity|].
  cbn [lookup]. eqb_solve. assumption.
Qed.

Lemma timeToRead_resolve_cached this node speed c h n js tr x :
  1 <= LRU.max c ->
  timeToRead_resolve this node speed
    (Build_State
       (LRU.set c (cacheKey node "timeToRead") (VNumber (or_one x))) h n js tr)
  = (n,
     Build_State
       (LRU.set c (cacheKey node "timeToRead") (VNumber (or_one x)))
       ((n, Settled (Fulfilled (VNumber (or_one x)))) :: (n, Pending []) :: h)
       (S n) js tr).
Proof.
  intros Hm. unfold timeToRead_resolve, bind, new_promise.
  cbn [cache heap next jobs trace].
  rewrite cache_get_after_set by assumption. rewrite or_one_truthy.
  cbn [resolve]. rewrite (settle_pending _ _ []) by heap_lookup.
  cbn [map]. now rewrite app_nil_r.
Qed.

Lemma resume_timeToRead node speed r html c h n js tr :
  resume (KTimeToRead node speed r) (Fulfilled (VString html))
    (Build_State c h n js tr)
  = settle r
      (Fulfilled
         (VNumber
            (or_one (Math_round_div (List.length (words (sanitizeHTML html)))
                       speed))))
      (Build_State
         (LRU.set c (cacheKey node "timeToRead")
            (VNumber
               (or_one
                  (Math_round_div (List.length (words (sanitizeHTML html)))
                     speed))))
         h n js
         ((tr ++ [ESanitize html]) ++ [EWords (sanitizeHTML html)])).
Proof. reflexivity. Qed.

(** Two concurrent [headings] requests both miss and both enumerate. *)
Lemma headings_concurrent this node st fuel a d1 s1 d2 s2 :
  idle st ->
  LRU.peek (cache st) (cacheKey node "headings") = None ->
  LRU.peek (cache st) (cacheKey node "ast") = None ->
  cacheKey node "headings" <> cacheKey node "ast" ->
  load (source node) (options this) (base_dir node) = Normal a ->
  2 <= fuel ->
  let r1 := headings_resolve this node d1 s1 st in
  let r2 := headings_resolve this node d2 s2 (snd r1) in
  let st' := run fuel (snd r2) in
  LRU.peek (cache (snd r1)) (cacheKey node "headings") = None
  /\ calls is_load st' = calls is_load st + 1
  /\ calls is_getRefs st' = calls is_getRefs st + 2
  /\ jobs st' = []
  /\ outcome st' (fst r1) = Some (Fulfilled (VArray (collect_headings a)))
  /\ outcome st' (fst r2) = Some (Fulfilled (VArray (collect_headings a))).
Proof.
  destruct st as [c h n js tr]. intros [Hmax Hjobs] Hh Ha Hne Hl Hfuel.
  simpl in Hmax, Hjobs, Hh, Ha. subst js.
  pose proof (cache_max_pos c Hmax) as Hpos.
  assert (Hh' : LRU.peek (LRU.set c (cacheKey node "ast") (VDocument a))
                  (cacheKey node "headings") = None)
    by now apply lru_peek_set_other_none.
  intros r1 r2 st'. subst st' r2 r1.
  rewrite (headings_resolve_cold this node d1 s1 c h n [] tr a Hh Ha Hl).
  cbn [fst snd app].
  rewrite (headings_resolve_parsed this node d2 s2 c _ _ _ _ a Hpos Hh').
  cbn [fst snd app].
  destruct fuel as [|[|fuel]]; try lia.
  rewrite run_step, resume_headings.
  rewrite (settle_pending _ _ []) by heap_lookup. cbn [snd map app].
  rewrite run_step, resume_headings.
  rewrite (settle_pending _ _ []) by heap_lookup. cbn [snd map app].
  rewrite run_done by reflexivity.
  unfold outcome, promise_state. cbn [heap cache jobs].
  repeat split.
  - assumption.
  - count_calls.
  - count_calls.
  - heap_lookup.
  - heap_lookup.
Qed.

(** Two concurrent [timeToRead] requests both miss and both count. *)
Lemma timeToRead_concurrent this node st fuel a html speed1 speed2 :
  idle st ->
  LRU.peek (cache st) (cacheKey node "timeToRead") = None ->
  LRU.peek (cache st) (cacheKey node "html") = None ->
  LRU.peek (cache st) (cacheKey node "ast") = None ->
  cacheKey node "timeToRead" <> cacheKey node "ast" ->
  cacheKey node "timeToRead" <> cacheKey node "html" ->
  load (source node) (options this) (base_dir node) = Normal a ->
  convert a (options this) (base_dir node) = Normal html ->
  3 <= fuel ->
  let count := List.length (words (sanitizeHTML html)) in
  let r1 := timeToRead_resolve this node speed1 st in
  let r2 := timeToRead_resolve this node speed2 (snd r1) in
  let st' := run fuel (snd r2) in
  LRU.peek (cache (snd r1)) (cacheKey node "timeToRead") = None
  /\ calls is_load st' = calls is_load st + 1
  /\ calls is_convert st' = calls is_convert st + 1
  /\ calls is_sanitize st' = calls is_sanitize st + 2
  /\ jobs st' = []
  /\ outcome st' (fst r1)
     = Some (Fulfilled (VNumber (or_one (Math_round_div count speed1))))
  /\ outcome st' (fst r2)
     = Some (Fulfilled (VNumber (or_one (Math_round_div count speed2)))).
Proof.
  destruct st as [c h n js tr].
  intros [Hmax Hjobs] Ht Hh Ha Hne1 Hne2 Hl Hc Hfuel.
  simpl in Hmax, Hjobs, Ht, Hh, Ha. subst js.
  pose proof (cache_max_pos c Hmax) as Hpos.
  assert (Ht' : LRU.peek
                  (LRU.set (LRU.set c (cacheKey node "ast") (VDocument a))
                     (cacheKey node "html") (VPromise (S n)))
                  (cacheKey node "timeToRead") = None)
    by now repeat apply lru_peek_set_other_none.
  intros count r1 r2 st'. subst st' r2 r1 count.
  rewrite (timeToRead_resolve_cold this node speed1 c h n [] tr a Ht Hh Ha Hl).
  cbn [fst snd app].
  rewrite (timeToRead_resolve_rendering this node speed2 _ _ _ _ _ (S n)
             [KTimeToRead node speed1 n]);
    [ | simpl; assumption | assumption | heap_lookup | lia ].
  cbn [fst snd app].
  destruct fuel as [|[|[|fuel]]]; try lia.
  rewrite run_step, (resume_convert_ok _ _ _ _ html) by assumption.
  rewrite (settle_pending _ _ [KTimeToRead node speed1 n;
                               KTimeToRead node speed2 (S (S (S n)))])
    by heap_lookup.
  cbn [snd map app].
  rewrite run_step, resume_timeToRead.
  rewrite (settle_pending _ _ []) by heap_lookup. cbn [snd map app].
  rewrite run_step, resume_timeToRead.
  rewrite (settle_pending _ _ []) by heap_lookup. cbn [snd map app].
  rewrite run_done by reflexivity.
  unfold outcome, promise_state. cbn [heap cache jobs].
  repeat split.
  - assumption.
  - count_calls.
  - count_calls.
  - count_calls.
  - heap_lookup.
  - heap_lookup.
Qed.

Lemma nodeToHTML_parse_failure this node c h n js tr e :
  LRU.peek c (cacheKey node "html") = None ->
  LRU.peek c (cacheKey node "ast") = None ->
  load (source node) (options this) (base_dir node) = Throw e ->
  _nodeToHTML this node (Build_State c h n js tr)
  = (n,
     Build_State (LRU.set c (cacheKey node "html") (VPromise n))
       ((n, Settled (Rejected e)) :: (n, Pending []) :: h) (S n) js
       (tr ++ [ELoad (source node) (options this) (base_dir node)])).
Proof.
  intros Hh Ha Hl. unfold _nodeToHTML, bind.
  rewrite cache_get_miss by assumption. cbn [truthy new_promise].
  cbn [cache heap next jobs trace].
  rewrite (nodeToAST_throw this node c _ _ _ _ e Ha Hl).
  rewrite (settle_pending _ _ []) by heap_lookup.
  cbn [map]. now rewrite app_nil_r.
Qed.

Lemma headings_parse_failure this node d s c h n js tr e :
  LRU.peek c (cacheKey node "headings") = None ->
  LRU.peek c (cacheKey node "ast") = None ->
  load (source node) (options this) (base_dir node) = Throw e ->
  headings_resolve this node d s (Build_State c h n js tr)
  = (n,
     Build_State c ((n, Settled (Rejected e)) :: (n, Pending []) :: h) (S n) js
       (tr ++ [ELoad (source node) (options this) (base_dir node)])).
Proof.
  intros Hh Ha Hl. unfold headings_resolve, bind, new_promise.
  cbn [cache heap next jobs trace].
  rewrite cache_get_miss by assumption. cbn [truthy].
  rewrite (nodeToAST_throw this node c _ _ _ _ e Ha Hl).
  rewrite (settle_pending _ _ []) by heap_lookup.
  cbn [map]. now rewrite app_nil_r.
Qed.

(** [Math.round(count / speed) || 1] for a speed that is not positive. *)
Lemma round_nonpositive_speed (count : nat) (speed : Z) :
  (speed <= 0)%Z ->
  (speed = 0%Z ->
   or_one (Math_round_div count speed)
   = if Nat.eqb count 0 then NInt 1 else NInfinity)
  /\ ((speed < 0)%Z ->
      exists z,
        or_one (Math_round_div count speed) = NInt z
        /\ (z = 1%Z <-> (2 * Z.of_nat count <= - speed)%Z)
        /\ (z <> 1%Z -> (z <= -1)%Z /\ (- Z.of_nat count <= z)%Z)).
Proof.
  intros Hs. split.
  - intros ->. unfold Math_round_div, or_one. cbn [Z.eqb].
    now destruct (Nat.eqb count 0).
  - intros Hneg. unfold Math_round_div, or_one.
    replace (Z.eqb speed 0) with false by (symmetry; apply Z.eqb_neq; lia).
    cbn [truthy].
    set (q := ((2 * Z.of_nat count + speed) / (2 * speed))%Z).
    assert (Hq : (2 * speed * q >= 2 * Z.of_nat count + speed
                  /\ 2 * speed * q < 2 * Z.of_nat count + speed - 2 * speed)%Z).
    { pose proof (Z.div_mod (2 * Z.of_nat count + speed) (2 * speed)
                    ltac:(lia)) as Hdm.
      pose proof (Z.mod_neg_bound (2 * Z.of_nat count + speed) (2 * speed)
                    ltac:(lia)) as Hb.
      fold q in Hdm. lia. }
    destruct (Z.eqb_spec q 0) as [E|E]; cbn [negb].
    + exists 1%Z. split; [reflexivity|]. split; [|congruence].
      split; [intros _; rewrite E in Hq; lia|reflexivity].
    + exists q. split; [reflexivity|].
      assert (q <= 0)%Z by nia.
      split; [|intros _; split; [lia|nia]].
      split; [lia|]. intros Hc. exfalso. apply E. nia.
Qed.

Lemma round_positive_speed count speed :
  (0 < speed)%Z ->
  or_one (Math_round_div count speed)
  = NInt (Z.max 1 ((2 * Z.of_nat count + speed) / (2 * speed))).
Proof.
  intros Hs. unfold Math_round_div, or_one.
  replace (Z.eqb speed 0) with false by (symmetry; apply Z.eqb_neq; lia).
  cbn [truthy].
  assert (0 <= (2 * Z.of_nat count + speed) / (2 * speed))%Z
    by (apply Z.div_pos; lia).
  destruct (Z.eqb_spec ((2 * Z.of_nat count + speed) / (2 * speed)) 0) as [E|E];
    cbn [negb]; f_equal; lia.
Qed.

Lemma round_nearest count speed :
  (0 < speed)%Z ->
  let rounded := ((2 * count + speed) / (2 * speed))%Z in
  (2 * count - speed < 2 * speed * rounded <= 2 * count + speed)%Z.
Proof.
  intros Hs rounded. subst rounded.
  pose proof (Z.mul_div_le (2 * count + speed) (2 * speed)).
  pose proof (Z.mul_succ_div_gt (2 * count + speed) (2 * speed)).
  lia.
Qed.

Lemma timeToRead_sequential this node st fuel a html speed1 speed2 :
  idle st ->
  LRU.peek (cache st) (cacheKey node "timeToRead") = None ->
  LRU.peek (cache st) (cacheKey node "html") = None ->
  LRU.peek (cache st) (cacheKey node "ast") = None ->
  load (source node) (options this) (base_dir node) = Normal a ->
  convert a (options this) (base_dir node) = Normal html ->
  2 <= fuel ->
  let first :=
    VNumber (or_one (Math_round_div (List.length (words (sanitizeHTML html)))
                       speed1)) in
  let r1 := timeToRead_resolve this node speed1 st in
  let st1 := run fuel (snd r1) in
  let r2 := timeToRead_resolve this node speed2 st1 in
  jobs st1 = []
  /\ trace st1
     = trace st
       ++ [ELoad (source node) (options this) (base_dir node);
           EConvert a (options this) (base_dir node);
           ESanitize html; EWords (sanitizeHTML html)]
  /\ outcome st1 (fst r1) = Some (Fulfilled first)
  /\ LRU.peek (cache st1) (cacheKey node "timeToRead") = Some first
  /\ outcome (snd r2) (fst r2) = Some (Fulfilled first)
  /\ trace (snd r2) = trace st1
  /\ jobs (snd r2) = [].
Proof.
  destruct st as [c h n js tr].
  intros [Hmax Hjobs] Ht Hh Ha Hl Hc Hfuel.
  simpl in Hmax, Hjobs, Ht, Hh, Ha. subst js.
  pose proof (cache_max_pos c Hmax) as Hpos.
  intros first r1 st1 r2. subst r2 st1 r1 first.
  rewrite (timeToRead_resolve_cold this node speed1 c h n [] tr a Ht Hh Ha Hl).
  cbn [fst snd app].
  destruct fuel as [|[|fuel]]; try lia.
  rewrite run_step, (resume_convert_ok _ _ _ _ html) by assumption.
  rewrite (settle_pending _ _ [KTimeToRead node speed1 n]) by heap_lookup.
  cbn [snd map app].
  rewrite run_step, resume_timeToRead.
  rewrite (settle_pending _ _ []) by heap_lookup. cbn [snd map app].
  rewrite run_done by reflexivity.
  rewrite timeToRead_resolve_cached by (simpl; assumption).
  unfold outcome, promise_state. cbn [heap cache jobs trace fst snd].
  repeat split; try heap_lookup.
  - now rewrite <- !app_assoc.
  - now apply lru_peek_set_same.
Qed.

Lemma headings_sequential this node st fuel a d1 s1 d2 s2 :
  idle st ->
  LRU.peek (cache st) (cacheKey node "headings") = None ->
  LRU.peek (cache st) (cacheKey node "ast") = None ->
  load (source node) (options this) (base_dir node) = Normal a ->
  1 <= fuel ->
  let first := VArray (collect_headings a) in
  let r1 := headings_resolve this node d1 s1 st in
  let st1 := run fuel (snd r1) in
  let r2 := headings_resolve this node d2 s2 st1 in
  jobs st1 = []
  /\ trace st1
     = trace st
       ++ [ELoad (source node) (options this) (base_dir node); EGetRefs a]
  /\ outcome st1 (fst r1) = Some (Fulfilled first)
  /\ LRU.peek (cache st1) (cacheKey node "headings") = Some first
  /\ outcome (snd r2) (fst r2) = Some (Fulfilled first)
  /\ trace (snd r2) = trace st1
  /\ jobs (snd r2) = [].
Proof.
  destruct st as [c h n js tr].
  intros [Hmax Hjobs] Hh Ha Hl Hfuel.
  simpl in Hmax, Hjobs, Hh, Ha. subst js.
  pose proof (cache_max_pos c Hmax) as Hpos.
  intros first r1 st1 r2. subst r2 st1 r1 first.
  rewrite (headings_resolve_cold this node d1 s1 c h n [] tr a Hh Ha Hl).
  cbn [fst snd app].
  destruct fuel as [|fuel]; try lia.
  rewrite run_step, resume_headings.
  rewrite (settle_pending _ _ []) by heap_lookup. cbn [snd map app].
  rewrite run_done by reflexivity.
  rewrite headings_resolve_cached by (simpl; assumption).
  unfold outcome, promise_state. cbn [heap cache jobs trace fst snd].
  repeat split; try heap_lookup.
  - now rewrite <- !app_assoc.
  - now apply lru_peek_set_same.
Qed.

(** [depth] and [stripTags] are destructured and never read. *)
Lemma headings_resolve_arguments_unused this node d s st :
  headings_resolve this node d s st = headings_resolve this node None true st.
Proof. reflexivity. Qed.

Lemma timeToRead_resolve_hit this node speed c h n js tr x :
  LRU.peek c (cacheKey node "timeToRead") = Some (VNumber x) ->
  truthy (VNumber x) = true ->
  timeToRead_resolve this node speed (Build_State c h n js tr)
  = (n,
     Build_State (LRU.touch c (cacheKey node "timeToRead") (VNumber x))
       ((n, Settled (Fulfilled (VNumber x))) :: (n, Pending []) :: h)
       (S n) js tr).
Proof.
  intros Hp Ht. unfold timeToRead_resolve, bind, new_promise.
  cbn [cache heap next jobs trace].
  rewrite (cache_get_hit _ _ _ _ _ _ _ Hp). rewrite Ht.
  cbn [resolve]. rewrite (settle_pending _ _ []) by heap_lookup.
  cbn [map]. now rewrite app_nil_r.
Qed.

Lemma headings_resolve_hit this node d s c h n js tr hs :
  LRU.peek c (cacheKey node "headings") = Some (VArray hs) ->
  headings_resolve this node d s (Build_State c h n js tr)
  = (n,
     Build_State (LRU.touch c (cacheKey node "headings") (VArray hs))
       ((n, Settled (Fulfilled (VArray hs))) :: (n, Pending []) :: h)
       (S n) js tr).
Proof.
  intros Hp. unfold headings_resolve, bind, new_promise.
  cbn [cache heap next jobs trace].
  rewrite (cache_get_hit _ _ _ _ _ _ _ Hp). cbn [truthy resolve].
  rewrite (settle_pending _ _ []) by heap_lookup.
  cbn [map]. now rewrite app_nil_r.
Qed.

(** A stored view is returned as it is, whatever the arguments. *)
Lemma views_hit this node st :
  (forall speed x,
     LRU.peek (cache st) (cacheKey node "timeToRead") = Some (VNumber x) ->
     truthy (VNumber x) = true ->
     let r := timeToRead_resolve this node speed st in
     outcome (snd r) (fst r) = Some (Fulfilled (VNumber x))
     /\ trace (snd r) = trace st /\ jobs (snd r) = jobs st)
  /\ (forall d s hs,
        LRU.peek (cache st) (cacheKey node "headings") = Some (VArray hs) ->
        let r := headings_resolve this node d s st in
        outcome (snd r) (fst r) = Some (Fulfilled (VArray hs))
        /\ trace (snd r) = trace st /\ jobs (snd r) = jobs st).
Proof.
  destruct st as [c h n js tr]. cbn [cache trace jobs]. split.
  - intros speed x Hp Ht. cbv zeta.
    rewrite (timeToRead_resolve_hit this node speed c h n js tr x Hp Ht).
    unfold outcome, promise_state. cbn [fst snd heap trace jobs].
    repeat split. heap_lookup.
  - intros d s hs Hp. cbv zeta.
    rewrite (headings_resolve_hit this node d s c h n js tr hs Hp).
    unfold outcome, promise_state. cbn [fst snd heap trace jobs].
    repeat split. heap_lookup.
Qed.

(** The part of [timeToRead] after its [await], from any state. *)
Lemma timeToRead_after_await node speed r html st :
  1 <= LRU.max (cache st) ->
  promise_state st r = Pending [] ->
  let count := List.length (words (sanitizeHTML html)) in
  let st' := snd (resume (KTimeToRead node speed r) (Fulfilled (VString html))
                    st) in
  trace st' = trace st ++ [ESanitize html; EWords (sanitizeHTML html)]
  /\ LRU.peek (cache st') (cacheKey node "timeToRead")
     = Some (VNumber (or_one (Math_round_div count speed)))
  /\ outcome st' r
     = Some (Fulfilled (VNumber (or_one (Math_round_div count speed)))).
Proof.
  destruct st as [c h n js tr]. cbn [cache]. intros Hm Hr. cbv zeta.
  rewrite resume_timeToRead.
  unfold settle. unfold promise_state in *. cbn [heap] in *.
  destruct (lookup r h) as [[ws|o]|] eqn:El; try discriminate;
    try (injection Hr as Hr; subst ws);
    unfold bind, update, enqueue, outcome, promise_state;
    cbn [fst snd cache heap next jobs trace lookup];
    rewrite Nat.eqb_refl;
    (repeat split; [now rewrite <- app_assoc|now apply lru_peek_set_same]).
Qed.

Lemma nodeToHTML_parsed this node c h n js tr a :
  LRU.peek c (cacheKey node "html") = None ->
  LRU.peek c (cacheKey node "ast") = Some (VDocument a) ->
  _nodeToHTML this node (Build_State c h n js tr)
  = (n,
     Build_State
       (LRU.set (LRU.touch c (cacheKey node "ast") (VDocument a))
          (cacheKey node "html") (VPromise n))
       ((S n, Settled (Fulfilled (VDocument a))) :: (n, Pending []) :: h)
       (S (S n))
       (js ++ [(KConvert this node n, Fulfilled (VDocument a))]) tr).
Proof.
  intros Hh Ha. unfold _nodeToHTML, bind.
  rewrite cache_get_miss by assumption. cbn [truthy new_promise].
  cbn [cache heap next jobs trace].
  rewrite (nodeToAST_hit this node c _ _ _ _ a Ha).
  rewrite (subscribe_settled _ _ (Fulfilled (VDocument a))) by heap_lookup.
  reflexivity.
Qed.

Lemma headings_resolve_warm this node d s c h n js tr a :
  LRU.peek c (cacheKey node "headings") = None ->
  LRU.peek c (cacheKey node "ast") = Some (VDocument a) ->
  headings_resolve this node d s (Build_State c h n js tr)
  = (n,
     Build_State (LRU.touch c (cacheKey node "ast") (VDocument a))
       ((S n, Settled (Fulfilled (VDocument a))) :: (n, Pending []) :: h)
       (S (S n))
       (js ++ [(KHeadings node n, Fulfilled (VDocument a))]) tr).
Proof.
  intros Hh Ha. unfold headings_resolve, bind, new_promise.
  cbn [cache heap next jobs trace].
  rewrite cache_get_miss by assumption. cbn [truthy].
  rewrite (nodeToAST_hit this node c _ _ _ _ a Ha).
  rewrite (subscribe_settled _ _ (Fulfilled (VDocument a))) by heap_lookup.
  reflexivity.
Qed.

Lemma timeToRead_resolve_warm this node speed c h n js tr p o :
  LRU.peek c (cacheKey node "timeToRead") = None ->
  LRU.peek c (cacheKey node "html") = Some (VPromise p) ->
  lookup p h = Some (Settled o) -> p < n ->
  timeToRead_resolve this node speed (Build_State c h n js tr)
  = (n,
     Build_State (LRU.touch c (cacheKey node "html") (VPromise p))
       ((n, Pending []) :: h) (S n)
       (js ++ [(KTimeToRead node speed n, o)]) tr).
Proof.
  intros Ht Hh Hl Hlt. unfold timeToRead_resolve, bind, new_promise.
  cbn [cache heap next jobs trace].
  rewrite cache_get_miss by assumption. cbn [truthy].
  rewrite (nodeToHTML_hit this node c _ _ _ _ p Hh).
  rewrite (subscribe_settled _ _ o); [reflexivity|].
  cbn [lookup]. eqb_solve. assumption.
Qed.

(** What [_nodeToAST] can do to a state: at most one call of the parser. *)
Lemma nodeToAST_effect this node c h n js tr :
  exists c' tr',
    LRU.max c' = LRU.max c
    /\ (tr' = tr
        \/ tr' = tr ++ [ELoad (source node) (options this) (base_dir node)])
    /\ ((exists e,
           _nodeToAST this node (Build_State c h n js tr)
           = (Throw e, Build_State c' h n js tr'))
        \/ (exists q,
           _nodeToAST this node (Build_State c h n js tr)
           = (Normal q, Build_State c' h n js tr'))
        \/ (exists v,
           _nodeToAST this node (Build_State c h n js tr)
           = (Normal n,
              Build_State c' ((n, Settled (Fulfilled v)) :: h) (S n) js tr'))).
Proof.
  unfold _nodeToAST, bind, cache_get. cbn [cache heap next jobs trace].
  pose proof (lru_max_get c (cacheKey node "ast")) as Hm.
  destruct (LRU.get c (cacheKey node "ast")) as [c0 r]. cbn [fst] in Hm.
  generalize (match r with Some v => v | None => VUndefined end).
  intros cached. destruct (truthy cached) eqn:Et.
  - exists c0, tr. split; [assumption|]. split; [now left|].
    destruct cached as [|x|x|x|x|q];
      cbn [Promise_resolve ret new_promise];
      cbn [cache heap next jobs trace];
      try (right; right; eexists; reflexivity).
    right. left. exists q. reflexivity.
  - cbn [emit]. cbn [cache heap next jobs trace].
    destruct (load (source node) (options this) (base_dir node)) as [a|e].
    + exists (LRU.set c0 (cacheKey node "ast") (VDocument a)).
      eexists. split; [exact Hm|]. split; [now right|].
      right. right. exists (VDocument a). reflexivity.
    + exists c0. eexists. split; [assumption|]. split; [now right|].
      left. exists e. reflexivity.
Qed.

(** A miss of [_nodeToHTML], whatever is stored under "ast": the promise
    is the last thing stored, at most one call of the parser is made and at
    most one microtask is left, which continues this very call. *)
Lemma nodeToHTML_miss_effect this node c h n tr :
  truthy (fst (cache_get (cacheKey node "html") (Build_State c h n [] tr)))
  = false ->
  exists c' h' n' js' tr',
    _nodeToHTML this node (Build_State c h n [] tr)
    = (n, Build_State (LRU.set c' (cacheKey node "html") (VPromise n))
            h' n' js' tr')
    /\ LRU.max c' = LRU.max c
    /\ (tr' = tr
        \/ tr' = tr ++ [ELoad (source node) (options this) (base_dir node)])
    /\ (js' = []
        \/ exists o, js' = [(KConvert this node n, o)]
                     /\ lookup n h' = Some (Pending [])).
Proof.
  unfold _nodeToHTML, bind, cache_get. cbn [cache heap next jobs trace].
  pose proof (lru_max_get c (cacheKey node "html")) as Hm.
  destruct (LRU.get c (cacheKey node "html")) as [c0 r]. cbn [fst] in Hm.
  cbn [fst]. intros Et. rewrite Et. cbn [new_promise].
  cbn [cache heap next jobs trace].
  destruct (nodeToAST_effect this node c0 ((n, Pending []) :: h) (S n) [] tr)
    as (c1 & tr1 & Hm1 & Htr & [[e He]|[[q Hq]|[v Hv]]]).
  - rewrite He. rewrite (settle_pending _ _ []) by heap_lookup.
    cbn [map app cache_set Promise_resolve ret].
    cbn [cache heap next jobs trace].
    do 5 eexists. split; [reflexivity|]. split; [congruence|].
    split; [exact Htr|]. now left.
  - rewrite Hq. unfold subscribe, promise_state.
    cbn [cache heap next jobs trace].
    destruct (lookup q ((n, Pending []) :: h)) as [[ws|o]|] eqn:El;
      cbn [update enqueue cache_set Promise_resolve ret app];
      cbn [cache heap next jobs trace];
      do 5 eexists; (split; [reflexivity|]); (split; [congruence|]);
      (split; [exact Htr|]).
    + now left.
    + right. exists o. split; [reflexivity|]. heap_lookup.
    + now left.
  - rewrite Hv. rewrite (subscribe_settled _ _ (Fulfilled v)) by heap_lookup.
    cbn [app cache_set Promise_resolve ret].
    cbn [cache heap next jobs trace].
    do 5 eexists. split; [reflexivity|]. split; [congruence|].
    split; [exact Htr|].
    right. exists (Fulfilled v). split; [reflexivity|]. heap_lookup.
Qed.

(** The rest of the async function of lines 222-226: at most one call of
    the converter, and nothing is stored. *)
Lemma resume_convert_effect this node p o c h n tr :
  lookup p h = Some (Pending []) ->
  exists h' tr',
    snd (resume (KConvert this node p) o (Build_State c h n [] tr))
    = Build_State c h' n [] tr'
    /\ (tr' = tr
        \/ exists a, tr' = tr ++ [EConvert a (options this) (base_dir node)]).
Proof.
  intros Hl. destruct o as [v|e].
  - destruct v; cbn [resume];
      try (rewrite (settle_pending _ _ []) by assumption; cbn [snd map app];
           do 2 eexists; split; [reflexivity|now left]).
    unfold bind, emit. cbn [cache heap next jobs trace].
    destruct (convert a (options this) (base_dir node)); cbn [resolve];
      rewrite (settle_pending _ _ []) by assumption; cbn [snd map app];
      do 2 eexists; (split; [reflexivity|right; now exists a]).
  - cbn [resume]. rewrite (settle_pending _ _ []) by assumption.
    cbn [snd map app]. do 2 eexists. split; [reflexivity|now left].
Qed.

Lemma calls_app (f : Event -> bool) c h n js tr e :
  calls f (Build_State c h n js (tr ++ [e]))
  <= calls f (Build_State c h n js tr) + 1.
Proof. rewrite calls_emit. destruct (f e); lia. Qed.

(** Single flight of the render stage, from any state between requests and
    whatever the store holds under "ast". *)
Lemma render_single_flight this node st fuel :
  idle st ->
  truthy (fst (cache_get (cacheKey node "html") st)) = false ->
  let r1 := _nodeToHTML this node st in
  let r2 := _nodeToHTML this node (snd r1) in
  let st' := run fuel (snd r2) in
  LRU.peek (cache (snd r1)) (cacheKey node "html") = Some (VPromise (fst r1))
  /\ r2 = r1
  /\ calls is_load st' <= calls is_load st + 1
  /\ calls is_convert st' <= calls is_convert st + 1
  /\ LRU.peek (cache st') (cacheKey node "html") = Some (VPromise (fst r1))
  /\ (1 <= fuel ->
      jobs st' = [] /\ _nodeToHTML this node st' = (fst r1, st')).
Proof.
  destruct st as [c h n js tr]. intros [Hmax Hjobs] Et.
  simpl in Hmax, Hjobs. subst js.
  pose proof (cache_max_pos c Hmax) as Hpos.
  intros r1 r2 st'. subst st' r2 r1.
  destruct (nodeToHTML_miss_effect this node c h n tr Et)
    as (c' & h' & n' & js' & tr' & Heq & Hm & Htr & Hjs).
  rewrite Heq. cbn [fst snd].
  rewrite nodeToHTML_after_set by lia. cbn [fst snd cache].
  assert (Hl0 : calls is_load (Build_State c h n [] tr')
                <= calls is_load (Build_State c h n [] tr) + 1).
  { destruct Htr as [->| ->]; [lia|apply calls_app]. }
  assert (Hc0 : calls is_convert (Build_State c h n [] tr')
                = calls is_convert (Build_State c h n [] tr)).
  { destruct Htr as [->| ->]; [reflexivity|]. now rewrite calls_emit. }
  assert (Hrun : exists h2 tr2,
             run fuel
               (Build_State (LRU.set c' (cacheKey node "html") (VPromise n))
                  h' n' js' tr')
             = Build_State (LRU.set c' (cacheKey node "html") (VPromise n))
                 h2 n' (match fuel with O => js' | S _ => [] end) tr2
             /\ (tr2 = tr'
                 \/ exists a,
                      tr2 = tr' ++ [EConvert a (options this)
                                      (base_dir node)])).
  { destruct Hjs as [->|[o [-> Hl]]].
    - rewrite run_done by reflexivity. do 2 eexists.
      split; [now destruct fuel|now left].
    - destruct fuel as [|fuel].
      + simpl. do 2 eexists. split; [reflexivity|now left].
      + rewrite run_step.
        destruct (resume_convert_effect this node n o
                    (LRU.set c' (cacheKey node "html") (VPromise n))
                    h' n' tr' Hl) as (h2 & tr2 & -> & Ht2).
        rewrite run_done by reflexivity. eauto. }
  destruct Hrun as (h2 & tr2 & -> & Ht2).
  cbn [cache jobs].
  assert (Hp : LRU.peek (LRU.set c' (cacheKey node "html") (VPromise n))
                 (cacheKey node "html") = Some (VPromise n))
    by (apply lru_peek_set_same; lia).
  repeat split; try assumption.
  - unfold calls in *. cbn [trace] in *.
    destruct Ht2 as [->|[a ->]]; [assumption|].
    rewrite filter_app, length_app. simpl. lia.
  - unfold calls in *. cbn [trace] in *.
    destruct Ht2 as [->|[a ->]]; [lia|].
    rewrite filter_app, length_app. simpl. lia.
  - destruct fuel; [lia|reflexivity].
  - destruct fuel; [lia|]. now rewrite nodeToHTML_after_set by lia.
Qed.

Lemma absent_is_miss st k :
  LRU.peek (cache st) k = None -> truthy (fst (cache_get k st)) = false.
Proof.
  destruct st as [c h n js tr]. cbn [cache]. intros Hp.
  now rewrite cache_get_miss.
Qed.

(** A render that has run to completion stays in the store, whatever its
    outcome. *)
Lemma render_stays this node st fuel :
  idle st ->
  truthy (fst (cache_get (cacheKey node "html") st)) = false ->
  1 <= fuel ->
  let r1 := _nodeToHTML this node st in
  let st1 := run fuel (snd r1) in
  let r2 := _nodeToHTML this node st1 in
  jobs st1 = []
  /\ LRU.peek (cache st1) (cacheKey node "html") = Some (VPromise (fst r1))
  /\ r2 = (fst r1, st1)
  /\ run fuel (snd r2) = st1.
Proof.
  intros Hidle Hmiss Hfuel r1 st1 r2.
  destruct (render_single_flight this node st fuel Hidle Hmiss)
    as (_ & Hsame & _ & _ & Hpeek & Hdone).
  rewrite Hsame in Hpeek, Hdone. fold r1 in Hpeek, Hdone.
  fold st1 in Hpeek, Hdone. destruct (Hdone Hfuel) as [Hjobs Hagain].
  fold r2 in Hagain. repeat split; try assumption.
  rewrite Hagain. cbn [snd]. now apply run_done.
Qed.

(** With a working converter the rendering is made by one call of it,
    after one call of the parser on a store without the document and
    without any when the document is there. *)
Lemma render_exactly_once this node st fuel a html :
  idle st ->
  LRU.peek (cache st) (cacheKey node "html") = None ->
  convert a (options this) (base_dir node) = Normal html ->
  1 <= fuel ->
  let r1 := _nodeToHTML this node st in
  let r2 := _nodeToHTML this node (snd r1) in
  let st' := run fuel (snd r2) in
  (LRU.peek (cache st) (cacheKey node "ast") = None ->
   load (source node) (options this) (base_dir node) = Normal a ->
   outcome (snd r1) (fst r1) = None
   /\ trace st'
      = trace st ++ [ELoad (source node) (options this) (base_dir node);
                     EConvert a (options this) (base_dir node)]
   /\ outcome st' (fst r2) = Some (Fulfilled (VString html)))
  /\ (LRU.peek (cache st) (cacheKey node "ast") = Some (VDocument a) ->
      outcome (snd r1) (fst r1) = None
      /\ trace st' = trace st ++ [EConvert a (options this) (base_dir node)]
      /\ outcome st' (fst r2) = Some (Fulfilled (VString html))).
Proof.
  destruct st as [c h n js tr]. intros [Hmax Hjobs] Hh Hc Hfuel.
  simpl in Hmax, Hjobs, Hh. subst js.
  pose proof (cache_max_pos c Hmax) as Hpos.
  intros r1 r2 st'. subst st' r2 r1. cbn [cache trace]. split.
  - intros Ha Hl.
    rewrite (nodeToHTML_cold this node c h n [] tr a Hh Ha Hl).
    cbn [fst snd]. rewrite nodeToHTML_after_set by (simpl; assumption).
    cbn [fst snd app].
    destruct fuel as [|fuel]; [lia|]. rewrite run_step.
    rewrite (resume_convert_ok _ _ _ _ html) by assumption.
    rewrite (settle_pending _ _ []) by heap_lookup.
    cbn [snd map app]. rewrite run_done by reflexivity.
    unfold outcome, promise_state. cbn [heap trace].
    repeat split; try heap_lookup. now rewrite <- app_assoc.
  - intros Ha.
    rewrite (nodeToHTML_parsed this node c h n [] tr a Hh Ha).
    cbn [fst snd]. rewrite nodeToHTML_after_set by (simpl; assumption).
    cbn [fst snd app].
    destruct fuel as [|fuel]; [lia|]. rewrite run_step.
    rewrite (resume_convert_ok _ _ _ _ html) by assumption.
    rewrite (settle_pending _ _ []) by heap_lookup.
    cbn [snd map app]. rewrite run_done by reflexivity.
    unfold outcome, promise_state. cbn [heap trace].
    repeat split; heap_lookup.
Qed.

(** The three ways a render fails. *)
Lemma render_rejected this node st fuel e :
  idle st ->
  LRU.peek (cache st) (cacheKey node "html") = None ->
  1 <= fuel ->
  let r1 := _nodeToHTML this node st in
  let st1 := run fuel (snd r1) in
  (LRU.peek (cache st) (cacheKey node "ast") = None ->
   load (source node) (options this) (base_dir node) = Throw e ->
   outcome st1 (fst r1) = Some (Rejected e)
   /\ trace st1
      = trace st ++ [ELoad (source node) (options this) (base_dir node)])
  /\ (forall a,
        LRU.peek (cache st) (cacheKey node "ast") = None ->
        load (source node) (options this) (base_dir node) = Normal a ->
        convert a (options this) (base_dir node) = Throw e ->
        outcome st1 (fst r1) = Some (Rejected e)
        /\ trace st1
           = trace st ++ [ELoad (source node) (options this) (base_dir node);
                          EConvert a (options this) (base_dir node)])
  /\ (forall a,
        LRU.peek (cache st) (cacheKey node "ast") = Some (VDocument a) ->
        convert a (options this) (base_dir node) = Throw e ->
        outcome st1 (fst r1) = Some (Rejected e)
        /\ trace st1
           = trace st ++ [EConvert a (options this) (base_dir node)]).
Proof.
  destruct st as [c h n js tr]. intros [Hmax Hjobs] Hh Hfuel.
  simpl in Hmax, Hjobs, Hh. subst js.
  intros r1 st1. subst st1 r1. cbn [cache trace]. split; [|split].
  - intros Ha Hl.
    rewrite (nodeToHTML_parse_failure this node c h n [] tr e Hh Ha Hl).
    cbn [fst snd]. rewrite run_done by reflexivity.
    unfold outcome, promise_state. cbn [heap trace].
    split; [heap_lookup|reflexivity].
  - intros a Ha Hl Hc.
    rewrite (nodeToHTML_cold this node c h n [] tr a Hh Ha Hl).
    cbn [fst snd app].
    destruct fuel as [|fuel]; [lia|].
    rewrite run_step, (resume_convert_throw _ _ _ _ e) by assumption.
    rewrite (settle_pending _ _ []) by heap_lookup. cbn [snd map app].
    rewrite run_done by reflexivity.
    unfold outcome, promise_state. cbn [heap trace].
    split; [heap_lookup|now rewrite <- app_assoc].
  - intros a Ha Hc.
    rewrite (nodeToHTML_parsed this node c h n [] tr a Hh Ha).
    cbn [fst snd app].
    destruct fuel as [|fuel]; [lia|].
    rewrite run_step, (resume_convert_throw _ _ _ _ e) by assumption.
    rewrite (settle_pending _ _ []) by heap_lookup. cbn [snd map app].
    rewrite run_done by reflexivity.
    unfold outcome, promise_state. cbn [heap trace].
    split; heap_lookup.
Qed.

(** A parser failure stores nothing: the next request parses again. *)
Lemma parse_failure_retry this node st fuel e d s :
  idle st ->
  LRU.peek (cache st) (cacheKey node "ast") = None ->
  load (source node) (options this) (base_dir node) = Throw e ->
  (let a1 := _nodeToAST this node st in
   let a2 := _nodeToAST this node (snd a1) in
   fst a1 = Throw e
   /\ cache (snd a1) = cache st
   /\ fst a2 = Throw e
   /\ calls is_load (snd a2) = calls is_load (snd a1) + 1)
  /\ (LRU.peek (cache st) (cacheKey node "headings") = None ->
      let v1 := headings_resolve this node d s st in
      let st1 := run fuel (snd v1) in
      let v2 := headings_resolve this node d s st1 in
      outcome st1 (fst v1) = Some (Rejected e)
      /\ cache st1 = cache st
      /\ outcome (snd v2) (fst v2) = Some (Rejected e)
      /\ calls is_load (snd v2) = calls is_load st1 + 1).
Proof.
  destruct st as [c h n js tr]. intros [Hmax Hjobs] Ha Hl.
  simpl in Hmax, Hjobs, Ha. subst js. cbn [cache]. split.
  - cbv zeta.
    rewrite (nodeToAST_throw this node c h n [] tr e Ha Hl). cbn [fst snd].
    rewrite (nodeToAST_throw this node c h n [] _ e Ha Hl). cbn [fst snd cache].
    repeat split. count_calls.
  - intros Hv. cbv zeta.
    rewrite (headings_parse_failure this node d s c h n [] tr e Hv Ha Hl).
    cbn [fst snd]. rewrite run_done by reflexivity.
    rewrite (headings_parse_failure this node d s c _ _ [] _ e Hv Ha Hl).
    cbn [fst snd cache].
    unfold outcome, promise_state. cbn [heap].
    repeat split; try heap_lookup. count_calls.
Qed.

(** Two concurrent [headings] requests on a parsed document. *)
Lemma headings_concurrent_parsed this node st fuel a d1 s1 d2 s2 :
  idle st ->
  LRU.peek (cache st) (cacheKey node "headings") = None ->
  LRU.peek (cache st) (cacheKey node "ast") = Some (VDocument a) ->
  2 <= fuel ->
  let r1 := headings_resolve this node d1 s1 st in
  let r2 := headings_resolve this node d2 s2 (snd r1) in
  let st' := run fuel (snd r2) in
  LRU.peek (cache (snd r1)) (cacheKey node "headings") = None
  /\ trace st' = trace st ++ [EGetRefs a; EGetRefs a]
  /\ jobs st' = []
  /\ outcome st' (fst r1) = Some (Fulfilled (VArray (collect_headings a)))
  /\ outcome st' (fst r2) = Some (Fulfilled (VArray (collect_headings a))).
Proof.
  destruct st as [c h n js tr]. intros [Hmax Hjobs] Hh Ha Hfuel.
  simpl in Hmax, Hjobs, Hh, Ha. subst js.
  assert (Hne : cacheKey node "headings" <> cacheKey node "ast")
    by (intros E; rewrite E in Hh; congruence).
  assert (Hh' : LRU.peek (LRU.touch c (cacheKey node "ast") (VDocument a))
                  (cacheKey node "headings") = None)
    by now rewrite lru_peek_touch_other.
  assert (Ha' : LRU.peek (LRU.touch c (cacheKey node "ast") (VDocument a))
                  (cacheKey node "ast") = Some (VDocument a))
    by apply lru_peek_touch_same.
  intros r1 r2 st'. subst st' r2 r1.
  rewrite (headings_resolve_warm this node d1 s1 c h n [] tr a Hh Ha).
  cbn [fst snd app].
  rewrite (headings_resolve_warm this node d2 s2 _ _ _ _ _ a Hh' Ha').
  cbn [fst snd app].
  destruct fuel as [|[|fuel]]; try lia.
  rewrite run_step, resume_headings.
  rewrite (settle_pending _ _ []) by heap_lookup. cbn [snd map app].
  rewrite run_step, resume_headings.
  rewrite (settle_pending _ _ []) by heap_lookup. cbn [snd map app].
  rewrite run_done by reflexivity.
  unfold outcome, promise_state. cbn [heap cache jobs trace].
  repeat split; try assumption; try heap_lookup.
  now rewrite <- app_assoc.
Qed.

(** Two concurrent [timeToRead] requests on a finished rendering. *)
Lemma timeToRead_concurrent_rendered this node st fuel p html speed1 speed2 :
  idle st ->
  LRU.peek (cache st) (cacheKey node "timeToRead") = None ->
  LRU.peek (cache st) (cacheKey node "html") = Some (VPromise p) ->
  outcome st p = Some (Fulfilled (VString html)) ->
  p < next st ->
  2 <= fuel ->
  let count := List.length (words (sanitizeHTML html)) in
  let r1 := timeToRead_resolve this node speed1 st in
  let r2 := timeToRead_resolve this node speed2 (snd r1) in
  let st' := run fuel (snd r2) in
  LRU.peek (cache (snd r1)) (cacheKey node "timeToRead") = None
  /\ trace st'
     = trace st ++ [ESanitize html; EWords (sanitizeHTML html);
                    ESanitize html; EWords (sanitizeHTML html)]
  /\ jobs st' = []
  /\ outcome st' (fst r1)
     = Some (Fulfilled (VNumber (or_one (Math_round_div count speed1))))
  /\ outcome st' (fst r2)
     = Some (Fulfilled (VNumber (or_one (Math_round_div count speed2)))).
Proof.
  destruct st as [c h n js tr]. intros [Hmax Hjobs] Ht Hh Ho Hlt Hfuel.
  simpl in Hmax, Hjobs, Ht, Hh, Hlt. subst js.
  assert (Hl : lookup p h = Some (Settled (Fulfilled (VString html)))).
  { unfold outcome, promise_state in Ho. cbn [heap] in Ho.
    destruct (lookup p h) as [[ws|o]|]; try discriminate. congruence. }
  assert (Hne : cacheKey node "timeToRead" <> cacheKey node "html")
    by (intros E; rewrite E in Ht; congruence).
  assert (Ht' : LRU.peek (LRU.touch c (cacheKey node "html") (VPromise p))
                  (cacheKey node "timeToRead") = None)
    by now rewrite lru_peek_touch_other.
  assert (Hh' : LRU.peek (LRU.touch c (cacheKey node "html") (VPromise p))
                  (cacheKey node "html") = Some (VPromise p))
    by apply lru_peek_touch_same.
  intros count r1 r2 st'. subst st' r2 r1 count.
  rewrite (timeToRead_resolve_warm this node speed1 c h n [] tr p _
             Ht Hh Hl Hlt).
  cbn [fst snd app].
  rewrite (timeToRead_resolve_warm this node speed2 _ _ _ _ _ p
             (Fulfilled (VString html)) Ht' Hh');
    [ | cbn [lookup]; eqb_solve; assumption | lia ].
  cbn [fst snd app].
  destruct fuel as [|[|fuel]]; try lia.
  rewrite run_step, resume_timeToRead.
  rewrite (settle_pending _ _ []) by heap_lookup. cbn [snd map app].
  rewrite run_step, resume_timeToRead.
  rewrite (settle_pending _ _ []) by heap_lookup. cbn [snd map app].
  rewrite run_done by reflexivity.
  unfold outcome, promise_state. cbn [heap cache jobs trace].
  repeat split; try assumption; try heap_lookup.
  now rewrite <- !app_assoc.
Qed.

Lemma Promise_resolve_outcome (v : Value) c h n tr :
  truthy v = true ->
  let r := Promise_resolve v (Build_State c h n [] tr) in
  jobs (snd r) = [] /\ trace (snd r) = tr /\ cache (snd r) = c
  /\ forall c2 tr2,
       let r2 := Promise_resolve v (Build_State c2 (heap (snd r))
                                      (next (snd r)) [] tr2) in
       outcome (snd r2) (fst r2) = outcome (snd r) (fst r)
       /\ jobs (snd r2) = [] /\ trace (snd r2) = tr2.
Proof.
  intros Ht. destruct v; try discriminate;
    cbn [Promise_resolve ret new_promise fst snd cache heap next jobs trace];
    repeat split; unfold outcome, promise_state;
    cbn [heap lookup]; now rewrite ?Nat.eqb_refl.
Qed.

Lemma nodeToHTML_hit_any this node c h n js tr v :
  LRU.peek c (cacheKey node "html") = Some v -> truthy v = true ->
  _nodeToHTML this node (Build_State c h n js tr)
  = Promise_resolve v
      (Build_State (LRU.touch c (cacheKey node "html") v) h n js tr).
Proof.
  intros Hp Ht. unfold _nodeToHTML, bind.
  rewrite (cache_get_hit _ _ _ _ _ _ _ Hp). now rewrite Ht.
Qed.

Lemma render_sequential this node st fuel a html :
  idle st ->
  LRU.peek (cache st) (cacheKey node "html") = None ->
  LRU.peek (cache st) (cacheKey node "ast") = None ->
  load (source node) (options this) (base_dir node) = Normal a ->
  convert a (options this) (base_dir node) = Normal html ->
  1 <= fuel ->
  let r1 := _nodeToHTML this node st in
  let st1 := run fuel (snd r1) in
  let r2 := _nodeToHTML this node st1 in
  trace st1
  = trace st ++ [ELoad (source node) (options this) (base_dir node);
                 EConvert a (options this) (base_dir node)]
  /\ outcome st1 (fst r1) = Some (Fulfilled (VString html))
  /\ r2 = (fst r1, st1).
Proof.
  destruct st as [c h n js tr]. intros [Hmax Hjobs] Hh Ha Hl Hc Hfuel.
  simpl in Hmax, Hjobs, Hh, Ha. subst js.
  pose proof (cache_max_pos c Hmax) as Hpos.
  intros r1 st1 r2. subst r2 st1 r1.
  rewrite (nodeToHTML_cold this node c h n [] tr a Hh Ha Hl).
  cbn [fst snd app].
  destruct fuel as [|fuel]; [lia|].
  rewrite run_step, (resume_convert_ok _ _ _ _ html) by assumption.
  rewrite (settle_pending _ _ []) by heap_lookup. cbn [snd map app].
  rewrite run_done by reflexivity.
  rewrite nodeToHTML_after_set by (simpl; assumption).
  unfold outcome, promise_state. cbn [heap cache jobs trace].
  repeat split; try heap_lookup. now rewrite <- !app_assoc.
Qed.

Lemma html_reuse_general this node st fuel :
  idle st -> 1 <= fuel ->
  let r1 := _nodeToHTML this node st in
  let st1 := run fuel (snd r1) in
  let r2 := _nodeToHTML this node st1 in
  jobs st1 = []
  /\ jobs (snd r2) = []
  /\ trace (snd r2) = trace st1
  /\ outcome (snd r2) (fst r2) = outcome st1 (fst r1).
Proof.
  destruct st as [c h n js tr]. intros [Hmax Hjobs] Hfuel.
  simpl in Hmax, Hjobs. subst js.
  pose proof (cache_max_pos c Hmax) as Hpos.
  intros r1 st1 r2. subst r2 st1 r1.
  destruct (truthy (fst (cache_get (cacheKey node "html")
                           (Build_State c h n [] tr)))) eqn:Et.
  - (* hit *)
    assert (exists v, LRU.peek c (cacheKey node "html") = Some v
                      /\ truthy v = true) as (v & Ef & Ev).
    { revert Et. unfold cache_get, LRU.get, LRU.peek.
      cbn [cache heap next jobs trace].
      destruct (LRU.find (cacheKey node "html") (LRU.entries c)) as [v|];
        cbn [fst]; [eauto|discriminate]. }
    clear Et. rewrite (nodeToHTML_hit_any this node c h n [] tr v Ef Ev).
    destruct (Promise_resolve_outcome v (LRU.touch c (cacheKey node "html") v)
                h n tr Ev) as (Hj & Htr & Hc & Hnext).
    destruct (Promise_resolve v
                (Build_State (LRU.touch c (cacheKey node "html") v) h n [] tr))
      as [p1 [c1 h1 n1 js1 tr1]] eqn:Ep.
    cbn [fst snd jobs trace cache heap next] in *. subst js1 tr1 c1.
    rewrite run_done by reflexivity.
    rewrite (nodeToHTML_hit_any this node _ h1 n1 [] tr v)
      by (try assumption; unfold LRU.peek; cbn [LRU.touch LRU.entries LRU.find];
          now rewrite String.eqb_refl).
    match goal with
    | |- context [Promise_resolve v (Build_State ?c2 h1 n1 [] tr)] =>
        destruct (Hnext c2 tr) as (Ho & Hj2 & Ht2)
    end.
    repeat split; assumption.
  - (* miss *)
    destruct (render_stays this node (Build_State c h n [] tr) fuel
                (conj Hmax eq_refl) Et Hfuel) as (Hj & _ & Hr2 & _).
    rewrite Hr2. cbn [fst snd]. repeat split; assumption.
Qed.

End Machine.
(** ** An invariant of the stored values *)

Section Invariant.
Context `{Externals}.
Variable P : Value -> Prop.

Lemma lru_find_In {V} k (v : V) l : LRU.find k l = Some v -> In (k, v) l.
Proof.
  induction l as [|[k' v'] l IH]; simpl; [discriminate|].
  destruct (String.eqb k k') eqn:E.
  - apply String.eqb_eq in E. intros [= ->]. subst. now left.
  - auto.
Qed.

Lemma lru_remove_In {V} k (x : Fingerprint * V) l :
  In x (LRU.remove k l) -> In x l.
Proof.
  induction l as [|[k' v'] l IH]; simpl; auto.
  destruct (String.eqb k k'); simpl; tauto.
Qed.

Lemma keeps_ret {A} (a : A) : keeps P (ret a).
Proof. intros st Hst. exact Hst. Qed.

Lemma keeps_bind {A B} (m : M A) (f : A -> M B) :
  keeps P m -> (forall a, keeps P (f a)) -> keeps P (bind m f).
Proof.
  intros Hm Hf st Hst. unfold bind. specialize (Hm st Hst).
  destruct (m st) as [a st']. now apply Hf.
Qed.

Lemma keeps_same_cache {A} (m : M A) :
  (forall st, cache (snd (m st)) = cache st) -> keeps P m.
Proof. intros Hc st Hst k v. rewrite Hc. apply Hst. Qed.

Lemma keeps_cache_get k : keeps P (cache_get k).
Proof.
  intros st Hst k' v'. unfold cache_get, LRU.get.
  destruct (LRU.find k (LRU.entries (cache st))) as [v|] eqn:E;
    cbn [snd cache LRU.touch LRU.entries]; [|apply Hst].
  intros [[= <- <-]|Hin].
  - apply (Hst k). now apply lru_find_In.
  - apply (Hst k'). eapply lru_remove_In; eauto.
Qed.

Lemma keeps_cache_set k v : P v -> keeps P (cache_set k v).
Proof.
  intros Hv st Hst k' v'. unfold cache_set, LRU.set.
  cbn [snd cache LRU.entries]. intros Hin. apply lru_In_firstn in Hin.
  destruct Hin as [[= <- <-]|Hin]; [assumption|].
  apply (Hst k'). eapply lru_remove_In; eauto.
Qed.

Lemma keeps_emit e : keeps P (emit e).
Proof. now apply keeps_same_cache. Qed.

Lemma keeps_new_promise s : keeps P (new_promise s).
Proof. now apply keeps_same_cache. Qed.

Lemma keeps_settle p o : keeps P (settle p o).
Proof.
  apply keeps_same_cache. intros st. unfold settle.
  now destruct (promise_state st p).
Qed.

Lemma keeps_subscribe p k : keeps P (subscribe p k).
Proof.
  apply keeps_same_cache. intros st. unfold subscribe.
  now destruct (promise_state st p).
Qed.

Lemma keeps_resolve p v : keeps P (resolve p v).
Proof. destruct v; cbn [resolve]; auto using keeps_settle, keeps_subscribe. Qed.

Lemma keeps_Promise_resolve v : keeps P (Promise_resolve v).
Proof.
  destruct v; cbn [Promise_resolve]; auto using keeps_new_promise, keeps_ret.
Qed.

End Invariant.

Ltac keeps_step :=
  first
    [ apply keeps_ret | apply keeps_cache_get | apply keeps_emit
    | apply keeps_new_promise | apply keeps_settle | apply keeps_subscribe
    | apply keeps_resolve | apply keeps_Promise_resolve
    | apply keeps_bind; [|intro]
    | match goal with
      | |- keeps _ (if ?b then _ else _) => destruct b
      | |- keeps _ (match ?x with _ => _ end) => destruct x
      end ].

Section Stages.
Context `{Externals}.

Lemma stage_value_or_one count speed :
  stage_value (VNumber (or_one (Math_round_div count speed))).
Proof. cbn [stage_value]. eauto. Qed.

Lemma keeps_nodeToAST this node : keeps stage_value (_nodeToAST this node).
Proof.
  unfold _nodeToAST. repeat keeps_step.
  apply keeps_cache_set. exact I.
Qed.

Lemma keeps_nodeToHTML this node : keeps stage_value (_nodeToHTML this node).
Proof.
  unfold _nodeToHTML.
  repeat first [ apply keeps_nodeToAST | keeps_step ].
  apply keeps_cache_set. exact I.
Qed.

Lemma keeps_headings this node d s :
  keeps stage_value (headings_resolve this node d s).
Proof.
  unfold headings_resolve. repeat first [ apply keeps_nodeToAST | keeps_step ].
Qed.

Lemma keeps_timeToRead this node speed :
  keeps stage_value (timeToRead_resolve this node speed).
Proof.
  unfold timeToRead_resolve.
  repeat first [ apply keeps_nodeToHTML | keeps_step ].
Qed.

Lemma keeps_resume k o : keeps stage_value (resume k o).
Proof.
  destruct k, o as [[]|]; cbn [resume];
    repeat first [ keeps_step | apply keeps_cache_set;
                   first [ exact I | apply stage_value_or_one ] ].
Qed.

Lemma reachable_stage_values st : reachable st -> all_entries stage_value st.
Proof.
  induction 1 as [|this node st _ IH|this node d s st _ IH
                  |this node speed st _ IH|st st' _ IH Ht].
  - intros k v [].
  - now apply keeps_nodeToHTML.
  - now apply keeps_headings.
  - now apply keeps_timeToRead.
  - unfold tick in Ht. destruct (jobs st) as [|[k o] js]; [discriminate|].
    injection Ht as <-. apply keeps_resume. exact IH.
Qed.

Lemma reachable_run fuel st : reachable st -> reachable (run fuel st).
Proof.
  revert st. induction fuel as [|fuel IH]; intros st Hr; cbn [run]; auto.
  destruct (tick st) as [st'|] eqn:E; auto.
  apply IH. now apply (reach_tick st st').
Qed.

Lemma stage_value_truthy v : stage_value v -> truthy v = true.
Proof.
  destruct v; cbn [stage_value]; try tauto; try reflexivity.
  intros (count & speed & ->). apply or_one_truthy.
Qed.
End Stages.

(** ** What the stages store nothing under *)

Section Absent.
Context `{Externals}.
Variable k : Fingerprint.

Lemma absent_ret {A} (a : A) : leaves_absent k (ret a).
Proof. intros st Hst. exact Hst. Qed.

Lemma absent_bind {A B} (m : M A) (f : A -> M B) :
  leaves_absent k m -> (forall a, leaves_absent k (f a)) ->
  leaves_absent k (bind m f).
Proof.
  intros Hm Hf st Hst. unfold bind. specialize (Hm st Hst).
  destruct (m st) as [a st']. now apply Hf.
Qed.

Lemma absent_same {A} (m : M A) :
  (forall st, cache (snd (m st)) = cache st) -> leaves_absent k m.
Proof. intros Hc st Hst. now rewrite Hc. Qed.

Lemma absent_cache_get k' : leaves_absent k (cache_get k').
Proof.
  intros st Hst. unfold cache_get, LRU.get.
  destruct (LRU.find k' (LRU.entries (cache st))) as [v|] eqn:E;
    cbn [snd cache]; [|assumption].
  destruct (String.eqb_spec k k') as [->|Hne].
  - unfold LRU.peek in Hst. congruence.
  - now rewrite lru_peek_touch_other.
Qed.

Lemma absent_cache_set k' v : k <> k' -> leaves_absent k (cache_set k' v).
Proof.
  intros Hne st Hst. unfold cache_set. cbn [snd cache].
  now apply lru_peek_set_other_none.
Qed.

Lemma absent_emit e : leaves_absent k (emit e).
Proof. now apply absent_same. Qed.

Lemma absent_new_promise s : leaves_absent k (new_promise s).
Proof. now apply absent_same. Qed.

Lemma absent_settle p o : leaves_absent k (settle p o).
Proof.
  apply absent_same. intros st. unfold settle.
  now destruct (promise_state st p).
Qed.

Lemma absent_subscribe p c : leaves_absent k (subscribe p c).
Proof.
  apply absent_same. intros st. unfold subscribe.
  now destruct (promise_state st p).
Qed.

Lemma absent_resolve p v : leaves_absent k (resolve p v).
Proof.
  destruct v; cbn [resolve]; auto using absent_settle, absent_subscribe.
Qed.

Lemma absent_Promise_resolve v : leaves_absent k (Promise_resolve v).
Proof.
  destruct v; cbn [Promise_resolve]; auto using absent_new_promise, absent_ret.
Qed.

End Absent.

Ltac absent_step :=
  first
    [ apply absent_ret | apply absent_cache_get
    | apply absent_cache_set; assumption
    | apply absent_emit
    | apply absent_new_promise | apply absent_settle | apply absent_subscribe
    | apply absent_resolve | apply absent_Promise_resolve
    | apply absent_bind; [|intro]
    | match goal with
      | |- leaves_absent _ (if ?b then _ else _) => destruct b
      | |- leaves_absent _ (match ?x with _ => _ end) => destruct x
      end ].

Section AbsentStages.
Context `{Externals}.

Lemma absent_nodeToAST k this node :
  k <> cacheKey node "ast" -> leaves_absent k (_nodeToAST this node).
Proof. intros Hne. unfold _nodeToAST. repeat absent_step. Qed.

Lemma absent_nodeToHTML k this node :
  k <> cacheKey node "ast" -> k <> cacheKey node "html" ->
  leaves_absent k (_nodeToHTML this node).
Proof.
  intros Ha Hh. unfold _nodeToHTML.
  repeat first [ apply absent_nodeToAST; assumption | absent_step ].
Qed.

(** Up to their [await] the view resolvers store nothing under their own
    fingerprint. *)
Lemma absent_headings this node d s :
  cacheKey node "headings" <> cacheKey node "ast" ->
  leaves_absent (cacheKey node "headings") (headings_resolve this node d s).
Proof.
  intros Ha. unfold headings_resolve.
  repeat first [ apply absent_nodeToAST; assumption | absent_step ].
Qed.

Lemma absent_timeToRead this node speed :
  cacheKey node "timeToRead" <> cacheKey node "ast" ->
  cacheKey node "timeToRead" <> cacheKey node "html" ->
  leaves_absent (cacheKey node "timeToRead")
    (timeToRead_resolve this node speed).
Proof.
  intros Ha Hh. unfold timeToRead_resolve.
  repeat first [ apply absent_nodeToHTML; assumption | absent_step ].
Qed.

End AbsentStages.

(** ** The sample fingerprints *)

Section SampleFacts.
Import Sample.

Lemma frame_injective s1 s2 r1 r2 :
  frame s1 r1 = frame s2 r2 -> s1 = s2 /\ r1 = r2.
Proof.
  revert s2. induction s1 as [|c1 s1 IH]; intros [|c2 s2]; simpl;
    intros E; try discriminate.
  - injection E as ->. auto.
  - injection E as -> E. apply IH in E. destruct E as [-> ->]. auto.
Qed.

Lemma unary_injective n1 n2 r1 r2 :
  unary n1 r1 = unary n2 r2 -> n1 = n2 /\ r1 = r2.
Proof.
  revert n2. induction n1 as [|n1 IH]; intros [|n2]; simpl;
    intros E; try discriminate.
  - injection E as ->. auto.
  - injection E as E. apply IH in E. destruct E as [-> ->]. auto.
Qed.

Lemma frameZ_injective z1 z2 r1 r2 :
  frameZ z1 r1 = frameZ z2 r2 -> z1 = z2 /\ r1 = r2.
Proof.
  unfold frameZ. intros E. injection E as Es E.
  apply unary_injective in E. destruct E as [Ea ->]. split; [|reflexivity].
  destruct (Z.ltb_spec z1 0), (Z.ltb_spec z2 0); try discriminate; lia.
Qed.

Lemma serialize_injective i j : serialize i = serialize j -> i = j.
Proof.
  destruct i as [c1 p1 t1 k1], j as [c2 p2 t2 k2]. unfold serialize. simpl.
  intros E.
  apply frame_injective in E. destruct E as [-> E].
  apply frame_injective in E. destruct E as [-> E].
  apply frameZ_injective in E. destruct E as [-> E].
  apply frame_injective in E. destruct E as [-> _]. reflexivity.
Qed.
End SampleFacts.

Lemma hex_length digits z rest :
  String.length (Short.hex digits z rest) = digits + String.length rest.
Proof.
  revert z rest. induction digits as [|digits IH]; intros z rest;
    cbn [Short.hex]; [reflexivity|].
  rewrite IH. cbn [String.length]. lia.
Qed.

Lemma digest_fixed_form : fixed_form (H:=Short.externals) 8.
Proof.
  intros i. cbn [hash Short.externals]. unfold Short.digest.
  rewrite hex_length. cbn [String.length]. lia.
Qed.

(** ** Counting fingerprints *)

Lemma all_ascii_complete (a : ascii) : In a all_ascii.
Proof.
  unfold all_ascii. rewrite <- (ascii_nat_embedding a).
  apply in_map, in_seq. pose proof (nat_ascii_bounded a). lia.
Qed.

Lemma strings_of_length_complete (s : string) :
  In s (strings_of_length (String.length s)).
Proof.
  induction s as [|c s IH]; [now left|].
  cbn [String.length strings_of_length]. apply in_flat_map.
  exists c. split; [apply all_ascii_complete|].
  now apply in_map.
Qed.

Lemma strings_up_to_complete (s : string) (n : nat) :
  String.length s <= n -> In s (strings_up_to n).
Proof.
  intros Hlen. unfold strings_up_to. apply in_flat_map.
  exists (String.length s). split; [apply in_seq; lia|].
  apply strings_of_length_complete.
Qed.

Lemma key_of_length_length i : String.length (key_of_length i) = i.
Proof. induction i; simpl; congruence. Qed.

Lemma key_of_length_injective i j :
  key_of_length i = key_of_length j -> i = j.
Proof.
  intros E. rewrite <- (key_of_length_length i), E.
  apply key_of_length_length.
Qed.

(** Among more arguments than there are values two share their value. *)
Lemma shared_value {A} (f : A -> string) (l : list A) :
  ~ NoDup (map f l) ->
  exists i j x y,
    i < j /\ nth_error l i = Some x /\ nth_error l j = Some y /\ f x = f y.
Proof.
  induction l as [|a l IH]; simpl; intros Hnd.
  - destruct Hnd. constructor.
  - destruct (in_dec string_dec (f a) (map f l)) as [Hin|Hout].
    + apply in_map_iff in Hin. destruct Hin as (y & Ey & Hy).
      apply In_nth_error in Hy. destruct Hy as [j Hj].
      exists 0, (S j), a, y. repeat split; auto. lia.
    + destruct IH as (i & j & x & y & Hij & Hi & Hj & E).
      * intros Hl. apply Hnd. now constructor.
      * exists (S i), (S j), x, y. repeat split; auto. lia.
Qed.

(** A function from keys to strings of bounded length takes one value on
    two different keys. *)
Lemma bounded_length_collision (f : string -> string) (n : nat) :
  (forall k, String.length (f k) <= n) ->
  exists k1 k2, k1 <> k2 /\ f k1 = f k2.
Proof.
  intros Hlen.
  set (m := S (List.length (strings_up_to n))).
  set (keys := map key_of_length (seq 0 m)).
  destruct (shared_value f keys) as (i & j & x & y & Hij & Hi & Hj & E).
  - intros Hnd.
    assert (Hincl : incl (map f keys) (strings_up_to n)).
    { intros s Hs. apply in_map_iff in Hs. destruct Hs as (k & <- & _).
      apply strings_up_to_complete, Hlen. }
    pose proof (NoDup_incl_length Hnd Hincl) as Hle.
    unfold keys in Hle. rewrite !length_map, length_seq in Hle.
    unfold m in Hle. lia.
  - exists x, y. split; [|assumption].
    unfold keys in Hi, Hj. rewrite nth_error_map in Hi, Hj.
    destruct (nth_error (seq 0 m) i) as [a|] eqn:Ea; [|discriminate].
    destruct (nth_error (seq 0 m) j) as [b|] eqn:Eb; [|discriminate].
    simpl in Hi, Hj. injection Hi as <-. injection Hj as <-.
    intros Ek. apply key_of_length_injective in Ek. subst b.
    assert (Hi' : i < List.length (seq 0 m))
      by (apply nth_error_Some; congruence).
    assert (Hj' : j < List.length (seq 0 m))
      by (apply nth_error_Some; congruence).
    rewrite length_seq in Hi', Hj'.
    rewrite nth_error_nth' with (d := 0) in Ea by (rewrite length_seq; lia).
    rewrite nth_error_nth' with (d := 0) in Eb by (rewrite length_seq; lia).
    rewrite seq_nth in Ea, Eb by lia. injection Ea as <-. injection Eb as Eq.
    lia.
Qed.

(** ** The claims *)





(** C5, amended.  On a miss [timeToRead] sanitizes the rendering, counts
    the words and is fulfilled with [Math.round(count / speed) || 1], which
    it stores.  When the quotient rounds to 0 the result is 1.  For a
    positive speed the rounded quotient is the nearest integer (ties
    upwards) and the result is at least 1.  The code after the [await]
    stores and returns this value from any state it is resumed in.  The
    declared default of [speed] is 230. *)
Theorem reading_time {X : Externals} (this : Transformer) (node : Node)
  (st : State) (fuel : nat) (a : Document) (html : string) (speed : Z) :
  idle st ->
  LRU.peek (cache st) (cacheKey node "ast") = None ->
  LRU.peek (cache st) (cacheKey node "html") = None ->
  LRU.peek (cache st) (cacheKey node "timeToRead") = None ->
  load (source node) (options this) (base_dir node) = Normal a ->
  convert a (options this) (base_dir node) = Normal html ->
  2 <= fuel ->
  let count := List.length (words (sanitizeHTML html)) in
  let rounded := ((2 * Z.of_nat count + speed) / (2 * speed))%Z in
  let r := timeToRead_resolve this node speed st in
  let st' := run fuel (snd r) in
  trace st'
  = trace st
    ++ [ELoad (source node) (options this) (base_dir node);
        EConvert a (options this) (base_dir node);
        ESanitize html; EWords (sanitizeHTML html)]
  /\ outcome st' (fst r)
     = Some (Fulfilled (VNumber (or_one (Math_round_div count speed))))
  /\ LRU.peek (cache st') (cacheKey node "timeToRead")
     = Some (VNumber (or_one (Math_round_div count speed)))
  /\ (Math_round_div count speed = NInt 0 ->
      outcome st' (fst r) = Some (Fulfilled (VNumber (NInt 1))))
  /\ ((0 < speed)%Z ->
      (2 * Z.of_nat count - speed < 2 * speed * rounded
       <= 2 * Z.of_nat count + speed)%Z
      /\ outcome st' (fst r)
         = Some (Fulfilled (VNumber (NInt (Z.max 1 rounded))))
      /\ (1 <= Z.max 1 rounded)%Z)
  /\ (forall (st0 : State) (r0 : PromiseId) (html0 : string),
        1 <= LRU.max (cache st0) ->
        promise_state st0 r0 = Pending [] ->
        let count0 := List.length (words (sanitizeHTML html0)) in
        let st0' := snd (resume (KTimeToRead node speed r0)
                           (Fulfilled (VString html0)) st0) in
        trace st0' = trace st0 ++ [ESanitize html0; EWords (sanitizeHTML html0)]
        /\ LRU.peek (cache st0') (cacheKey node "timeToRead")
           = Some (VNumber (or_one (Math_round_div count0 speed)))
        /\ outcome st0' r0
           = Some (Fulfilled (VNumber (or_one (Math_round_div count0 speed)))))
  /\ speed_defaultValue = 230%Z
  /\ timeToRead_query this node None = timeToRead_resolve this node 230.
Proof.
  intros Hidle Ha Hh Ht Hl Hc Hfuel count rounded r st'.
  destruct (timeToRead_sequential this node st fuel a html speed speed
              Hidle Ht Hh Ha Hl Hc Hfuel) as (_ & Htr & Hout & Hpeek & _).
  fold count in Hout, Hpeek.
  fold r in Htr, Hout, Hpeek. fold st' in Htr, Hout, Hpeek.
  repeat split; try assumption; try reflexivity.
  - intros E. rewrite Hout, E. reflexivity.
  - apply (round_nearest (Z.of_nat count) speed H).
  - apply (round_nearest (Z.of_nat count) speed H).
  - rewrite Hout. now rewrite round_positive_speed.
  - lia.
  - now apply timeToRead_after_await.
  - now apply timeToRead_after_await.
  - now apply timeToRead_after_await.
Qed.



(** C8.  The store of capacity 1000 never holds more than 1000 entries,
    whatever is done to it; [set] and a [get] that hits both make their key
    the most recent one; a [set] of a new key on a full store drops exactly
    the least recently used entry [old] and keeps every other entry with
    its value; after a [get] of [old] the same [set] keeps [old] and drops
    the entry that was next in line. *)
Theorem lru_eviction_policy {V : Type} (c : LRU.t V)
  (k old : Fingerprint) (v w : V) (rest : list (Fingerprint * V)) :
  LRU.max c = cache_max ->
  LRU.wf c = true ->
  LRU.size c = cache_max ->
  LRU.entries c = (rest ++ [(old, w)])%list ->
  LRU.has c k = false ->
  (forall os : list (LRU.op V),
     LRU.size (LRU.run (LRU.create cache_max) os) <= 1000) /\
  LRU.wf (LRU.set c k v) = true /\
  LRU.wf (fst (LRU.get c old)) = true /\
  (forall k' v', hd_error (LRU.entries (LRU.set c k' v')) = Some (k', v')) /\
  (forall k' v', LRU.peek c k' = Some v' ->
     hd_error (LRU.entries (fst (LRU.get c k'))) = Some (k', v')) /\
  LRU.entries (LRU.set c k v) = (k, v) :: rest /\
  LRU.has (LRU.set c k v) old = false /\
  (forall k' v', k' <> old ->
     LRU.peek c k' = Some v' -> LRU.peek (LRU.set c k v) k' = Some v') /\
  LRU.has (LRU.set (fst (LRU.get c old)) k v) old = true /\
  (forall second rest', rest = (rest' ++ [second])%list ->
     LRU.entries (LRU.set (fst (LRU.get c old)) k v)
     = (k, v) :: (old, w) :: rest').
Proof.
  intros Hmax Hwf Hsize Hent Hk.
  assert (Hm1 : 1 <= LRU.max c) by (rewrite Hmax; unfold cache_max; lia).
  pose proof Hwf as Hwf'. apply lru_wf_iff in Hwf'. destruct Hwf' as [Hnd _].
  unfold LRU.keys in Hnd. rewrite Hent in Hnd.
  destruct (lru_snoc_find old w rest Hnd) as (Hf1 & Hf2 & Hf3).
  assert (Hlen : List.length rest = LRU.max c - 1).
  { unfold LRU.size in Hsize. rewrite Hent, length_app in Hsize. simpl in Hsize.
    rewrite Hmax. lia. }
  apply lru_has_false in Hk. unfold LRU.peek in Hk.
  assert (Hset : LRU.entries (LRU.set c k v) = (k, v) :: rest).
  { rewrite lru_set_entries by assumption.
    rewrite lru_remove_absent by assumption.
    rewrite Hent, <- Hlen. now rewrite lru_firstn_snoc. }
  assert (Hget : LRU.get c old
                 = ({| LRU.max := LRU.max c; LRU.entries := (old, w) :: rest |},
                    Some w)).
  { rewrite (lru_get_hit c old w) by (unfold LRU.peek; now rewrite Hent).
    unfold LRU.touch. now rewrite Hent, Hf3. }
  assert (Hkold : String.eqb k old = false).
  { rewrite Hent in Hk. apply lru_find_app_none in Hk. destruct Hk as [_ Hk].
    simpl in Hk. now destruct (String.eqb k old). }
  assert (Hkrest : LRU.find k rest = None).
  { rewrite Hent in Hk. now apply lru_find_app_none in Hk. }
  repeat split.
  - intros os. pose proof (lru_size_run os (LRU.create (V:=V) cache_max)) as Hb.
    rewrite lru_max_run in Hb. simpl in Hb. apply Hb.
    unfold LRU.size; simpl; lia.
  - now apply lru_wf_set.
  - now apply lru_wf_get.
  - intros k' v'. rewrite lru_set_entries by assumption. reflexivity.
  - intros k' v' Hp. now rewrite (lru_get_hit c k' v') by assumption.
  - exact Hset.
  - unfold LRU.has, LRU.peek. rewrite Hset. simpl.
    rewrite String.eqb_sym, Hkold. now rewrite Hf1.
  - intros k' v' Hne Hp. unfold LRU.peek in *. rewrite Hset. simpl.
    destruct (String.eqb k' k) eqn:E.
    + apply String.eqb_eq in E. subst k'. congruence.
    + rewrite Hent in Hp. destruct (LRU.find k' rest) eqn:Er.
      * now rewrite (lru_find_app_left _ _ _ _ Er) in Hp.
      * exfalso. revert Hp. clear -Er Hne.
        induction rest as [|[a va] rest IH]; simpl in *.
        -- destruct (String.eqb k' old) eqn:E; [|discriminate].
           apply String.eqb_eq in E. congruence.
        -- destruct (String.eqb k' a); [discriminate|]. auto.
  - rewrite Hget. simpl fst. unfold LRU.has, LRU.peek.
    rewrite lru_set_entries by assumption. simpl LRU.entries. simpl LRU.max.
    simpl LRU.remove. rewrite Hkold.
    destruct (LRU.max c) as [|[|m]] eqn:Em.
    + lia.
    + rewrite Hmax in Em. discriminate.
    + simpl. rewrite String.eqb_sym, Hkold. now rewrite String.eqb_refl.
  - intros second rest' Hr. rewrite Hget. simpl fst.
    rewrite lru_set_entries by assumption. simpl LRU.entries. simpl LRU.max.
    simpl LRU.remove. rewrite Hkold, lru_remove_absent by assumption.
    destruct (LRU.max c) as [|[|m]] eqn:Em.
    + lia.
    + rewrite Hmax in Em. discriminate.
    + simpl. f_equal. f_equal.
      subst rest. rewrite length_app in Hlen. simpl in Hlen.
      assert (m = List.length rest') as -> by lia. apply lru_firstn_snoc.
Qed.

(** C9.  The fingerprint is a function of [content], [internal.origin],
    [internal.timestamp] and the key only.  Two nodes that agree on these
    three fields share their entries: after node [n1] was parsed (rendered)
    by transformer [t1], a request for [n2] on transformer [t2] returns the
    document (rendering) made from [n1] with the options of [t1], whatever
    the source of [n2] and the options of [t2], and calls no collaborator. *)
Theorem cache_key_inputs {X : Externals} (t1 t2 : Transformer) (n1 n2 : Node)
  (st : State) (fuel : nat) (a1 : Document) (html1 : string) :
  content n1 = content n2 ->
  origin (internal n1) = origin (internal n2) ->
  timestamp (internal n1) = timestamp (internal n2) ->
  idle st ->
  LRU.peek (cache st) (cacheKey n1 "html") = None ->
  LRU.peek (cache st) (cacheKey n1 "ast") = None ->
  load (source n1) (options t1) (base_dir n1) = Normal a1 ->
  convert a1 (options t1) (base_dir n1) = Normal html1 ->
  1 <= fuel ->
  (forall key, cacheKey n1 key = cacheKey n2 key)
  /\ (let r1 := _nodeToAST t1 n1 st in
      let r2 := _nodeToAST t2 n2 (snd r1) in
      exists p2, fst r2 = Normal p2
                 /\ outcome (snd r2) p2 = Some (Fulfilled (VDocument a1))
                 /\ trace (snd r2) = trace (snd r1))
  /\ (let r1 := _nodeToHTML t1 n1 st in
      let st1 := run fuel (snd r1) in
      let r2 := _nodeToHTML t2 n2 st1 in
      fst r2 = fst r1
      /\ outcome (snd r2) (fst r2) = Some (Fulfilled (VString html1))
      /\ trace (snd r2) = trace st1).
Proof.
  intros Hc Ho Ht Hidle Hh Ha Hl Hcv Hfuel.
  assert (Hkey : forall key, cacheKey n1 key = cacheKey n2 key).
  { intros key. unfold cacheKey. now rewrite Hc, Ho, Ht. }
  split; [exact Hkey|]. split.
  - destruct st as [c h n js tr]. destruct Hidle as [Hmax Hjobs].
    simpl in Hmax, Hjobs, Hh, Ha. subst js.
    pose proof (cache_max_pos c Hmax) as Hpos.
    intros r1 r2. subst r2 r1.
    rewrite (nodeToAST_cold t1 n1 c h n [] tr a1 Ha Hl). cbn [fst snd].
    rewrite (nodeToAST_cached t2 n2 c _ _ _ _ _ a1 (eq_sym (Hkey "ast"%string)))
      by assumption.
    cbn [fst snd]. eexists. split; [reflexivity|].
    unfold outcome, promise_state. cbn [heap trace].
    split; [heap_lookup|reflexivity].
  - destruct st as [c h n js tr]. destruct Hidle as [Hmax Hjobs].
    simpl in Hmax, Hjobs, Hh, Ha. subst js.
    pose proof (cache_max_pos c Hmax) as Hpos.
    intros r1 st1 r2. subst r2 st1 r1.
    rewrite (nodeToHTML_cold t1 n1 c h n [] tr a1 Hh Ha Hl).
    cbn [fst snd app].
    destruct fuel as [|fuel]; [lia|].
    rewrite run_step, (resume_convert_ok _ _ _ _ html1) by assumption.
    rewrite (settle_pending _ _ []) by heap_lookup. cbn [snd map app].
    rewrite run_done by reflexivity.
    rewrite (nodeToHTML_cached t2 n2 _ _ _ _ _ _ n
               (eq_sym (Hkey "html"%string)))
      by (simpl; assumption).
    unfold outcome, promise_state. cbn [fst snd heap trace].
    repeat split. heap_lookup.
Qed.

(** C10, amended.  In every reachable state each stored value is a
    document, a promise, an array or a number
    [Math.round(count / speed) || 1], and is truthy; a lookup of a stored
    key therefore passes the test [if (!cached)] as a hit.  The stored
    number is never 0 or [NaN]: it is an integer at least 1 when the speed
    is positive, [Infinity] (or 1 for an empty text) when the speed is 0,
    and 1 or a negative integer when the speed is negative.  A document
    without headings stores the empty array, and the next call returns it
    without enumerating again. *)
Theorem stored_values_truthy {X : Externals} :
  (forall st k v,
     reachable st -> In (k, v) (LRU.entries (cache st)) ->
     stage_value v /\ truthy v = true)
  /\ (forall st k v,
        reachable st -> LRU.peek (cache st) k = Some v ->
        fst (cache_get k st) = v /\ truthy (fst (cache_get k st)) = true)
  /\ (forall count speed,
        truthy (VNumber (or_one (Math_round_div count speed))) = true
        /\ ((0 < speed)%Z ->
            exists z, or_one (Math_round_div count speed) = NInt z
                      /\ (1 <= z)%Z)
        /\ (speed = 0%Z ->
            or_one (Math_round_div count speed)
            = if Nat.eqb count 0 then NInt 1 else NInfinity)
        /\ ((speed < 0)%Z ->
            exists z, or_one (Math_round_div count speed) = NInt z
                      /\ (z = 1%Z <-> (2 * Z.of_nat count <= - speed)%Z)
                      /\ (z <> 1%Z ->
                          (z <= -1)%Z /\ (- Z.of_nat count <= z)%Z)))
  /\ (forall this node st fuel a d1 s1 d2 s2,
        idle st ->
        LRU.peek (cache st) (cacheKey node "headings") = None ->
        LRU.peek (cache st) (cacheKey node "ast") = None ->
        load (source node) (options this) (base_dir node) = Normal a ->
        getRefs a = [] ->
        1 <= fuel ->
        let r1 := headings_resolve this node d1 s1 st in
        let st1 := run fuel (snd r1) in
        let r2 := headings_resolve this node d2 s2 st1 in
        LRU.peek (cache st1) (cacheKey node "headings") = Some (VArray [])
        /\ truthy (VArray []) = true
        /\ outcome (snd r2) (fst r2) = Some (Fulfilled (VArray []))
        /\ trace (snd r2) = trace st1
        /\ calls is_getRefs (snd r2) = calls is_getRefs st + 1).
Proof.
  split; [|split; [|split]].
  - intros st k v Hr Hin.
    pose proof (reachable_stage_values st Hr k v Hin) as Hv.
    split; [assumption|now apply stage_value_truthy].
  - intros st k v Hr Hp.
    assert (Hv : truthy v = true).
    { apply stage_value_truthy.
      apply (reachable_stage_values st Hr k). now apply lru_find_In. }
    destruct st as [c h n js tr]. rewrite (cache_get_hit _ _ _ _ _ _ _ Hp).
    auto.
  - intros count speed. split; [apply or_one_truthy|]. split; [|split].
    + intros Hs. rewrite round_positive_speed by assumption.
      eexists. split; [reflexivity|lia].
    + intros Hs.
      exact (proj1 (round_nonpositive_speed count speed ltac:(lia)) Hs).
    + intros Hs.
      exact (proj2 (round_nonpositive_speed count speed ltac:(lia)) Hs).
  - intros this node st fuel a d1 s1 d2 s2 Hidle Hv Ha Hl Hrefs Hfuel r1 st1 r2.
    destruct (headings_sequential this node st fuel a d1 s1 d2 s2
                Hidle Hv Ha Hl Hfuel)
      as (_ & Htr & _ & Hpeek & Hout & Htr2 & _).
    fold r1 in Htr, Hpeek, Hout, Htr2. fold st1 in Htr, Hpeek, Hout, Htr2.
    fold r2 in Hout, Htr2.
    unfold collect_headings in Hpeek, Hout. rewrite Hrefs in Hpeek, Hout.
    cbn [map] in Hpeek, Hout.
    repeat split; try assumption.
    unfold calls. rewrite Htr2, Htr, filter_app, length_app. simpl. lia.
Qed.

(** * Runs on the sample collaborators *)
Module Runs.
Import Sample.







(** C5: three words at the default speed. *)
Lemma reading_time_witness :
  let r := timeToRead_resolve transformer article 230 initial in
  outcome (run 2 (snd r)) (fst r) = Some (Fulfilled (VNumber (NInt 1))).
Proof.
  destruct (reading_time (X:=externals) transformer article initial 2
              (Build_Doc outline "== hello world") "<p>== hello world</p>"
              230%Z (conj eq_refl eq_refl) eq_refl eq_refl eq_refl
              eq_refl eq_refl (le_n 2))
    as (_ & _ & _ & _ & Hpos & _).
  destruct (Hpos eq_refl) as (_ & Hout & _).
  exact Hout.
Defined.

(** C5: three words at speed -1. *)
Lemma reading_time_counterexample :
  let r := timeToRead_resolve transformer article (-1) initial in
  outcome (run 2 (snd r)) (fst r) = Some (Fulfilled (VNumber (NInt (-3)))).
Proof. vm_compute. reflexivity. Qed.

(** C6, the code at the failing input: asked for [depth = 1] with
    [stripTags = true] on a document with a level-1 and a level-2 section,
    the resolver returns both entries, the second with its markup. *)
Theorem headings_arguments_ignored :
  let r := headings_query transformer article (Some 1%Z) (Some true) initial in
  outcome (run 1 (snd r)) (fst r)
  = Some (Fulfilled
            (VArray
               [ {| depth := 1; value := "Intro"; anchor := "_intro" |};
                 {| depth := 2; value := "<em>Setup</em>";
                    anchor := "_setup" |} ])).
Proof. vm_compute. reflexivity. Qed.


(** C8: a full store of 1000 entries. *)
Lemma lru_eviction_policy_witness :
  LRU.has (LRU.set full_store "fresh" 1000) (key_of 0) = false
  /\ LRU.has (LRU.set (fst (LRU.get full_store (key_of 0))) "fresh" 1000)
       (key_of 0) = true.
Proof.
  assert (Hent : LRU.entries full_store = full_store_rest ++ [(key_of 0, 0)])
    by (vm_compute; reflexivity).
  assert (Hwf : LRU.wf full_store = true) by (vm_compute; reflexivity).
  assert (Hsize : LRU.size full_store = cache_max) by (vm_compute; reflexivity).
  assert (Hfresh : LRU.has full_store "fresh" = false)
    by (vm_compute; reflexivity).
  destruct (lru_eviction_policy full_store "fresh" (key_of 0) 1000 0
              full_store_rest eq_refl Hwf Hsize Hent Hfresh)
    as (_ & _ & _ & _ & _ & _ & Hout & _ & Hkept & _).
  exact (conj Hout Hkept).
Defined.

(** C9: a twin of the article, asked for on another transformer. *)
Lemma cache_key_inputs_witness :
  let st1 := run 1 (snd (_nodeToHTML transformer article initial)) in
  let r2 := _nodeToHTML docbook article_twin st1 in
  outcome (snd r2) (fst r2)
  = Some (Fulfilled (VString "<p>== hello world</p>"))
  /\ trace (snd r2) = trace st1.
Proof.
  destruct (cache_key_inputs (X:=externals) transformer docbook article
              article_twin initial 1
              (Build_Doc outline "== hello world") "<p>== hello world</p>"
              eq_refl eq_refl eq_refl (conj eq_refl eq_refl)
              eq_refl eq_refl eq_refl eq_refl (le_n 1))
    as (_ & _ & _ & Hout & Htr).
  exact (conj Hout Htr).
Defined.

(** C10: a document without headings. *)
Lemma stored_values_truthy_witness :
  let r1 := headings_resolve transformer plain None true initial in
  let st1 := run 1 (snd r1) in
  let r2 := headings_resolve transformer plain (Some 2%Z) false st1 in
  LRU.peek (cache st1) (cacheKey plain "headings") = Some (VArray [])
  /\ outcome (snd r2) (fst r2) = Some (Fulfilled (VArray []))
  /\ trace (snd r2) = trace st1.
Proof.
  destruct (stored_values_truthy (X:=externals)) as (_ & _ & _ & Hzero).
  destruct (Hzero transformer plain initial 1 (Build_Doc [] "hello world")
              None true (Some 2%Z) false
              (conj eq_refl eq_refl) eq_refl eq_refl eq_refl eq_refl (le_n 1))
    as (Hpeek & _ & Hout & Htr & _).
  exact (conj Hpeek (conj Hout Htr)).
Defined.

(** C10: at speed -1 the number stored for three words is negative, at
    speed 0 it is [Infinity]; both states are reachable. *)
Lemma stored_values_counterexample :
  let r := timeToRead_resolve transformer article (-1) initial in
  let r0 := timeToRead_resolve transformer article 0 initial in
  (reachable (run 2 (snd r))
   /\ LRU.peek (cache (run 2 (snd r))) (cacheKey article "timeToRead")
      = Some (VNumber (NInt (-3))))
  /\ (reachable (run 2 (snd r0))
      /\ LRU.peek (cache (run 2 (snd r0))) (cacheKey article "timeToRead")
         = Some (VNumber NInfinity)).
Proof.
  split; (split; [apply reachable_run, reach_timeToRead, reach_initial|]);
    vm_compute; reflexivity.
Qed.

End Runs.

(** * More of the pipeline *)

(** ** The store, two entries deep *)

Section StoreMore.
Context {V : Type}.
Implicit Types (c : LRU.t V) (k : Fingerprint) (v : V).



Lemma lru_peek_set_second c k1 k2 (v1 v2 : V) :
  k1 <> k2 -> 2 <= LRU.max c ->
  LRU.peek (LRU.set (LRU.set c k1 v1) k2 v2) k1 = Some v1.
Proof.
  intros Hne Hm. unfold LRU.peek.
  rewrite lru_set_entries by (simpl; lia).
  rewrite lru_set_entries by lia. simpl LRU.max.
  cbn [LRU.remove]. destruct (String.eqb k2 k1) eqn:E.
  - apply String.eqb_eq in E. congruence.
  - destruct (LRU.max c) as [|[|m]]; try lia. simpl.
    rewrite String.eqb_sym, E. now rewrite String.eqb_refl.
Qed.

Lemma lru_peek_touch_second c k1 k2 (v1 v2 : V) :
  k1 <> k2 -> 2 <= LRU.max c ->
  LRU.peek (LRU.set (LRU.touch c k1 v1) k2 v2) k1 = Some v1.
Proof.
  intros Hne Hm. unfold LRU.peek.
  rewrite lru_set_entries by (simpl; lia). simpl LRU.max.
  unfold LRU.touch at 1. cbn [LRU.entries LRU.remove].
  destruct (String.eqb k2 k1) eqn:E.
  - apply String.eqb_eq in E. congruence.
  - destruct (LRU.max c) as [|[|m]]; try lia. simpl.
    rewrite String.eqb_sym, E. now rewrite String.eqb_refl.
Qed.

Lemma lru_find_firstn_more k v j (l : list (Fingerprint * V)) :
  LRU.find k (firstn j l) = Some v -> LRU.find k (firstn (S j) l) = Some v.
Proof.
  revert j. induction l as [|[k0 v0] l IH]; intros [|j];
    try (simpl; discriminate).
  change (LRU.find k ((k0, v0) :: firstn j l) = Some v ->
          LRU.find k ((k0, v0) :: firstn (S j) l) = Some v).
  cbn [LRU.find]. destruct (String.eqb k k0); auto.
Qed.

Lemma lru_find_firstn_remove k k' v' j (l : list (Fingerprint * V)) :
  k' <> k ->
  LRU.find k' (firstn j l) = Some v' ->
  LRU.find k' (firstn j (LRU.remove k l)) = Some v'.
Proof.
  intros Hne. revert j. induction l as [|[k0 v0] l IH]; intros [|j]; simpl;
    try discriminate.
  destruct (String.eqb k' k0) eqn:E0.
  - apply String.eqb_eq in E0. subst k0. intros [= ->].
    destruct (String.eqb k k') eqn:E.
    + apply String.eqb_eq in E. congruence.
    + simpl. now rewrite String.eqb_refl.
  - intros Hf. destruct (String.eqb k k0) eqn:E.
    + apply lru_find_firstn_more. now apply IH.
    + simpl. rewrite E0. now apply IH.
Qed.

Lemma lru_find_firstn_whole k v j (l : list (Fingerprint * V)) :
  LRU.find k (firstn j l) = Some v -> LRU.find k l = Some v.
Proof.
  intros Hf. rewrite <- (firstn_skipn j l). now apply lru_find_app_left.
Qed.

(** [k'] is one of the [j] most recently used keys of [c]. *)
Lemma lru_recent_set_same c k v :
  1 <= LRU.max c ->
  LRU.find k (firstn 1 (LRU.entries (LRU.set c k v))) = Some v.
Proof.
  intros Hm. rewrite lru_set_entries by assumption. simpl.
  now rewrite String.eqb_refl.
Qed.

Lemma lru_recent_set_other c k k' v v' j :
  k' <> k -> j < LRU.max c ->
  LRU.find k' (firstn j (LRU.entries c)) = Some v' ->
  LRU.find k' (firstn (S j) (LRU.entries (LRU.set c k v))) = Some v'.
Proof.
  intros Hne Hj Hf. unfold LRU.set. cbn [LRU.entries].
  rewrite firstn_firstn. replace (Nat.min (S j) (LRU.max c)) with (S j) by lia.
  simpl. destruct (String.eqb k' k) eqn:E.
  - apply String.eqb_eq in E. contradiction.
  - now apply lru_find_firstn_remove.
Qed.

End StoreMore.

Section StagesMore.
Context `{Externals}.
Implicit Types (c : LRU.t Value) (h : list (PromiseId * PromiseState))
  (n : PromiseId) (js : list (Cont * Outcome)) (tr : list Event)
  (this : Transformer) (node : Node).




Lemma timeToRead_resolve_pending this node speed c h n js tr p ws :
  LRU.peek c (cacheKey node "timeToRead") = None ->
  LRU.peek c (cacheKey node "html") = Some (VPromise p) ->
  lookup p h = Some (Pending ws) -> p < n ->
  timeToRead_resolve this node speed (Build_State c h n js tr)
  = (n,
     Build_State (LRU.touch c (cacheKey node "html") (VPromise p))
       ((p, Pending (ws ++ [KTimeToRead node speed n]))
        :: (n, Pending []) :: h) (S n) js tr).
Proof.
  intros Ht Hh Hl Hlt. unfold timeToRead_resolve, bind, new_promise.
  cbn [cache heap next jobs trace].
  rewrite cache_get_miss by assumption. cbn [truthy].
  rewrite (nodeToHTML_hit this node c _ _ _ _ p Hh).
  rewrite (subscribe_pending _ _ ws); [reflexivity|].
  cbn [lookup]. eqb_solve. assumption.
Qed.

Lemma resume_timeToRead_rejected node speed r e c h n js tr :
  resume (KTimeToRead node speed r) (Rejected e) (Build_State c h n js tr)
  = settle r (Rejected e) (Build_State c h n js tr).
Proof. reflexivity. Qed.

Lemma timeToRead_resolve_parse_failure this node speed c h n js tr e :
  LRU.peek c (cacheKey node "timeToRead") = None ->
  LRU.peek c (cacheKey node "html") = None ->
  LRU.peek c (cacheKey node "ast") = None ->
  load (source node) (options this) (base_dir node) = Throw e ->
  timeToRead_resolve this node speed (Build_State c h n js tr)
  = (n,
     Build_State (LRU.set c (cacheKey node "html") (VPromise (S n)))
       ((S n, Settled (Rejected e)) :: (S n, Pending [])
        :: (n, Pending []) :: h)
       (S (S n))
       (js ++ [(KTimeToRead node speed n, Rejected e)])
       (tr ++ [ELoad (source node) (options this) (base_dir node)])).
Proof.
  intros Ht Hh Ha Hl. unfold timeToRead_resolve, bind, new_promise.
  cbn [cache heap next jobs trace].
  rewrite cache_get_miss by assumption. cbn [truthy].
  rewrite (nodeToHTML_parse_failure this node c _ _ _ _ e Hh Ha Hl).
  rewrite (subscribe_settled _ _ (Rejected e)) by heap_lookup.
  reflexivity.
Qed.

End StagesMore.

(** ** Requests that share their work *)

Ltac run_finish :=
  match goal with
  | |- context [run ?f (Build_State ?c ?h ?n [] ?t)] =>
      rewrite (run_done f (Build_State c h n [] t)) by reflexivity
  end.

Section Sharing.
Context {X : Externals}.
Implicit Types (this : Transformer) (node : Node) (st : State).

Lemma stage_keys_all_apart node :
  NoDup (map (cacheKey node) stage_keys) ->
  cacheKey node "ast" <> cacheKey node "html"
  /\ cacheKey node "ast" <> cacheKey node "headings"
  /\ cacheKey node "ast" <> cacheKey node "timeToRead"
  /\ cacheKey node "html" <> cacheKey node "headings"
  /\ cacheKey node "html" <> cacheKey node "timeToRead"
  /\ cacheKey node "headings" <> cacheKey node "timeToRead".
Proof.
  unfold stage_keys. cbn [map]. intros Hnd.
  inversion Hnd as [|? ? Hast Hnd1]; subst.
  inversion Hnd1 as [|? ? Hhtml Hnd2]; subst.
  inversion Hnd2 as [|? ? Hhead _]; subst.
  cbn [In] in Hast, Hhtml, Hhead.
  repeat split; intros E; rewrite ?E in *; tauto.
Qed.

(** X1.  One page query that asks for [content], [headings] and
    [timeToRead] of a node the store knows nothing of, the three resolvers
    called in one turn: the parser, the converter, [getRefs], the sanitizer
    and the word splitter are each called exactly once, in this order, and
    the three fields are fulfilled with the rendering, the headings and the
    reading time. *)
Theorem page_query_shares_work this node st fuel a html d s speed :
  idle st ->
  LRU.peek (cache st) (cacheKey node "ast") = None ->
  LRU.peek (cache st) (cacheKey node "html") = None ->
  LRU.peek (cache st) (cacheKey node "headings") = None ->
  LRU.peek (cache st) (cacheKey node "timeToRead") = None ->
  NoDup (map (cacheKey node) stage_keys) ->
  load (source node) (options this) (base_dir node) = Normal a ->
  convert a (options this) (base_dir node) = Normal html ->
  3 <= fuel ->
  let r1 := content_resolve this node st in
  let r2 := headings_resolve this node d s (snd r1) in
  let r3 := timeToRead_resolve this node speed (snd r2) in
  let st' := run fuel (snd r3) in
  trace st'
  = trace st
    ++ [ELoad (source node) (options this) (base_dir node);
        EConvert a (options this) (base_dir node);
        EGetRefs a;
        ESanitize html; EWords (sanitizeHTML html)]
  /\ jobs st' = []
  /\ outcome st' (fst r1) = Some (Fulfilled (VString html))
  /\ outcome st' (fst r2) = Some (Fulfilled (VArray (collect_headings a)))
  /\ outcome st' (fst r3)
     = Some (Fulfilled
               (VNumber
                  (or_one
                     (Math_round_div
                        (List.length (words (sanitizeHTML html))) speed)))).
Proof.
  destruct st as [c h n js tr].
  intros [Hmax Hjobs] Ha Hh Hv Ht Hnd Hl Hc Hfuel.
  simpl in Hmax, Hjobs, Ha, Hh, Hv, Ht. subst js.
  pose proof (cache_max_pos c Hmax) as Hpos.
  assert (Hm2 : 2 <= LRU.max c) by (rewrite Hmax; unfold cache_max; lia).
  destruct (stage_keys_all_apart node Hnd)
    as (Hah & Hav & Hat & Hhv & Hht & Hvt).
  intros r1 r2 r3 st'. subst st' r3 r2 r1. unfold content_resolve.
  rewrite (nodeToHTML_cold this node c h n [] tr a Hh Ha Hl).
  cbn [fst snd app].
  rewrite (headings_resolve_warm this node d s _ _ _ _ _ a);
    [ | repeat apply lru_peek_set_other_none; auto
      | now apply lru_peek_set_second ].
  cbn [fst snd app].
  rewrite (timeToRead_resolve_pending this node speed _ _ _ _ _ n []);
    [ | rewrite lru_peek_touch_other by auto;
        repeat apply lru_peek_set_other_none; auto
      | rewrite lru_peek_touch_other by auto; now apply lru_peek_set_same
      | heap_lookup | lia ].
  cbn [fst snd app].
  destruct fuel as [|[|[|fuel]]]; try lia.
  rewrite run_step, (resume_convert_ok _ _ _ _ html) by assumption.
  rewrite (settle_pending _ _ [KTimeToRead node speed (S (S (S (S n))))])
    by heap_lookup.
  cbn [snd map app].
  rewrite run_step, resume_headings.
  rewrite (settle_pending _ _ []) by heap_lookup. cbn [snd map app].
  rewrite run_step, resume_timeToRead.
  rewrite (settle_pending _ _ []) by heap_lookup. cbn [snd map app].
  run_finish.
  unfold outcome, promise_state. cbn [heap cache jobs trace].
  repeat split; try heap_lookup.
  now rewrite <- !app_assoc.
Qed.

(** X2.  The stages share the parsed document: [headings] followed by
    [_nodeToHTML], and [_nodeToHTML] followed by [headings], call the
    parser once. *)
Theorem parsed_document_shared this node st fuel a html d s :
  idle st ->
  LRU.peek (cache st) (cacheKey node "ast") = None ->
  LRU.peek (cache st) (cacheKey node "html") = None ->
  LRU.peek (cache st) (cacheKey node "headings") = None ->
  NoDup (map (cacheKey node) stage_keys) ->
  load (source node) (options this) (base_dir node) = Normal a ->
  convert a (options this) (base_dir node) = Normal html ->
  1 <= fuel ->
  (let r1 := headings_resolve this node d s st in
   let st1 := run fuel (snd r1) in
   let r2 := _nodeToHTML this node st1 in
   let st2 := run fuel (snd r2) in
   trace st2
   = trace st
     ++ [ELoad (source node) (options this) (base_dir node); EGetRefs a;
         EConvert a (options this) (base_dir node)]
   /\ outcome st2 (fst r2) = Some (Fulfilled (VString html)))
  /\ (let r1 := _nodeToHTML this node st in
      let st1 := run fuel (snd r1) in
      let r2 := headings_resolve this node d s st1 in
      let st2 := run fuel (snd r2) in
      trace st2
      = trace st
        ++ [ELoad (source node) (options this) (base_dir node);
            EConvert a (options this) (base_dir node); EGetRefs a]
      /\ outcome st2 (fst r2)
         = Some (Fulfilled (VArray (collect_headings a)))).
Proof.
  destruct st as [c h n js tr].
  intros [Hmax Hjobs] Ha Hh Hv Hnd Hl Hc Hfuel.
  simpl in Hmax, Hjobs, Ha, Hh, Hv. subst js.
  pose proof (cache_max_pos c Hmax) as Hpos.
  assert (Hm2 : 2 <= LRU.max c) by (rewrite Hmax; unfold cache_max; lia).
  destruct (stage_keys_all_apart node Hnd)
    as (Hah & Hav & Hat & Hhv & Hht & Hvt).
  destruct fuel as [|fuel]; [lia|].
  split.
  - cbv zeta.
    rewrite (headings_resolve_cold this node d s c h n [] tr a Hv Ha Hl).
    cbn [fst snd app].
    rewrite run_step, resume_headings.
    rewrite (settle_pending _ _ []) by heap_lookup. cbn [snd map app].
    run_finish.
    rewrite (nodeToHTML_parsed this node _ _ _ _ _ a);
      [ | repeat apply lru_peek_set_other_none; auto
        | now apply lru_peek_set_second ].
    cbn [fst snd app].
    rewrite run_step, (resume_convert_ok _ _ _ _ html) by assumption.
    rewrite (settle_pending _ _ []) by heap_lookup. cbn [snd map app].
    run_finish.
    unfold outcome, promise_state. cbn [heap cache jobs trace].
    split; [now rewrite <- !app_assoc|heap_lookup].
  - cbv zeta.
    rewrite (nodeToHTML_cold this node c h n [] tr a Hh Ha Hl).
    cbn [fst snd app].
    rewrite run_step, (resume_convert_ok _ _ _ _ html) by assumption.
    rewrite (settle_pending _ _ []) by heap_lookup. cbn [snd map app].
    run_finish.
    rewrite (headings_resolve_warm this node d s _ _ _ _ _ a);
      [ | repeat apply lru_peek_set_other_none; auto
        | now apply lru_peek_set_second ].
    cbn [fst snd app].
    rewrite run_step, resume_headings.
    rewrite (settle_pending _ _ []) by heap_lookup. cbn [snd map app].
    run_finish.
    unfold outcome, promise_state. cbn [heap cache jobs trace].
    split; [now rewrite <- !app_assoc|heap_lookup].
Qed.

(** X3.  Once [content] has been resolved, [timeToRead] calls neither the
    parser nor the converter: it sanitizes the stored rendering and
    counts its words. *)
Theorem reading_time_reuses_rendering this node st fuel a html speed :
  idle st ->
  LRU.peek (cache st) (cacheKey node "ast") = None ->
  LRU.peek (cache st) (cacheKey node "html") = None ->
  LRU.peek (cache st) (cacheKey node "timeToRead") = None ->
  NoDup (map (cacheKey node) stage_keys) ->
  load (source node) (options this) (base_dir node) = Normal a ->
  convert a (options this) (base_dir node) = Normal html ->
  1 <= fuel ->
  let r1 := content_resolve this node st in
  let st1 := run fuel (snd r1) in
  let r2 := timeToRead_resolve this node speed st1 in
  let st2 := run fuel (snd r2) in
  trace st2 = trace st1 ++ [ESanitize html; EWords (sanitizeHTML html)]
  /\ jobs st2 = []
  /\ outcome st2 (fst r2)
     = Some (Fulfilled
               (VNumber
                  (or_one
                     (Math_round_div
                        (List.length (words (sanitizeHTML html))) speed)))).
Proof.
  destruct st as [c h n js tr].
  intros [Hmax Hjobs] Ha Hh Ht Hnd Hl Hc Hfuel.
  simpl in Hmax, Hjobs, Ha, Hh, Ht. subst js.
  pose proof (cache_max_pos c Hmax) as Hpos.
  destruct (stage_keys_all_apart node Hnd)
    as (Hah & Hav & Hat & Hhv & Hht & Hvt).
  destruct fuel as [|fuel]; [lia|].
  cbv zeta. unfold content_resolve.
  rewrite (nodeToHTML_cold this node c h n [] tr a Hh Ha Hl).
  cbn [fst snd app].
  rewrite run_step, (resume_convert_ok _ _ _ _ html) by assumption.
  rewrite (settle_pending _ _ []) by heap_lookup. cbn [snd map app].
  run_finish.
  rewrite (timeToRead_resolve_warm this node speed _ _ _ _ _ n
             (Fulfilled (VString html)));
    [ | repeat apply lru_peek_set_other_none; auto
      | now apply lru_peek_set_same | heap_lookup | lia ].
  cbn [fst snd app].
  rewrite run_step, resume_timeToRead.
  rewrite (settle_pending _ _ []) by heap_lookup. cbn [snd map app].
  run_finish.
  unfold outcome, promise_state. cbn [heap cache jobs trace].
  repeat split; try heap_lookup. now rewrite <- !app_assoc.
Qed.

(** X4.  When the parser or the converter throws, [timeToRead] is rejected
    with that error, stores nothing under its fingerprint and never calls
    the sanitizer; a second call is rejected with the same error and makes
    no external call at all. *)
Theorem reading_time_rejected this node st fuel e speed1 speed2 :
  idle st ->
  LRU.peek (cache st) (cacheKey node "ast") = None ->
  LRU.peek (cache st) (cacheKey node "html") = None ->
  LRU.peek (cache st) (cacheKey node "timeToRead") = None ->
  NoDup (map (cacheKey node) stage_keys) ->
  (load (source node) (options this) (base_dir node) = Throw e
   \/ exists a, load (source node) (options this) (base_dir node) = Normal a
                /\ convert a (options this) (base_dir node) = Throw e) ->
  2 <= fuel ->
  let r1 := timeToRead_resolve this node speed1 st in
  let st1 := run fuel (snd r1) in
  let r2 := timeToRead_resolve this node speed2 st1 in
  let st2 := run fuel (snd r2) in
  outcome st1 (fst r1) = Some (Rejected e)
  /\ LRU.peek (cache st1) (cacheKey node "timeToRead") = None
  /\ calls is_sanitize st1 = calls is_sanitize st
  /\ outcome st2 (fst r2) = Some (Rejected e)
  /\ trace st2 = trace st1
  /\ jobs st2 = [].
Proof.
  destruct st as [c h n js tr].
  intros [Hmax Hjobs] Ha Hh Ht Hnd Hfail Hfuel.
  simpl in Hmax, Hjobs, Ha, Hh, Ht. subst js.
  pose proof (cache_max_pos c Hmax) as Hpos.
  destruct (stage_keys_all_apart node Hnd)
    as (Hah & Hav & Hat & Hhv & Hht & Hvt).
  destruct fuel as [|[|fuel]]; try lia.
  cbv zeta. destruct Hfail as [Hl|(a & Hl & Hc)].
  - rewrite (timeToRead_resolve_parse_failure this node speed1 c h n [] tr e
               Ht Hh Ha Hl).
    cbn [fst snd app].
    rewrite run_step, resume_timeToRead_rejected.
    rewrite (settle_pending _ _ []) by heap_lookup. cbn [snd map app].
    run_finish.
    rewrite (timeToRead_resolve_warm this node speed2 _ _ _ _ _ (S n)
               (Rejected e));
      [ | repeat apply lru_peek_set_other_none; auto
        | now apply lru_peek_set_same | heap_lookup | lia ].
    cbn [fst snd app].
    rewrite run_step, resume_timeToRead_rejected.
    rewrite (settle_pending _ _ []) by heap_lookup. cbn [snd map app].
    run_finish.
    unfold outcome, promise_state. cbn [heap cache jobs trace].
    repeat split; try heap_lookup.
    + repeat apply lru_peek_set_other_none; auto.
    + count_calls.
  - rewrite (timeToRead_resolve_cold this node speed1 c h n [] tr a
               Ht Hh Ha Hl).
    cbn [fst snd app].
    rewrite run_step, (resume_convert_throw _ _ _ _ e) by assumption.
    rewrite (settle_pending _ _ [KTimeToRead node speed1 n]) by heap_lookup.
    cbn [snd map app].
    rewrite run_step, resume_timeToRead_rejected.
    rewrite (settle_pending _ _ []) by heap_lookup. cbn [snd map app].
    run_finish.
    rewrite (timeToRead_resolve_warm this node speed2 _ _ _ _ _ (S n)
               (Rejected e));
      [ | repeat apply lru_peek_set_other_none; auto
        | now apply lru_peek_set_same | heap_lookup | lia ].
    cbn [fst snd app].
    rewrite run_step, resume_timeToRead_rejected.
    rewrite (settle_pending _ _ []) by heap_lookup. cbn [snd map app].
    run_finish.
    unfold outcome, promise_state. cbn [heap cache jobs trace].
    repeat split; try heap_lookup.
    + repeat apply lru_peek_set_other_none; auto.
    + count_calls.
Qed.

(** X5.  A node whose "ast" and "html" fingerprints differ from those of a
    node rendered before is parsed and rendered itself, and the rendering
    of the first node stays in the store. *)
Theorem changed_node_rerenders this (n1 n2 : Node) st fuel a1 html1 a2 html2 :
  (forall k1 k2,
     In k1 ["ast"; "html"] -> In k2 ["ast"; "html"] ->
     cacheKey n1 k1 <> cacheKey n2 k2) ->
  idle st ->
  LRU.peek (cache st) (cacheKey n1 "ast") = None ->
  LRU.peek (cache st) (cacheKey n1 "html") = None ->
  LRU.peek (cache st) (cacheKey n2 "ast") = None ->
  LRU.peek (cache st) (cacheKey n2 "html") = None ->
  load (source n1) (options this) (base_dir n1) = Normal a1 ->
  convert a1 (options this) (base_dir n1) = Normal html1 ->
  load (source n2) (options this) (base_dir n2) = Normal a2 ->
  convert a2 (options this) (base_dir n2) = Normal html2 ->
  1 <= fuel ->
  let r1 := _nodeToHTML this n1 st in
  let st1 := run fuel (snd r1) in
  let r2 := _nodeToHTML this n2 st1 in
  let st2 := run fuel (snd r2) in
  trace st2
  = trace st
    ++ [ELoad (source n1) (options this) (base_dir n1);
        EConvert a1 (options this) (base_dir n1);
        ELoad (source n2) (options this) (base_dir n2);
        EConvert a2 (options this) (base_dir n2)]
  /\ outcome st2 (fst r2) = Some (Fulfilled (VString html2))
  /\ LRU.peek (cache st2) (cacheKey n2 "html") = Some (VPromise (fst r2))
  /\ LRU.peek (cache st2) (cacheKey n1 "html") = Some (VPromise (fst r1))
  /\ outcome st2 (fst r1) = Some (Fulfilled (VString html1)).
Proof.
  intros Hne.
  assert (Haa : cacheKey n2 "ast" <> cacheKey n1 "ast")
    by (apply not_eq_sym, Hne; simpl; auto).
  assert (Hah : cacheKey n2 "ast" <> cacheKey n1 "html")
    by (apply not_eq_sym, Hne; simpl; auto).
  assert (Hha : cacheKey n2 "html" <> cacheKey n1 "ast")
    by (apply not_eq_sym, Hne; simpl; auto).
  assert (Hhh : cacheKey n2 "html" <> cacheKey n1 "html")
    by (apply not_eq_sym, Hne; simpl; auto).
  destruct st as [c h n js tr].
  intros [Hmax Hjobs] Ha1 Hh1 Ha2 Hh2 Hl1 Hc1 Hl2 Hc2 Hfuel.
  simpl in Hmax, Hjobs, Ha1, Hh1, Ha2, Hh2. subst js.
  pose proof (cache_max_pos c Hmax) as Hpos.
  destruct fuel as [|fuel]; [lia|]. cbv zeta.
  rewrite (nodeToHTML_cold this n1 c h n [] tr a1 Hh1 Ha1 Hl1).
  cbn [fst snd app].
  rewrite run_step, (resume_convert_ok _ _ _ _ html1) by assumption.
  rewrite (settle_pending _ _ []) by heap_lookup. cbn [snd map app].
  run_finish.
  rewrite (nodeToHTML_cold this n2 _ _ _ [] _ a2);
    [ | repeat apply lru_peek_set_other_none; auto
      | repeat apply lru_peek_set_other_none; auto | assumption ].
  cbn [fst snd app].
  rewrite run_step, (resume_convert_ok _ _ _ _ html2) by assumption.
  rewrite (settle_pending _ _ []) by heap_lookup. cbn [snd map app].
  run_finish.
  unfold outcome, promise_state. cbn [heap cache jobs trace].
  repeat split; try heap_lookup.
  - now rewrite <- !app_assoc.
  - now apply lru_peek_set_same.
  - unfold LRU.peek. apply (lru_find_firstn_whole _ _ 3).
    apply lru_recent_set_other;
      [now apply not_eq_sym|simpl; rewrite Hmax; unfold cache_max; lia|].
    apply lru_recent_set_other;
      [now apply not_eq_sym|simpl; rewrite Hmax; unfold cache_max; lia|].
    apply lru_recent_set_same. simpl. assumption.
Qed.

End Sharing.

(** ** The capacity of the store, and the reading time *)

Section StoreKept.
Context `{Externals}.

Lemma store_bind {A B} (m : M A) (f : A -> M B) :
  keeps_store m -> (forall a, keeps_store (f a)) -> keeps_store (bind m f).
Proof.
  intros Hm Hf st Hst. unfold bind. specialize (Hm st Hst).
  destruct (m st) as [a st']. now apply Hf.
Qed.

Lemma store_ret {A} (a : A) : keeps_store (ret a).
Proof. intros st Hst. exact Hst. Qed.

Lemma store_same {A} (m : M A) :
  (forall st, cache (snd (m st)) = cache st) -> keeps_store m.
Proof. intros Hc st Hst. now rewrite Hc. Qed.

Lemma store_cache_get k : keeps_store (cache_get k).
Proof.
  intros st [Hwf Hmax]. unfold cache_get.
  pose proof (lru_wf_get (cache st) k Hwf) as Hw.
  pose proof (lru_max_get (cache st) k) as Hm.
  destruct (LRU.get (cache st) k) as [c r]. cbn [snd fst cache] in *.
  split; congruence.
Qed.

Lemma store_cache_set k v : keeps_store (cache_set k v).
Proof.
  intros st [Hwf Hmax]. unfold cache_set. cbn [snd cache].
  split; [now apply lru_wf_set|exact Hmax].
Qed.

Lemma store_emit e : keeps_store (emit e).
Proof. now apply store_same. Qed.

Lemma store_new_promise s : keeps_store (new_promise s).
Proof. now apply store_same. Qed.

Lemma store_settle p o : keeps_store (settle p o).
Proof.
  apply store_same. intros st. unfold settle.
  now destruct (promise_state st p).
Qed.

Lemma store_subscribe p k : keeps_store (subscribe p k).
Proof.
  apply store_same. intros st. unfold subscribe.
  now destruct (promise_state st p).
Qed.

Lemma store_resolve p v : keeps_store (resolve p v).
Proof. destruct v; cbn [resolve]; auto using store_settle, store_subscribe. Qed.

Lemma store_Promise_resolve v : keeps_store (Promise_resolve v).
Proof.
  destruct v; cbn [Promise_resolve]; auto using store_new_promise, store_ret.
Qed.

End StoreKept.

Ltac store_step :=
  first
    [ apply store_ret | apply store_cache_get | apply store_cache_set
    | apply store_emit
    | apply store_new_promise | apply store_settle | apply store_subscribe
    | apply store_resolve | apply store_Promise_resolve
    | apply store_bind; [|intro]
    | match goal with
      | |- keeps_store (if ?b then _ else _) => destruct b
      | |- keeps_store (match ?x with _ => _ end) => destruct x
      end ].

Section StoreReachable.
Context `{Externals}.

Lemma store_nodeToAST this node : keeps_store (_nodeToAST this node).
Proof. unfold _nodeToAST. repeat store_step. Qed.

Lemma store_nodeToHTML this node : keeps_store (_nodeToHTML this node).
Proof.
  unfold _nodeToHTML. repeat first [ apply store_nodeToAST | store_step ].
Qed.

Lemma store_headings this node d s :
  keeps_store (headings_resolve this node d s).
Proof.
  unfold headings_resolve. repeat first [ apply store_nodeToAST | store_step ].
Qed.

Lemma store_timeToRead this node speed :
  keeps_store (timeToRead_resolve this node speed).
Proof.
  unfold timeToRead_resolve.
  repeat first [ apply store_nodeToHTML | store_step ].
Qed.

Lemma store_resume k o : keeps_store (resume k o).
Proof. destruct k, o as [[]|]; cbn [resume]; repeat store_step. Qed.

(** X6.  Whatever requests are made, the store keeps the capacity of
    line 8, holds at most 1000 entries and holds no fingerprint twice. *)
Theorem store_within_capacity st :
  reachable st ->
  LRU.max (cache st) = 1000
  /\ LRU.size (cache st) <= 1000
  /\ NoDup (LRU.keys (cache st)).
Proof.
  intros Hr.
  assert (Hok : store_ok (cache st)).
  { induction Hr as [|this node st _ IH|this node d s st _ IH
                     |this node speed st _ IH|st st' _ IH Ht].
    - split; reflexivity.
    - now apply store_nodeToHTML.
    - now apply store_headings.
    - now apply store_timeToRead.
    - unfold tick in Ht. destruct (jobs st) as [|[k o] js]; [discriminate|].
      injection Ht as <-. apply store_resume. exact IH. }
  destruct Hok as [Hwf Hmax]. apply lru_wf_iff in Hwf.
  destruct Hwf as [Hnd Hsize]. rewrite Hmax in Hsize.
  unfold cache_max in *. auto.
Qed.

(** X7.  For positive speeds the reading time of line 194 grows with the
    word count and falls with the speed, is 1 exactly when
    [count / speed < 3/2], and is at most the word count (or 1). *)
Theorem reading_time_arithmetic (count1 count2 : nat) (speed1 speed2 : Z) :
  (0 < speed1)%Z ->
  (speed1 <= speed2)%Z ->
  count1 <= count2 ->
  exists m11 m12 m21,
    or_one (Math_round_div count1 speed1) = NInt m11
    /\ or_one (Math_round_div count1 speed2) = NInt m12
    /\ or_one (Math_round_div count2 speed1) = NInt m21
    /\ (1 <= m12 <= m11)%Z
    /\ (m11 <= m21)%Z
    /\ (m11 = 1%Z <-> (2 * Z.of_nat count1 < 3 * speed1)%Z)
    /\ (m11 <= Z.max 1 (Z.of_nat count1))%Z.
Proof.
  intros Hs Hle Hc.
  rewrite !round_positive_speed by lia.
  do 3 eexists. repeat split; try reflexivity.
  - lia.
  - apply Z.max_le_compat_l.
    apply Z.div_le_lower_bound; [lia|].
    pose proof (Z.mul_div_le (2 * Z.of_nat count1 + speed2) (2 * speed2)).
    assert (0 <= (2 * Z.of_nat count1 + speed2) / (2 * speed2))%Z
      by (apply Z.div_pos; lia).
    nia.
  - apply Z.max_le_compat_l. apply Z.div_le_mono; lia.
  - intros Hm.
    assert ((2 * Z.of_nat count1 + speed1) / (2 * speed1) < 2)%Z by lia.
    pose proof (Z.mul_succ_div_gt (2 * Z.of_nat count1 + speed1) (2 * speed1)).
    nia.
  - intros Hlt.
    assert ((2 * Z.of_nat count1 + speed1) / (2 * speed1) < 2)%Z
      by (apply Z.div_lt_upper_bound; lia).
    lia.
  - apply Z.max_le_compat_l.
    destruct count1 as [|c].
    + change (Z.of_nat 0) with 0%Z.
      replace (2 * 0 + speed1)%Z with speed1 by lia.
      rewrite Z.div_small by lia. lia.
    + apply Z.lt_succ_r. apply Z.div_lt_upper_bound; [lia|]. nia.
Qed.

End StoreReachable.

(** * The [parse] method *)

Section ParseMethod.
Import Parser.

Section ObjFacts.
Context {A : Type}.
Implicit Types (o : Obj.t A) (k : string) (v : A).

Lemma obj_get_none_keys o k : Obj.get o k = None <-> ~ In k (Obj.keys o).
Proof.
  induction o as [|[k' v'] o IH]; simpl.
  - tauto.
  - destruct (String.eqb k k') eqn:E.
    + apply String.eqb_eq in E. subst. split; [discriminate|tauto].
    + apply String.eqb_neq in E. rewrite IH. split; [|tauto].
      intros Hn [Heq|Hin]; [congruence|tauto].
Qed.

Lemma obj_get_delete_same o k : Obj.get (Obj.delete o k) k = None.
Proof.
  induction o as [|[k' v'] o IH]; simpl; auto.
  destruct (String.eqb k k') eqn:E; simpl; auto. now rewrite E.
Qed.

Lemma obj_get_delete_other o k k' :
  String.eqb k' k = false -> Obj.get (Obj.delete o k) k' = Obj.get o k'.
Proof.
  intros Hne. induction o as [|[k0 v0] o IH]; simpl; auto.
  destruct (String.eqb k k0) eqn:E.
  - apply String.eqb_eq in E. subst k0. now rewrite Hne.
  - simpl. now rewrite IH.
Qed.

Lemma obj_get_delete_absent o k k' :
  Obj.get o k' = None -> Obj.get (Obj.delete o k) k' = None.
Proof.
  induction o as [|[k0 v0] o IH]; simpl; auto.
  destruct (String.eqb k' k0) eqn:E0; [discriminate|].
  intros Hg. destruct (String.eqb k k0); simpl; rewrite ?E0; auto.
Qed.

Lemma obj_get_set_same o k v : Obj.get (Obj.set o k v) k = Some v.
Proof.
  induction o as [|[k' v'] o IH]; simpl.
  - now rewrite String.eqb_refl.
  - destruct (String.eqb k k') eqn:E; simpl.
    + now rewrite String.eqb_refl.
    + now rewrite E.
Qed.

Lemma obj_get_set_other o k k' v :
  String.eqb k' k = false -> Obj.get (Obj.set o k v) k' = Obj.get o k'.
Proof.
  intros Hne. induction o as [|[k0 v0] o IH]; simpl.
  - now rewrite Hne.
  - destruct (String.eqb k k0) eqn:E; simpl.
    + apply String.eqb_eq in E. subst k0. now rewrite Hne.
    + now rewrite IH.
Qed.

Lemma obj_keys_delete_incl o k x :
  In x (Obj.keys (Obj.delete o k)) -> In x (Obj.keys o).
Proof.
  induction o as [|[k' v'] o IH]; simpl; auto.
  destruct (String.eqb k k'); simpl; tauto.
Qed.

Lemma obj_NoDup_delete o k :
  NoDup (Obj.keys o) -> NoDup (Obj.keys (Obj.delete o k)).
Proof.
  induction o as [|[k' v'] o IH]; simpl; auto.
  intros Hnd. inversion Hnd as [|? ? Hn Hd]; subst.
  destruct (String.eqb k k'); simpl; auto.
  constructor; auto. intros Hin. apply Hn. eapply obj_keys_delete_incl; eauto.
Qed.

End ObjFacts.

Section SpreadFacts.
Context {A B : Type}.
Implicit Types (f : A -> B) (target : Obj.t B) (src : Obj.t A).

Lemma obj_get_spread_absent f target src k :
  Obj.get src k = None ->
  Obj.get (Obj.spread f target src) k = Obj.get target k.
Proof.
  unfold Obj.spread. revert target.
  induction src as [|[k' v'] src IH]; intros target; simpl; auto.
  destruct (String.eqb k k') eqn:E; [discriminate|].
  intros Hg. rewrite IH by assumption. now apply obj_get_set_other.
Qed.

Lemma obj_get_spread_present f target src k a :
  NoDup (Obj.keys src) ->
  Obj.get src k = Some a ->
  Obj.get (Obj.spread f target src) k = Some (f a).
Proof.
  unfold Obj.spread. revert target.
  induction src as [|[k' v'] src IH]; intros target Hnd; simpl;
    [discriminate|].
  inversion Hnd as [|? ? Hn Hd]; subst.
  destruct (String.eqb k k') eqn:E.
  - apply String.eqb_eq in E. subst k'. intros [= ->].
    change (Obj.get (Obj.spread f (Obj.set target k (f a)) src) k
            = Some (f a)).
    rewrite obj_get_spread_absent by now apply obj_get_none_keys.
    apply obj_get_set_same.
  - intros Hg. now apply IH.
Qed.

Lemma obj_get_spread f target src k :
  NoDup (Obj.keys src) ->
  Obj.get (Obj.spread f target src) k
  = match Obj.get src k with
    | Some a => Some (f a)
    | None => Obj.get target k
    end.
Proof.
  intros Hnd. destruct (Obj.get src k) as [a|] eqn:E.
  - now apply obj_get_spread_present.
  - now apply obj_get_spread_absent.
Qed.

End SpreadFacts.

Lemma obj_keys_set_incl {A} (o : Obj.t A) k v x :
  In x (Obj.keys (Obj.set o k v)) -> x = k \/ In x (Obj.keys o).
Proof.
  induction o as [|[k' v'] o IH]; simpl.
  - intros [->|[]]. now left.
  - destruct (String.eqb k k') eqn:E; simpl.
    + apply String.eqb_eq in E. subst. intros [->|Hin]; auto.
    + intros [->|Hin]; [tauto|]. apply IH in Hin. tauto.
Qed.

Lemma obj_NoDup_set {A} (o : Obj.t A) k v :
  NoDup (Obj.keys o) -> NoDup (Obj.keys (Obj.set o k v)).
Proof.
  induction o as [|[k' v'] o IH]; simpl.
  - intros _. repeat constructor. simpl. tauto.
  - intros Hnd. inversion Hnd as [|? ? Hn Hd]; subst.
    destruct (String.eqb k k') eqn:E; simpl.
    + apply String.eqb_eq in E. subst. now constructor.
    + constructor; auto. intros Hin. apply obj_keys_set_incl in Hin.
      destruct Hin as [->|Hin]; [|contradiction].
      now rewrite String.eqb_refl in E.
Qed.

Lemma obj_NoDup_spread {A B} (f : A -> B) target (src : Obj.t A) :
  NoDup (Obj.keys target) -> NoDup (Obj.keys (Obj.spread f target src)).
Proof.
  unfold Obj.spread. revert target.
  induction src as [|[k v] src IH]; intros target Hnd; simpl; auto.
  apply IH. now apply obj_NoDup_set.
Qed.

Section ParseFacts.
Context {X : Externals} {D : DocumentAPI}.
Implicit Types (attrs o : Obj.t AttrValue) (k suffix : string)
  (authors : list Author).

Lemma delete_author_unfold o suffix :
  delete_author o suffix
  = Obj.delete
      (Obj.delete
         (Obj.delete
            (Obj.delete
               (Obj.delete (Obj.delete o ("author" ++ suffix))
                  ("email" ++ suffix))
               ("firstname" ++ suffix))
            ("lastname" ++ suffix))
         ("middlename" ++ suffix))
      ("authorinitials" ++ suffix).
Proof. reflexivity. Qed.

Lemma delete_author_absent o suffix k :
  Obj.get o k = None -> Obj.get (delete_author o suffix) k = None.
Proof.
  intros Hg. rewrite delete_author_unfold.
  repeat apply obj_get_delete_absent. assumption.
Qed.

Lemma delete_author_other o suffix k :
  (forall name, In name author_fields ->
                String.eqb k (name ++ suffix)%string = false) ->
  Obj.get (delete_author o suffix) k = Obj.get o k.
Proof.
  intros Hne. rewrite delete_author_unfold.
  rewrite !obj_get_delete_other; [reflexivity| | | | | |];
    apply Hne; unfold author_fields; simpl; tauto.
Qed.

Lemma delete_author_removed o suffix name :
  In name author_fields ->
  Obj.get (delete_author o suffix) (name ++ suffix)%string = None.
Proof.
  intros Hin. rewrite delete_author_unfold.
  unfold author_fields in Hin. simpl in Hin.
  destruct Hin as [<-|[<-|[<-|[<-|[<-|[<-|[]]]]]]];
    repeat first [ apply obj_get_delete_same
                 | apply obj_get_delete_absent ].
Qed.

Lemma delete_author_NoDup o suffix :
  NoDup (Obj.keys o) -> NoDup (Obj.keys (delete_author o suffix)).
Proof.
  intros Hnd. rewrite delete_author_unfold.
  repeat apply obj_NoDup_delete. assumption.
Qed.

Lemma visit_absent st item k :
  Obj.get (fst st) k = None -> Obj.get (fst (visit st item)) k = None.
Proof.
  intros Hg. unfold visit. destruct (String.prefix "author_" (fst item));
    simpl; auto using delete_author_absent.
Qed.

Lemma visits_absent l st k :
  Obj.get (fst st) k = None ->
  Obj.get (fst (fold_left visit l st)) k = None.
Proof.
  revert st. induction l as [|x l IH]; intros st Hg; simpl; auto.
  apply IH. now apply visit_absent.
Qed.

Lemma visits_NoDup l st :
  NoDup (Obj.keys (fst st)) ->
  NoDup (Obj.keys (fst (fold_left visit l st))).
Proof.
  revert st. induction l as [|x l IH]; intros st Hnd; simpl; auto.
  apply IH. unfold visit. destruct (String.prefix "author_" (fst x));
    simpl; auto using delete_author_NoDup.
Qed.

Lemma visits_other l st k :
  (forall name i, In name author_fields ->
                  String.eqb k (name ++ "_" ++ i)%string = false) ->
  Obj.get (fst (fold_left visit l st)) k = Obj.get (fst st) k.
Proof.
  intros Hne. revert st. induction l as [|x l IH]; intros st; simpl; auto.
  rewrite IH. unfold visit. destruct (String.prefix "author_" (fst x));
    simpl; auto. apply delete_author_other. intros name Hin. now apply Hne.
Qed.

Lemma visits_length l st :
  List.length (snd (fold_left visit l st))
  = List.length (snd st)
    + List.length (filter (fun x => String.prefix "author_" (fst x)) l).
Proof.
  revert st. induction l as [|x l IH]; intros st; simpl; [lia|].
  rewrite IH. unfold visit.
  destruct (String.prefix "author_" (fst x)); simpl; [|lia].
  rewrite length_app. simpl. lia.
Qed.

Lemma insert_perm x l : Permutation (insert x l) (x :: l).
Proof.
  induction l as [|y l IH]; simpl; auto.
  destruct (before x y); auto.
  rewrite IH. apply perm_swap.
Qed.

Lemma sort_perm l : Permutation (sort l) l.
Proof.
  induction l as [|x l IH]; simpl; auto.
  rewrite insert_perm. now constructor.
Qed.

Lemma filter_perm {T} (p : T -> bool) (l1 l2 : list T) :
  Permutation l1 l2 -> Permutation (filter p l1) (filter p l2).
Proof.
  induction 1 as [|x l1 l2 _ IH|x y l|l1 l2 l3 _ IH1 _ IH2]; simpl.
  - constructor.
  - destruct (p x); auto.
  - destruct (p x), (p y); auto. apply perm_swap.
  - now rewrite IH1.
Qed.

(** What [parse] returns under each key. *)
Lemma parse_document_get source doc k :
  let attrs' := fst (authors_of (getAttributes doc)) in
  let authorlist := snd (authors_of (getAttributes doc)) in
  Obj.get (parse_document source doc) k
  = if String.eqb k "authorlist" then Some (FAuthors authorlist)
    else if String.eqb k "revdate" then Some (revdate doc)
    else if String.eqb k "revnumber"
         then Some (FNumber (Number_of (getNumber doc)))
    else if String.eqb k "preamble" then Some (field_of (preamble doc))
    else if String.eqb k "subtitle" then Some (field_of (getSubtitle doc))
    else if String.eqb k "title" then Some (field_of (getMain doc))
    else match Obj.get (Obj.spread FAttr [] attrs') k with
         | Some v => Some v
         | None =>
             if String.eqb k "source" then Some (FString source)
             else if String.eqb k "excerpt" then Some (excerpt doc)
             else None
         end.
Proof.
  cbv zeta. unfold parse_document.
  destruct (authors_of (getAttributes doc)) as [attrs' authorlist].
  cbn [fst snd].
  set (base := Obj.spread FAttr [] attrs').
  assert (Hb : NoDup (Obj.keys base))
    by (apply obj_NoDup_spread; constructor).
  rewrite obj_get_spread by (repeat apply obj_NoDup_set; exact Hb).
  destruct (String.eqb k "authorlist") eqn:E1.
  { apply String.eqb_eq in E1. subst k. now rewrite obj_get_set_same. }
  rewrite obj_get_set_other by assumption.
  destruct (String.eqb k "revdate") eqn:E2.
  { apply String.eqb_eq in E2. subst k. now rewrite obj_get_set_same. }
  rewrite obj_get_set_other by assumption.
  destruct (String.eqb k "revnumber") eqn:E3.
  { apply String.eqb_eq in E3. subst k. now rewrite obj_get_set_same. }
  rewrite obj_get_set_other by assumption.
  destruct (String.eqb k "preamble") eqn:E4.
  { apply String.eqb_eq in E4. subst k. now rewrite obj_get_set_same. }
  rewrite obj_get_set_other by assumption.
  destruct (String.eqb k "subtitle") eqn:E5.
  { apply String.eqb_eq in E5. subst k. now rewrite obj_get_set_same. }
  rewrite obj_get_set_other by assumption.
  destruct (String.eqb k "title") eqn:E6.
  { apply String.eqb_eq in E6. subst k. now rewrite obj_get_set_same. }
  rewrite obj_get_set_other by assumption.
  destruct (Obj.get base k); [reflexivity|].
  cbn [Obj.get]. reflexivity.
Qed.

Lemma author_key_eqb name1 name2 i j :
  In name1 author_fields -> In name2 author_fields ->
  String.eqb (name1 ++ "_" ++ i)%string (name2 ++ "_" ++ j)%string = true ->
  name1 = name2 /\ i = j.
Proof.
  unfold author_fields. simpl.
  intros [<-|[<-|[<-|[<-|[<-|[<-|[]]]]]]] [<-|[<-|[<-|[<-|[<-|[<-|[]]]]]]];
    simpl; intros E; try discriminate;
    apply String.eqb_eq in E; auto.
Qed.

Lemma author_key_plain name1 name2 i :
  In name1 author_fields -> In name2 author_fields ->
  String.eqb (name1 ++ "_" ++ i)%string (name2 ++ "")%string = false.
Proof.
  unfold author_fields. simpl.
  intros [<-|[<-|[<-|[<-|[<-|[<-|[]]]]]]] [<-|[<-|[<-|[<-|[<-|[<-|[]]]]]]];
    reflexivity.
Qed.

(** Keys that no [delete] of [parse] can name. *)
Lemma authors_of_other attrs k :
  (forall name, In name author_fields ->
     k <> name /\ forall i, k <> (name ++ "_" ++ i)%string) ->
  Obj.get (fst (authors_of attrs)) k = Obj.get attrs k.
Proof.
  intros Hk. unfold authors_of, collect_authors.
  destruct (fold_left visit (sort attrs) (attrs, [])) as [attrs' l] eqn:E.
  cbn [fst]. rewrite delete_author_other.
  - change attrs' with (fst (attrs', l)). rewrite <- E.
    rewrite visits_other; [reflexivity|].
    intros name i Hin. apply String.eqb_neq. now apply Hk.
  - intros name Hin. apply String.eqb_neq.
    replace (name ++ "")%string with name; [now apply Hk|].
    unfold author_fields in Hin. simpl in Hin.
    destruct Hin as [<-|[<-|[<-|[<-|[<-|[<-|[]]]]]]]; reflexivity.
Qed.

Lemma authors_of_NoDup attrs :
  NoDup (Obj.keys attrs) -> NoDup (Obj.keys (fst (authors_of attrs))).
Proof.
  intros Hnd. unfold authors_of, collect_authors.
  destruct (fold_left visit (sort attrs) (attrs, [])) as [attrs' l] eqn:E.
  cbn [fst]. apply delete_author_NoDup.
  change attrs' with (fst (attrs', l)). rewrite <- E.
  now apply visits_NoDup.
Qed.

Lemma authors_of_plain_removed attrs name :
  In name author_fields -> Obj.get (fst (authors_of attrs)) name = None.
Proof.
  intros Hin. unfold authors_of.
  destruct (collect_authors attrs) as [attrs' l]. cbn [fst].
  pose proof (delete_author_removed attrs' "" name Hin) as Hr.
  replace (name ++ "")%string with name in Hr; [exact Hr|].
  unfold author_fields in Hin. simpl in Hin.
  destruct Hin as [<-|[<-|[<-|[<-|[<-|[<-|[]]]]]]]; reflexivity.
Qed.

Lemma authors_of_indexed_removed attrs key name :
  In key (Obj.keys attrs) -> String.prefix "author_" key = true ->
  In name author_fields ->
  Obj.get (fst (authors_of attrs)) (name ++ "_" ++ index_of key)%string = None.
Proof.
  intros Hkey Hp Hin. unfold authors_of, collect_authors.
  destruct (fold_left visit (sort attrs) (attrs, [])) as [attrs' l] eqn:E.
  cbn [fst]. apply delete_author_absent.
  change attrs' with (fst (attrs', l)). rewrite <- E. clear E attrs' l.
  assert (Hs : In key (map fst (sort attrs))).
  { unfold Obj.keys in Hkey.
    eapply Permutation_in; [|exact Hkey].
    apply Permutation_map, Permutation_sym, sort_perm. }
  apply in_map_iff in Hs. destruct Hs as ([key' v] & Hfst & Hs).
  simpl in Hfst. subst key'.
  apply in_split in Hs. destruct Hs as (l1 & l2 & ->).
  rewrite fold_left_app. simpl. apply visits_absent.
  unfold visit at 1. cbn [fst]. rewrite Hp. cbn [fst].
  now apply (delete_author_removed _ ("_" ++ index_of key)).
Qed.

Lemma author_at_same attrs cur i :
  (forall name, In name author_fields ->
     Obj.get cur (name ++ "_" ++ i)%string
     = Obj.get attrs (name ++ "_" ++ i)%string) ->
  author_at cur ("_" ++ i) = author_at attrs ("_" ++ i).
Proof.
  intros Hg. unfold author_at.
  rewrite !Hg by (unfold author_fields; simpl; tauto). reflexivity.
Qed.

Lemma visits_exact attrs l :
  forall st,
    NoDup (map index_of (filter (String.prefix "author_") (map fst l))) ->
    (forall name i,
       In name author_fields ->
       In i (map index_of (filter (String.prefix "author_") (map fst l))) ->
       Obj.get (fst st) (name ++ "_" ++ i)%string
       = Obj.get attrs (name ++ "_" ++ i)%string) ->
    snd (fold_left visit l st)
    = snd st
      ++ map (fun k => author_at attrs ("_" ++ index_of k))
           (filter (String.prefix "author_") (map fst l)).
Proof.
  induction l as [|[k v] l IH]; intros st Hnd Hsame; simpl.
  - now rewrite app_nil_r.
  - simpl in Hnd, Hsame. unfold visit at 2. cbn [fst].
    destruct (String.prefix "author_" k) eqn:Hp.
    + simpl in Hnd, Hsame. inversion Hnd as [|? ? Hn Hd]; subst.
      rewrite IH.
      * cbn [snd fst]. rewrite <- app_assoc. simpl. f_equal. f_equal.
        apply author_at_same. intros name Hin. apply Hsame; auto.
      * assumption.
      * intros name i Hin Hi. cbn [fst].
        rewrite delete_author_other; [apply Hsame; auto|].
        intros name' Hin'.
        destruct (String.eqb (name ++ "_" ++ i)
                    (name' ++ "_" ++ index_of k)) eqn:E; [|reflexivity].
        apply author_key_eqb in E; auto. destruct E as [_ ->].
        contradiction.
    + now apply IH.
Qed.

End ParseFacts.

Section ParseTheorems.
Context {X : Externals} {D : DocumentAPI}.

Lemma filter_fst_length {T} (p : string -> bool) (l : list (string * T)) :
  List.length (filter (fun x => p (fst x)) l)
  = List.length (filter p (map fst l)).
Proof.
  induction l as [|[k v] l IH]; simpl; auto.
  destruct (p k); simpl; auto.
Qed.

(** X9.  In the object [parse] returns, [title], [subtitle], [preamble],
    [revnumber] and [revdate] come from the document, whatever attributes
    it has; [source] and [excerpt] are replaced by a document attribute of
    that name. *)
Theorem parse_field_precedence (source : string) (doc : Document) :
  NoDup (Obj.keys (getAttributes doc)) ->
  let r := parse_document source doc in
  let attrs := getAttributes doc in
  Obj.get r "title" = Some (field_of (getMain doc))
  /\ Obj.get r "subtitle" = Some (field_of (getSubtitle doc))
  /\ Obj.get r "preamble" = Some (field_of (preamble doc))
  /\ Obj.get r "revnumber" = Some (FNumber (Number_of (getNumber doc)))
  /\ Obj.get r "revdate" = Some (revdate doc)
  /\ Obj.get r "source"
     = Some (match Obj.get attrs "source" with
             | Some a => FAttr a
             | None => FString source
             end)
  /\ Obj.get r "excerpt"
     = Some (match Obj.get attrs "excerpt" with
             | Some a => FAttr a
             | None => excerpt doc
             end).
Proof.
  intros Hnd r attrs. subst r.
  repeat split; rewrite parse_document_get; cbn [String.eqb Ascii.eqb Bool.eqb];
    try reflexivity.
  - rewrite obj_get_spread by now apply authors_of_NoDup.
    rewrite authors_of_other.
    + fold attrs. now destruct (Obj.get attrs "source").
    + unfold author_fields. simpl.
      intros name [<-|[<-|[<-|[<-|[<-|[<-|[]]]]]]]; split; try discriminate;
        intros i; discriminate.
  - rewrite obj_get_spread by now apply authors_of_NoDup.
    rewrite authors_of_other.
    + fold attrs. now destruct (Obj.get attrs "excerpt").
    + unfold author_fields. simpl.
      intros name [<-|[<-|[<-|[<-|[<-|[<-|[]]]]]]]; split; try discriminate;
        intros i; discriminate.
Qed.

(** X10.  Every other document attribute, the author attributes apart,
    is a property of the result with its value, and the result has no
    further property. *)
Theorem parse_attributes_pass_through (source : string) (doc : Document)
  (k : string) :
  NoDup (Obj.keys (getAttributes doc)) ->
  ~ In k reserved_keys ->
  (forall name, In name author_fields ->
     k <> name /\ forall i, k <> (name ++ "_" ++ i)%string) ->
  Obj.get (parse_document source doc) k
  = match Obj.get (getAttributes doc) k with
    | Some a => Some (FAttr a)
    | None => None
    end.
Proof.
  intros Hnd Hres Hk. rewrite parse_document_get. cbv zeta.
  unfold reserved_keys in Hres. simpl in Hres.
  repeat match goal with
         | |- context [String.eqb k ?lit] =>
             destruct (String.eqb_spec k lit) as [->|_]; [exfalso; tauto|]
         end.
  rewrite obj_get_spread by now apply authors_of_NoDup.
  rewrite authors_of_other by assumption.
  cbn [Obj.get]. now destruct (Obj.get (getAttributes doc) k).
Qed.

(** X11.  The result has none of the attributes [author], [email],
    [firstname], [lastname], [middlename], [authorinitials], nor their
    numbered forms for any index that an [author_<index>] attribute
    names. *)
Theorem parse_author_keys_removed (source : string) (doc : Document)
  (name : string) :
  In name author_fields ->
  Obj.get (parse_document source doc) name = None
  /\ forall key,
       In key (Obj.keys (getAttributes doc)) ->
       String.prefix "author_" key = true ->
       Obj.get (parse_document source doc)
         (name ++ "_" ++ index_of key)%string = None.
Proof.
  intros Hin. split.
  - rewrite parse_document_get. cbv zeta.
    rewrite obj_get_spread_absent by now apply authors_of_plain_removed.
    unfold author_fields in Hin. simpl in Hin.
    destruct Hin as [<-|[<-|[<-|[<-|[<-|[<-|[]]]]]]]; reflexivity.
  - intros key Hkey Hp. rewrite parse_document_get. cbv zeta.
    rewrite obj_get_spread_absent
      by now apply authors_of_indexed_removed.
    unfold author_fields in Hin. simpl in Hin.
    destruct Hin as [<-|[<-|[<-|[<-|[<-|[<-|[]]]]]]]; reflexivity.
Qed.

Lemma visits_none l st :
  filter (fun x => String.prefix "author_" (fst x)) l = [] ->
  fold_left visit l st = st.
Proof.
  revert st. induction l as [|x l IH]; intros st; simpl; auto.
  unfold visit at 2.
  destruct (String.prefix "author_" (fst x)); [discriminate|]. apply IH.
Qed.

Lemma named_length (attrs : Obj.t AttrValue) :
  List.length (filter (fun x => String.prefix "author_" (fst x)) (sort attrs))
  = List.length (filter (String.prefix "author_") (Obj.keys attrs)).
Proof.
  rewrite filter_fst_length. unfold Obj.keys.
  apply Permutation_length, filter_perm, Permutation_map, sort_perm.
Qed.

(** X12.  [authorlist] is never empty: it has one entry for each
    [author_...] attribute, and the one entry made from the unnumbered
    attributes when there is none. *)
Theorem parse_authorlist_size (source : string) (doc : Document) :
  let attrs := getAttributes doc in
  let named := filter (String.prefix "author_") (Obj.keys attrs) in
  exists l,
    Obj.get (parse_document source doc) "authorlist" = Some (FAuthors l)
    /\ l <> []
    /\ List.length l = Nat.max 1 (List.length named)
    /\ (named = [] -> l = [author_at attrs ""]).
Proof.
  intros attrs named. exists (snd (authors_of attrs)).
  split; [rewrite parse_document_get; reflexivity|].
  pose proof (named_length attrs) as Hlen. fold named in Hlen.
  unfold authors_of, collect_authors.
  destruct (filter (fun x => String.prefix "author_" (fst x)) (sort attrs))
    as [|x xs] eqn:Ef.
  - rewrite visits_none by assumption. cbn [snd].
    simpl in Hlen. rewrite <- Hlen.
    split; [discriminate|]. split; [reflexivity|]. intros _. reflexivity.
  - destruct (fold_left visit (sort attrs) (attrs, [])) as [attrs' l] eqn:E.
    assert (Hl : List.length l = List.length named).
    { change l with (snd (attrs', l)). rewrite <- E, visits_length, Ef.
      cbn [snd List.length]. simpl in Hlen. lia. }
    simpl in Hlen. cbn [snd]. destruct l as [|a l].
    + simpl in Hl. lia.
    + split; [discriminate|]. split.
      * rewrite <- Hl. simpl. lia.
      * intros Hn. rewrite Hn in Hlen. discriminate.
Qed.

(** X13.  When the [author_...] attributes have different indices, the
    entries of [authorlist] are those of the document's attributes as
    they were, one for each such attribute, in the order of the sort
    (descending by key). *)
Theorem parse_authorlist_exact (source : string) (doc : Document) :
  let attrs := getAttributes doc in
  let named := filter (String.prefix "author_") (map fst (sort attrs)) in
  named <> [] ->
  NoDup (map index_of (filter (String.prefix "author_") (Obj.keys attrs))) ->
  Obj.get (parse_document source doc) "authorlist"
  = Some (FAuthors
            (map (fun key => author_at attrs ("_" ++ index_of key)) named)).
Proof.
  intros attrs named Hne Hnd.
  rewrite parse_document_get. cbn [String.eqb Ascii.eqb Bool.eqb].
  f_equal. f_equal. fold attrs.
  assert (Hnd' : NoDup (map index_of named)).
  { eapply Permutation_NoDup; [|exact Hnd].
    apply Permutation_map, filter_perm. unfold Obj.keys.
    apply Permutation_map, Permutation_sym, sort_perm. }
  pose proof (visits_exact attrs (sort attrs) (attrs, []) Hnd'
                (fun _ _ _ _ => eq_refl)) as Hex.
  cbn [snd app] in Hex. fold named in Hex.
  unfold authors_of, collect_authors.
  destruct (fold_left visit (sort attrs) (attrs, [])) as [attrs' l].
  cbn [snd] in *. subst l.
  destruct named; [contradiction|reflexivity].
Qed.

Lemma has_offset_spec (s : string) :
  has_offset s = true
  <-> exists pre c d1 d2 post,
        s = (pre ++ String c (String d1 (String d2 post)))%string
        /\ is_sign c = true /\ is_digit d1 = true /\ is_digit d2 = true.
Proof.
  induction s as [|c s IH]; simpl.
  - split; [discriminate|].
    intros (pre & c & d1 & d2 & post & E & _). destruct pre; discriminate.
  - rewrite orb_true_iff, andb_true_iff, IH. split.
    + intros [[Hs Hd]|(pre & c' & d1 & d2 & post & -> & Hc & H1 & H2)].
      * destruct s as [|d1 [|d2 post]]; try discriminate.
        simpl in Hd. apply andb_true_iff in Hd.
        exists ""%string, c, d1, d2, post. tauto.
      * exists (String c pre), c', d1, d2, post. simpl. tauto.
    + intros (pre & c' & d1 & d2 & post & E & Hc & H1 & H2).
      destruct pre as [|p pre]; simpl in E; injection E as -> ->.
      * left. simpl. rewrite H1, H2. tauto.
      * right. exists pre, c', d1, d2, post. tauto.
Qed.

(** X14.  [revdate] is [null] exactly when the revision has no date or an
    empty one; a date that holds a sign followed by two digits is parsed
    as it is, any other with " GMT" appended. *)
Theorem parse_revdate (source : string) (doc : Document) :
  Obj.get (parse_document source doc) "revdate" = Some (revdate doc)
  /\ (revdate doc = FNull
      <-> getDate doc = None \/ getDate doc = Some ""%string)
  /\ (forall pre c d1 d2 post,
        getDate doc
        = Some (pre ++ String c (String d1 (String d2 post)))%string ->
        is_sign c = true -> is_digit d1 = true -> is_digit d2 = true ->
        revdate doc
        = FDate (new_Date
                   (pre ++ String c (String d1 (String d2 post)))%string))
  /\ (forall s,
        getDate doc = Some s -> s <> ""%string -> has_offset s = false ->
        revdate doc = FDate (new_Date (s ++ " GMT")%string)).
Proof.
  split; [rewrite parse_document_get; reflexivity|].
  unfold revdate, dateString. split; [|split].
  - destruct (getDate doc) as [s|]; [|tauto].
    destruct (String.eqb_spec s "") as [->|Hs]; simpl.
    + tauto.
    + destruct (has_offset s); simpl.
      * destruct (String.eqb_spec s ""); [contradiction|].
        split; [discriminate|]. intros [E|[= E]]; [discriminate|contradiction].
      * destruct (String.eqb_spec (s ++ " GMT") "") as [E|_].
        -- destruct s; discriminate.
        -- split; [discriminate|].
           intros [E|[= E]]; [discriminate|contradiction].
  - intros pre c d1 d2 post -> Hc H1 H2.
    assert (Ho : has_offset (pre ++ String c (String d1 (String d2 post)))
                 = true)
      by (apply has_offset_spec; exists pre, c, d1, d2, post; tauto).
    rewrite Ho, andb_false_r.
    destruct (String.eqb_spec (pre ++ String c (String d1 (String d2 post)))
                "") as [E|_]; [|reflexivity].
    destruct pre; discriminate.
  - intros s -> Hs Ho. rewrite Ho.
    destruct (String.eqb_spec s "") as [|_]; [contradiction|]. simpl.
    destruct (String.eqb_spec (s ++ " GMT") "") as [E|_]; [|reflexivity].
    destruct s; discriminate.
Qed.


(** X16.  The [parse] of the earlier revision returns the attributes as
    they are, over [source] and the combined title as [excerpt]; on every
    property that is neither one the later revision sets itself nor an
    author attribute the two revisions agree. *)
Theorem parse_revisions_agree (source : string) (doc : Document)
  (k : string) :
  NoDup (Obj.keys (getAttributes doc)) ->
  Obj.get (parse_document_v0 source doc) k
  = match Obj.get (getAttributes doc) k with
    | Some a => Some (FAttr a)
    | None =>
        if String.eqb k "source" then Some (FString source)
        else if String.eqb k "excerpt" then Some (field_of (getCombined doc))
        else None
    end
  /\ (~ In k reserved_keys ->
      (forall name, In name author_fields ->
         k <> name /\ forall i, k <> (name ++ "_" ++ i)%string) ->
      Obj.get (parse_document source doc) k
      = Obj.get (parse_document_v0 source doc) k).
Proof.
  intros Hnd.
  assert (Hv0 : forall k',
             Obj.get (parse_document_v0 source doc) k'
             = match Obj.get (getAttributes doc) k' with
               | Some a => Some (FAttr a)
               | None =>
                   if String.eqb k' "source" then Some (FString source)
                   else if String.eqb k' "excerpt"
                        then Some (field_of (getCombined doc))
                        else None
               end).
  { intros k'. unfold parse_document_v0.
    rewrite obj_get_spread by assumption. reflexivity. }
  split; [apply Hv0|].
  intros Hres Hk. rewrite Hv0, parse_document_get. cbv zeta.
  unfold reserved_keys in Hres. simpl in Hres.
  repeat match goal with
         | |- context [String.eqb k ?lit] =>
             destruct (String.eqb_spec k lit) as [->|_]; [exfalso; tauto|]
         end.
  rewrite obj_get_spread by now apply authors_of_NoDup.
  rewrite authors_of_other by assumption.
  cbn [Obj.get]. now destruct (Obj.get (getAttributes doc) k).
Qed.


End ParseTheorems.

End ParseMethod.

(** * More runs on the sample collaborators *)
Module StageRuns.
Import Sample.

Lemma article_stage_keys : NoDup (map (cacheKey article) stage_keys).
Proof. apply lru_distinct_NoDup. vm_compute. reflexivity. Qed.

Lemma broken_stage_keys : NoDup (map (cacheKey broken) stage_keys).
Proof. apply lru_distinct_NoDup. vm_compute. reflexivity. Qed.

(** X1: the three fields of the sample article in one query. *)
Lemma page_query_shares_work_witness :
  let r1 := content_resolve transformer article initial in
  let r2 := headings_resolve transformer article None true (snd r1) in
  let r3 := timeToRead_resolve transformer article 230 (snd r2) in
  calls is_load (run 3 (snd r3)) = 1
  /\ calls is_convert (run 3 (snd r3)) = 1.
Proof.
  destruct (page_query_shares_work (X:=externals) transformer article
              initial 3 (Build_Doc outline "== hello world")
              "<p>== hello world</p>" None true 230%Z
              (conj eq_refl eq_refl) eq_refl eq_refl eq_refl eq_refl
              article_stage_keys eq_refl eq_refl (le_n 3))
    as (Htr & _).
  unfold calls. rewrite Htr. split; reflexivity.
Defined.

(** X2: the headings of the sample article, then its rendering. *)
Lemma parsed_document_shared_witness :
  let r1 := headings_resolve transformer article None true initial in
  let st1 := run 1 (snd r1) in
  let r2 := _nodeToHTML transformer article st1 in
  calls is_load (run 1 (snd r2)) = 1.
Proof.
  destruct (parsed_document_shared (X:=externals) transformer article
              initial 1 (Build_Doc outline "== hello world")
              "<p>== hello world</p>" None true
              (conj eq_refl eq_refl) eq_refl eq_refl eq_refl
              article_stage_keys eq_refl eq_refl (le_n 1))
    as ((Htr & _) & _).
  unfold calls. rewrite Htr. reflexivity.
Defined.

(** X3: the reading time of the sample article after its rendering. *)
Lemma reading_time_reuses_rendering_witness :
  let r1 := content_resolve transformer article initial in
  let st1 := run 1 (snd r1) in
  let r2 := timeToRead_resolve transformer article 230 st1 in
  calls is_convert (run 1 (snd r2)) = calls is_convert st1.
Proof.
  destruct (reading_time_reuses_rendering (X:=externals) transformer article
              initial 1 (Build_Doc outline "== hello world")
              "<p>== hello world</p>" 230%Z
              (conj eq_refl eq_refl) eq_refl eq_refl eq_refl
              article_stage_keys eq_refl eq_refl (le_n 1))
    as (Htr & _).
  unfold calls. rewrite Htr. reflexivity.
Defined.

(** X4: the reading time of a source the parser rejects. *)
Lemma reading_time_rejected_witness :
  let r1 := timeToRead_resolve transformer broken 230 initial in
  let st1 := run 2 (snd r1) in
  outcome st1 (fst r1) = Some (Rejected (Thrown "cannot load"))
  /\ LRU.peek (cache st1) (cacheKey broken "timeToRead") = None.
Proof.
  destruct (reading_time_rejected (X:=externals) transformer broken
              initial 2 (Thrown "cannot load") 230%Z 100%Z
              (conj eq_refl eq_refl) eq_refl eq_refl eq_refl
              broken_stage_keys (or_introl eq_refl) (le_n 2))
    as (Hout & Hpeek & _).
  exact (conj Hout Hpeek).
Defined.

(** X5: the article, and then the same text without its section title. *)
Lemma changed_node_rerenders_witness :
  let r1 := _nodeToHTML transformer article initial in
  let st1 := run 1 (snd r1) in
  let r2 := _nodeToHTML transformer plain st1 in
  let st2 := run 1 (snd r2) in
  outcome st2 (fst r2) = Some (Fulfilled (VString "<p>hello world</p>"))
  /\ outcome st2 (fst r1)
     = Some (Fulfilled (VString "<p>== hello world</p>")).
Proof.
  assert (Hne : forall k1 k2,
             In k1 ["ast"; "html"] -> In k2 ["ast"; "html"] ->
             cacheKey article k1 <> cacheKey plain k2).
  { intros k1 k2 [<-|[<-|[]]] [<-|[<-|[]]]; vm_compute; discriminate. }
  destruct (changed_node_rerenders (X:=externals) transformer article plain
              initial 1 (Build_Doc outline "== hello world")
              "<p>== hello world</p>" (Build_Doc [] "hello world")
              "<p>hello world</p>" Hne
              (conj eq_refl eq_refl) eq_refl eq_refl eq_refl eq_refl
              eq_refl eq_refl eq_refl eq_refl (le_n 1))
    as (_ & H2 & _ & _ & H1).
  exact (conj H2 H1).
Defined.

(** X6: the store after a [timeToRead] request has run to its end. *)
Lemma store_within_capacity_witness :
  let st := snd (timeToRead_resolve transformer article 230 initial) in
  LRU.size (cache (run 2 st)) <= 1000.
Proof.
  exact (proj1 (proj2 (store_within_capacity _
                         (reachable_run 2 _
                            (reach_timeToRead transformer article 230%Z
                               initial reach_initial))))).
Defined.

(** X7: 460 and 920 words at 230 and 460 words per minute. *)
Lemma reading_time_arithmetic_witness :
  exists m11 m12 m21,
    or_one (Math_round_div 460 230) = NInt m11
    /\ or_one (Math_round_div 460 460) = NInt m12
    /\ or_one (Math_round_div 920 230) = NInt m21
    /\ (1 <= m12 <= m11)%Z
    /\ (m11 <= m21)%Z
    /\ (m11 = 1%Z <-> (2 * Z.of_nat 460 < 3 * 230)%Z)
    /\ (m11 <= Z.max 1 (Z.of_nat 460))%Z.
Proof.
  apply (reading_time_arithmetic (H:=externals) 460 920 230 460); lia.
Defined.

End StageRuns.

Module ParseRuns.
Import Parser Book.

Lemma guide_keys_distinct : NoDup (Obj.keys (entries guide)).
Proof. apply lru_distinct_NoDup. vm_compute. reflexivity. Qed.


(** X9: the guide has an attribute named "source". *)
Lemma parse_field_precedence_witness :
  Obj.get (parse_document (D:=api) "= Guide" guide) "title"
  = Some (FString "Guide")
  /\ Obj.get (parse_document (D:=api) "= Guide" guide) "source"
     = Some (FAttr "overridden").
Proof.
  destruct (parse_field_precedence (D:=api) "= Guide" guide
              guide_keys_distinct)
    as (Ht & _ & _ & _ & _ & Hs & _).
  exact (conj Ht Hs).
Defined.

(** X10: the [authorcount] attribute of the guide. *)
Lemma parse_attributes_pass_through_witness :
  Obj.get (parse_document (D:=api) "= Guide" guide) "authorcount"
  = Some (FAttr "2").
Proof.
  apply (parse_attributes_pass_through (D:=api) "= Guide" guide
           "authorcount" guide_keys_distinct).
  - vm_compute. intuition discriminate.
  - intros name Hin. vm_compute in Hin.
    destruct Hin as [<-|[<-|[<-|[<-|[<-|[<-|[]]]]]]];
      (split; [discriminate|intros i; discriminate]).
Defined.

(** X11: [author] and [email_1] of the guide. *)
Lemma parse_author_keys_removed_witness :
  Obj.get (parse_document (D:=api) "= Guide" guide) "author" = None
  /\ Obj.get (parse_document (D:=api) "= Guide" guide) "email_1" = None.
Proof.
  split.
  - apply (parse_author_keys_removed (D:=api) "= Guide" guide "author").
    vm_compute. auto.
  - apply (proj2 (parse_author_keys_removed (D:=api) "= Guide" guide "email"
                    ltac:(vm_compute; auto)) "author_1");
      vm_compute; auto.
Defined.

(** X12: a note without any author. *)
Lemma parse_authorlist_size_witness :
  exists l,
    Obj.get (parse_document (D:=api) "note" note) "authorlist"
    = Some (FAuthors l)
    /\ List.length l = 1.
Proof.
  destruct (parse_authorlist_size (D:=api) "note" note)
    as (l & Hl & _ & Hlen & _).
  exists l. split; [exact Hl|exact Hlen].
Defined.

(** X13: the two authors of the guide, the second one first. *)
Lemma parse_authorlist_exact_witness :
  Obj.get (parse_document (D:=api) "= Guide" guide) "authorlist"
  = Some (FAuthors
            [ {| author := Given "Bob Roe"; email := Blank;
                 firstname := Blank; lastname := Blank;
                 middlename := Blank; authorinitials := Blank |};
              {| author := Given "Ann Lee"; email := Given "ann@example.org";
                 firstname := Blank; lastname := Blank;
                 middlename := Blank; authorinitials := Blank |} ]).
Proof.
  apply (parse_authorlist_exact (D:=api) "= Guide" guide).
  - vm_compute. discriminate.
  - apply lru_distinct_NoDup. vm_compute. reflexivity.
Defined.

(** X14: the date "2020-01-02" holds "-01". *)
Lemma parse_revdate_witness :
  revdate (D:=api) guide = FDate "2020-01-02".
Proof.
  apply (proj1 (proj2 (proj2 (parse_revdate (D:=api) "= Guide" guide)))
           "2020" "-"%char "0"%char "1"%char "-02");
    reflexivity.
Defined.


(** X16: the [description] attribute of the guide in both revisions. *)
Lemma parse_revisions_agree_witness :
  Obj.get (parse_document (D:=api) "= Guide" guide) "description"
  = Obj.get (parse_document_v0 (D:=api) "= Guide" guide) "description".
Proof.
  apply (proj2 (parse_revisions_agree (D:=api) "= Guide" guide "description"
                  guide_keys_distinct)).
  - vm_compute. intuition discriminate.
  - intros name Hin. vm_compute in Hin.
    destruct Hin as [<-|[<-|[<-|[<-|[<-|[<-|[]]]]]]];
      (split; [discriminate|intros i; discriminate]).
Defined.

End ParseRuns.
